(** * MeetingVisualizer: transcript aggregation and fan-out broadcast

    A shallow embedding of the two Python modules of the backend,

      - [backend/app/services/transcription_service.py]
        (class [TranscriptionService]), and
      - [backend/app/main.py]
        (class [ConnectionManager] and [websocket_endpoint]),

    followed by the properties of the aggregation/broadcast loop.

    Modelling conventions.

    - Every method is a computation in the monad [M]: it threads the
      object's fields as an explicit state, may raise a Python exception
      (the state reached so far is kept, as a mutated object is), and
      records the calls it makes to the outside world in a trace.
    - The outside world (the Whisper model, the chat-completion API, the
      pydantic validators and the WebSocket peers) is a record [world] of
      oracles: each answers or raises.
    - An outbound message is recorded as the JSON value handed to the
      socket. [BaseModel.dict] keeps [datetime] fields as [datetime]
      objects, which [json.dumps] cannot encode: a value of [pyvalue] may
      hold one, and [json_dumps] is [None] where [json.dumps] raises
      [TypeError].
    - A WebSocket object is its identity (a number); a Python [str] is a
      [string] whose characters are the code points below 256. *)

From Stdlib Require Import List String Ascii Bool Arith ZArith NArith Lia.
From Stdlib Require Import Strings.Byte.
Import ListNotations.
Local Open Scope string_scope.
Local Open Scope list_scope.

(** ** Python exceptions *)

Inductive exn_kind :=
| ValueError
| IndexError
| TypeError
| ValidationError
| TimeoutError
| WebSocketDisconnect
| RuntimeError.

Record exn := Exn { exn_kind_of : exn_kind; exn_msg : string }.

(** What an external call answers: a value, or a raised exception. *)
Inductive result (A : Type) :=
| Ok (a : A)
| Err (e : exn).
Arguments Ok {A} a.
Arguments Err {A} e.

(** ** Python built-ins used by the program *)

Module Py.

(** [x in xs] on a list of objects compared by identity. *)
Fixpoint contains (x : nat) (xs : list nat) : bool :=
  match xs with
  | [] => false
  | y :: ys => if Nat.eqb y x then true else contains x ys
  end.

(** [xs.remove(x)]: drops the first occurrence; [None] stands for the
    [ValueError] raised when there is none. *)
Fixpoint remove (x : nat) (xs : list nat) : option (list nat) :=
  match xs with
  | [] => None
  | y :: ys =>
      if Nat.eqb y x then Some ys
      else match remove x ys with
           | Some ys' => Some (y :: ys')
           | None => None
           end
  end.

(** Lifting a lookup that fails with [IndexError]. *)
Definition or_index_error {A : Type} (o : option A) (msg : string) : result A :=
  match o with
  | Some a => Ok a
  | None => Err (Exn IndexError msg)
  end.

(** [xs[i]] for a Python int [i]: a negative index counts from the end.
    An index that does not fit a machine word (64 bits) is refused
    before the list is looked at; one that fits and is out of range is
    refused by the list. Both are an [IndexError]. *)
Definition getitem {A : Type} (xs : list A) (i : Z) : result A :=
  let n := Z.of_nat (List.length xs) in
  if ((i <? - 2 ^ 63) || (2 ^ 63 <=? i))%Z then
    Err (Exn IndexError "cannot fit 'int' into an index-sized integer")
  else if (0 <=? i)%Z then
    or_index_error (nth_error xs (Z.to_nat i)) "list index out of range"
  else if (0 <=? n + i)%Z then
    or_index_error (nth_error xs (Z.to_nat (n + i))) "list index out of range"
  else Err (Exn IndexError "list index out of range").

(** [str.isspace] on one character (code points below 256). *)
Definition isspace (c : ascii) : bool :=
  let n := nat_of_ascii c in
  ((9 <=? n)%nat && (n <=? 13)%nat) || ((28 <=? n)%nat && (n <=? 32)%nat)
  || (n =? 133)%nat || (n =? 160)%nat.

Fixpoint lstrip (s : string) : string :=
  match s with
  | EmptyString => EmptyString
  | String c s' => if isspace c then lstrip s' else s
  end.

Fixpoint rstrip (s : string) : string :=
  match s with
  | EmptyString => EmptyString
  | String c s' =>
      match rstrip s' with
      | EmptyString => if isspace c then EmptyString else String c EmptyString
      | r => String c r
      end
  end.

(** [s.strip()] *)
Definition strip (s : string) : string := rstrip (lstrip s).

(** Truth value of a [str]: non-empty. *)
Definition truthy (s : string) : bool :=
  match s with EmptyString => false | _ => true end.

(** [s.split(sep)] for a one-character separator: always at least one
    piece; an empty [s] gives [['']]. *)
Fixpoint split (sep : ascii) (s : string) : list string :=
  match s with
  | EmptyString => [EmptyString]
  | String c s' =>
      if Ascii.eqb c sep then EmptyString :: split sep s'
      else match split sep s' with
           | [] => [String c EmptyString]
           | piece :: pieces => String c piece :: pieces
           end
  end.

Definition newline : ascii := ascii_of_nat 10.

End Py.

(** ** Audio buffers *)

(** A float32 sample, kept as its 32-bit pattern: the program never
    computes on samples, it only moves and concatenates them. *)
Definition sample := N.

(** A chunk is a one-dimensional [np.ndarray] of samples. *)
Definition chunk := list sample.

Definition word_le (b0 b1 b2 b3 : byte) : sample :=
  N.lor (Byte.to_N b0)
    (N.lor (N.shiftl (Byte.to_N b1) 8)
       (N.lor (N.shiftl (Byte.to_N b2) 16) (N.shiftl (Byte.to_N b3) 24))).

(** [np.frombuffer(data, dtype=np.float32)]: four bytes per sample; [None]
    stands for the [ValueError] raised when the size is not a multiple of
    four. *)
Fixpoint frombuffer (data : list byte) : option chunk :=
  match data with
  | [] => Some []
  | b0 :: b1 :: b2 :: b3 :: rest =>
      match frombuffer rest with
      | Some samples => Some (word_le b0 b1 b2 b3 :: samples)
      | None => None
      end
  | _ => None
  end.

(** [np.concatenate(chunks)] on one-dimensional arrays; [None] stands for
    the [ValueError] raised on an empty sequence. *)
Definition np_concatenate (chunks : list chunk) : option chunk :=
  match chunks with
  | [] => None
  | _ => Some (List.concat chunks)
  end.

(** ** JSON payloads *)

Unset Elimination Schemes.
Inductive json :=
| JNull
| JStr (s : string)
| JNum (z : Z)
| JList (items : list json)
| JObj (fields : list (string * json)).
Set Elimination Schemes.

Definition json_opt_str (o : option string) : json :=
  match o with Some s => JStr s | None => JNull end.

Fixpoint json_get (key : string) (fields : list (string * json)) : option json :=
  match fields with
  | [] => None
  | (k, v) :: rest => if String.eqb k key then Some v else json_get key rest
  end.

(** The [type] of an event envelope [{"type": ..., "data": ...}]. *)
Definition event_type (m : json) : option json :=
  match m with
  | JObj fields => json_get "type" fields
  | _ => None
  end.

(** ** Pydantic models *)

(** A [datetime], as seconds since the epoch. *)
Definition datetime := Z.

Record ActionItem := {
  task : string;
  assignee : option string;
  due_date : option datetime;
  context : option string;
  status : string;
  ai_created_at : datetime
}.

Record DiagramMetadata := {
  diagram_type : string;
  content : string;
  relationships : list (list (string * string));
  title : option string;
  created_at : datetime;
  last_updated : datetime
}.

(** ** Python values handed to the JSON encoder *)

(** A Python value as the program builds them: JSON data, [datetime]
    objects, and lists and dicts of such values. *)
Unset Elimination Schemes.
Inductive pyvalue :=
| PJson (j : json)
| PDatetime (t : datetime)
| PList (items : list pyvalue)
| PDict (fields : list (string * pyvalue)).
Set Elimination Schemes.

(** [json.dumps(v)]: the encoded value, or [None] for the [TypeError]
    raised on a value that holds a [datetime]. *)
Fixpoint json_dumps (v : pyvalue) : option json :=
  match v with
  | PJson j => Some j
  | PDatetime _ => None
  | PList items =>
      option_map JList
        ((fix dumps_items (l : list pyvalue) : option (list json) :=
            match l with
            | [] => Some []
            | x :: l' =>
                match json_dumps x with
                | None => None
                | Some j =>
                    match dumps_items l' with
                    | None => None
                    | Some js => Some (j :: js)
                    end
                end
            end) items)
  | PDict fields =>
      option_map JObj
        ((fix dumps_fields (l : list (string * pyvalue))
            : option (list (string * json)) :=
            match l with
            | [] => Some []
            | (k, x) :: l' =>
                match json_dumps x with
                | None => None
                | Some j =>
                    match dumps_fields l' with
                    | None => None
                    | Some js => Some ((k, j) :: js)
                    end
                end
            end) fields)
  end.

(** The exception of [json.dumps] on a [datetime]. *)
Definition not_serializable : exn :=
  Exn TypeError "Object of type datetime is not JSON serializable".

Definition py_opt_str (o : option string) : pyvalue :=
  PJson (json_opt_str o).

Definition py_opt_time (o : option datetime) : pyvalue :=
  match o with Some t => PDatetime t | None => PJson JNull end.

(** [item.dict()]: the fields as Python objects. *)
Definition ActionItem_dict (a : ActionItem) : pyvalue :=
  PDict [("task", PJson (JStr (task a)));
         ("assignee", py_opt_str (assignee a));
         ("due_date", py_opt_time (due_date a));
         ("context", py_opt_str (context a));
         ("status", PJson (JStr (status a)));
         ("created_at", PDatetime (ai_created_at a))].

Definition relationship_dict (r : list (string * string)) : pyvalue :=
  PJson (JObj (map (fun kv => (fst kv, JStr (snd kv))) r)).

(** [diagram.dict()]: the fields as Python objects. *)
Definition DiagramMetadata_dict (d : DiagramMetadata) : pyvalue :=
  PDict [("diagram_type", PJson (JStr (diagram_type d)));
         ("content", PJson (JStr (content d)));
         ("relationships", PList (map relationship_dict (relationships d)));
         ("title", py_opt_str (title d));
         ("created_at", PDatetime (created_at d));
         ("last_updated", PDatetime (last_updated d))].

(** ** The outside world *)

(** A WebSocket object, compared by identity. *)
Abbreviation channel := nat.

(** The two instructions given to the completion API. *)
Inductive instruction := DiagramInstr | ActionItemsInstr.

Record world := {
  (** [model.transcribe(audio)["text"]] *)
  transcribe : chunk -> result string;
  (** [chat.completions.create(model, [system; user])], answering
      [response.choices[0].message.content] *)
  chat_create : string -> instruction -> string -> result (option string);
  (** [DiagramMetadata.model_validate_json] *)
  validate_diagram : string -> option DiagramMetadata;
  (** [ActionItem.model_validate_json] *)
  validate_action_item : string -> option ActionItem;
  (** [websocket.accept()] returns *)
  accept_ok : channel -> bool;
  (** [websocket.send_text] / [send_json] delivers the message *)
  send_ok : channel -> json -> bool;
  (** [websocket.close()] returns *)
  close_ok : channel -> bool
}.

(** ** Effects and the monad of methods *)

Inductive effect :=
| ETranscribe (audio : chunk) (answer : result string)
| EComplete (model : string) (instr : instruction) (user : string)
| EAccept (c : channel)
| ESend (c : channel) (message : json) (delivered : bool)
| EClose (c : channel).

Definition trace := list effect.

Inductive outcome (A : Type) :=
| Ret (a : A)
| Raise (e : exn)
| OutOfFuel.
Arguments Ret {A} a.
Arguments Raise {A} e.
Arguments OutOfFuel {A}.

Definition M (S A : Type) : Type := S -> outcome A * S * trace.

Definition ret {S A} (a : A) : M S A := fun s => (Ret a, s, []).

Definition bind {S A B} (m : M S A) (k : A -> M S B) : M S B :=
  fun s =>
    match m s with
    | (Ret a, s1, t1) =>
        let '(r, s2, t2) := k a s1 in (r, s2, t1 ++ t2)
    | (Raise e, s1, t1) => (Raise e, s1, t1)
    | (OutOfFuel, s1, t1) => (OutOfFuel, s1, t1)
    end.

Definition raise {S A} (e : exn) : M S A := fun s => (Raise e, s, []).
Definition out_of_fuel {S A} : M S A := fun s => (OutOfFuel, s, []).
Definition get {S} : M S S := fun s => (Ret s, s, []).
Definition put {S} (s' : S) : M S unit := fun _ => (Ret tt, s', []).
Definition emit {S} (e : effect) : M S unit := fun s => (Ret tt, s, [e]).

(** [try: m  except Exception as e: handler e] *)
Definition try_catch {S A} (m : M S A) (handler : exn -> M S A) : M S A :=
  fun s =>
    match m s with
    | (Raise e, s1, t1) =>
        let '(r, s2, t2) := handler e s1 in (r, s2, t1 ++ t2)
    | other => other
    end.

Declare Scope py_scope.
Delimit Scope py_scope with py.
Notation "x <- m ;; k" := (bind m (fun x => k))
  (at level 61, m at next level, right associativity) : py_scope.
Notation "m ;; k" := (bind m (fun _ => k))
  (at level 61, right associativity) : py_scope.
Local Open Scope py_scope.

(** Lifting a fallible built-in. *)
Definition of_option {S A} (o : option A) (e : exn) : M S A :=
  match o with Some a => ret a | None => raise e end.

Definition of_result {S A} (r : result A) : M S A :=
  match r with Ok a => ret a | Err e => raise e end.

(** [await websocket.send_text(message)] / [send_json(message)] *)
Definition ws_send {S} (w : world) (c : channel) (message : json) : M S unit :=
  let ok := send_ok w c message in
  emit (ESend c message ok) ;;
  if ok then ret tt else raise (Exn RuntimeError "send failed").

(** [await websocket.send_json(data)] on a Python value: the value is
    encoded first, so a value that cannot be encoded raises before
    anything is handed to the socket. *)
Definition ws_send_json {S} (w : world) (c : channel) (data : pyvalue)
  : M S unit :=
  match json_dumps data with
  | Some message => ws_send w c message
  | None => raise not_serializable
  end.

(** [await websocket.accept()] *)
Definition ws_accept {S} (w : world) (c : channel) : M S unit :=
  emit (EAccept c) ;;
  if accept_ok w c then ret tt else raise (Exn RuntimeError "accept failed").

(** [await websocket.close()] *)
Definition ws_close {S} (w : world) (c : channel) : M S unit :=
  emit (EClose c) ;;
  if close_ok w c then ret tt else raise (Exn RuntimeError "close failed").

(** [model.transcribe(audio)["text"]] *)
Definition model_transcribe {S} (w : world) (audio : chunk) : M S string :=
  let answer := transcribe w audio in
  emit (ETranscribe audio answer) ;;
  of_result answer.

(** [chat.completions.create(...)] then [.choices[0].message.content] *)
Definition completion {S} (w : world) (model : string) (i : instruction)
    (user : string) : M S (option string) :=
  emit (EComplete model i user) ;;
  of_result (chat_create w model i user).

(** How far a polling loop got on the stimuli it was given. *)
Inductive loop_status :=
| Running   (* still looping when the stimuli ran out *)
| Stopped.  (* the loop was left *)

(** ** [queue.Queue] *)

Module Queue.

(** The queue's contents, oldest first. *)
Definition t := list chunk.

Definition new : t := [].
Definition empty (q : t) : bool :=
  match q with [] => true | _ => false end.
Definition put (q : t) (c : chunk) : t := q ++ [c].
Definition get (q : t) : option (chunk * t) :=
  match q with
  | [] => None
  | c :: q' => Some (c, q')
  end.

End Queue.

(** ** [transcription_service.py]: class [TranscriptionService] *)

Module TranscriptionService.

Record state := {
  current_transcript : string;
  action_items : list ActionItem;
  diagrams : list DiagramMetadata;
  websocket_clients : list channel;
  audio_buffer : Queue.t;
  is_processing : bool
}.

Definition set_current_transcript (s : state) (v : string) : state :=
  {| current_transcript := v; action_items := action_items s;
     diagrams := diagrams s; websocket_clients := websocket_clients s;
     audio_buffer := audio_buffer s; is_processing := is_processing s |}.

Definition set_action_items (s : state) (v : list ActionItem) : state :=
  {| current_transcript := current_transcript s; action_items := v;
     diagrams := diagrams s; websocket_clients := websocket_clients s;
     audio_buffer := audio_buffer s; is_processing := is_processing s |}.

Definition set_diagrams (s : state) (v : list DiagramMetadata) : state :=
  {| current_transcript := current_transcript s;
     action_items := action_items s;
     diagrams := v; websocket_clients := websocket_clients s;
     audio_buffer := audio_buffer s; is_processing := is_processing s |}.

Definition set_websocket_clients (s : state) (v : list channel) : state :=
  {| current_transcript := current_transcript s;
     action_items := action_items s;
     diagrams := diagrams s; websocket_clients := v;
     audio_buffer := audio_buffer s; is_processing := is_processing s |}.

Definition set_audio_buffer (s : state) (v : Queue.t) : state :=
  {| current_transcript := current_transcript s;
     action_items := action_items s;
     diagrams := diagrams s; websocket_clients := websocket_clients s;
     audio_buffer := v; is_processing := is_processing s |}.

Definition set_is_processing (s : state) (v : bool) : state :=
  {| current_transcript := current_transcript s;
     action_items := action_items s;
     diagrams := diagrams s; websocket_clients := websocket_clients s;
     audio_buffer := audio_buffer s; is_processing := v |}.

(** [__init__], with the background loop started. *)
Definition init : state :=
  {| current_transcript := ""; action_items := []; diagrams := [];
     websocket_clients := []; audio_buffer := Queue.new;
     is_processing := true |}.

(** [get_current_state]: a dict whose lists hold what [.dict()] gives. *)
Definition get_current_state (s : state) : pyvalue :=
  PDict [("transcript", PJson (JStr (current_transcript s)));
         ("diagrams", PList (map DiagramMetadata_dict (diagrams s)));
         ("action_items", PList (map ActionItem_dict (action_items s)))].

(** [register_client] *)
Definition register_client (w : world) (websocket : channel)
  : M state unit :=
  ws_accept w websocket ;;
  s <- get ;;
  put (set_websocket_clients s (websocket_clients s ++ [websocket])) ;;
  s <- get ;;
  ws_send_json w websocket (get_current_state s).

(** [remove_client] *)
Definition remove_client (websocket : channel) : M state unit :=
  s <- get ;;
  clients <- of_option (Py.remove websocket (websocket_clients s))
               (Exn ValueError "list.remove(x): x not in list") ;;
  put (set_websocket_clients s clients).

(** The envelope [{"type": update_type, "data": data}], encoded. *)
Definition envelope (update_type : string) (data : json) : json :=
  JObj [("type", JStr update_type); ("data", data)].

(** The envelope as [broadcast_update] builds it, before encoding. *)
Definition envelope_dict (update_type : string) (data : pyvalue) : pyvalue :=
  PDict [("type", PJson (JStr update_type)); ("data", data)].

(** The [for client in self.websocket_clients] loop of
    [broadcast_update]: Python's list iterator keeps an index [i] into
    the live list and stops when [i] reaches its current length, so a
    removal made by the body shifts the elements under the iterator. *)
Fixpoint broadcast_loop (w : world) (message : json) (fuel i : nat)
  : M state unit :=
  match fuel with
  | O => out_of_fuel
  | S fuel' =>
      s <- get ;;
      match nth_error (websocket_clients s) i with
      | None => ret tt
      | Some client =>
          try_catch (ws_send w client message)
                    (fun _ => remove_client client) ;;
          broadcast_loop w message fuel' (S i)
      end
  end.

(** [broadcast_update]: the envelope is encoded before the loop, outside
    its [try]. *)
Definition broadcast_update (w : world) (update_type : string)
    (data : pyvalue) : M state unit :=
  message <- of_option (json_dumps (envelope_dict update_type data))
               not_serializable ;;
  s <- get ;;
  broadcast_loop w message (S (List.length (websocket_clients s))) 0.

(** [_generate_diagram_spec] *)
Definition _generate_diagram_spec (w : world)
  : M state (option DiagramMetadata) :=
  try_catch
    (s <- get ;;
     diagram_spec <- completion w "gpt-4o" DiagramInstr
                       (current_transcript s) ;;
     match diagram_spec with
     | None => raise (Exn ValidationError "JSON input should be a string")
     | Some text =>
         d <- of_option (validate_diagram w text)
                (Exn ValidationError "invalid DiagramMetadata") ;;
         ret (Some d)
     end)
    (fun _ => ret None).

(** The list comprehension of [_extract_action_items]: the lines that
    are not blank are validated one after the other; [None] stands for
    the exception of the first line that does not validate. *)
Fixpoint validate_lines (w : world) (lines : list string)
  : option (list ActionItem) :=
  match lines with
  | [] => Some []
  | item :: rest =>
      if Py.truthy (Py.strip item) then
        match validate_action_item w item with
        | None => None
        | Some a =>
            match validate_lines w rest with
            | Some items => Some (a :: items)
            | None => None
            end
        end
      else validate_lines w rest
  end.

(** [_extract_action_items] *)
Definition _extract_action_items (w : world) : M state (list ActionItem) :=
  try_catch
    (s <- get ;;
     action_items_raw <- completion w "gpt-4" ActionItemsInstr
                           (current_transcript s) ;;
     match action_items_raw with
     | None => raise (Exn TypeError "NoneType has no attribute split")
     | Some text =>
         of_option (validate_lines w (Py.split Py.newline text))
           (Exn ValidationError "invalid ActionItem")
     end)
    (fun _ => ret []).

(** [_analyze_content]; the two tasks only read the transcript, and are
    run here in the order they are created. *)
Definition _analyze_content (w : world) : M state unit :=
  diagram <- _generate_diagram_spec w ;;
  items <- _extract_action_items w ;;
  match diagram with
  | Some d =>
      s <- get ;;
      put (set_diagrams s (diagrams s ++ [d])) ;;
      broadcast_update w "diagram" (DiagramMetadata_dict d)
  | None => ret tt
  end ;;
  match items with
  | [] => ret tt
  | _ =>
      s <- get ;;
      put (set_action_items s (action_items s ++ items)) ;;
      broadcast_update w "action_items" (PList (map ActionItem_dict items))
  end.

(** [process_audio_chunk] *)
Definition process_audio_chunk (w : world) (audio_chunk : chunk)
  : M state string :=
  transcribed_text <- model_transcribe w audio_chunk ;;
  s <- get ;;
  put (set_current_transcript s
         (current_transcript s ++ transcribed_text)%string) ;;
  broadcast_update w "transcript"
    (PDict [("text", PJson (JStr transcribed_text))]) ;;
  _analyze_content w ;;
  ret transcribed_text.

(** The inner loop of [_process_audio_buffer]:
    [while not q.empty(): chunks.append(q.get())]. *)
Fixpoint drain_loop (q : Queue.t) (chunks : list chunk)
  : list chunk * Queue.t :=
  match q with
  | [] => (chunks, q)
  | c :: q' => drain_loop q' (chunks ++ [c])
  end.

(** Collecting all available chunks, from [chunks = []]. *)
Definition drain_all (q : Queue.t) : list chunk * Queue.t :=
  drain_loop q [].

(** One turn of the [while self.is_processing] loop (the sleep apart). *)
Definition cycle (w : world) : M state unit :=
  s <- get ;;
  if negb (Queue.empty (audio_buffer s)) then
    let '(chunks, q') := drain_all (audio_buffer s) in
    put (set_audio_buffer s q') ;;
    combined_audio <- of_option (np_concatenate chunks)
                        (Exn ValueError "need at least one array") ;;
    process_audio_chunk w combined_audio ;;
    ret tt
  else ret tt.

(** What happens around one turn of the loop: the world of that turn,
    the chunks other threads have put on the queue since the last turn,
    and whether [stop_background_processing] was called. *)
Record tick := {
  tick_world : world;
  tick_arrivals : list chunk;
  tick_stop : bool
}.

Definition arrive (k : tick) : M state unit :=
  s <- get ;;
  put (set_is_processing
         (set_audio_buffer s
            (fold_left Queue.put (tick_arrivals k) (audio_buffer s)))
         (if tick_stop k then false else is_processing s)).

(** [_process_audio_buffer], the body of the background thread: an
    exception raised by a turn leaves the loop. *)
Fixpoint _process_audio_buffer (ticks : list tick) : M state loop_status :=
  match ticks with
  | [] => ret Running
  | k :: rest =>
      arrive k ;;
      s <- get ;;
      if is_processing s then
        cycle (tick_world k) ;;
        _process_audio_buffer rest
      else ret Stopped
  end.

(** [export_diagram]; [None] is Python's [None]. *)
Definition export_diagram (diagram_id : Z) (format : string)
  : M state (option (list byte)) :=
  s <- get ;;
  if (Z.of_nat (List.length (diagrams s)) <=? diagram_id)%Z then
    raise (Exn ValueError "Invalid diagram ID")
  else
    diagram <- of_result (Py.getitem (diagrams s) diagram_id) ;;
    ret None.

(** The calls a session makes on the service. *)
Inductive call :=
| Register (websocket : channel)
| Remove (websocket : channel)
| Broadcast (update_type : string) (data : pyvalue)
| ProcessChunk (audio_chunk : chunk)
| Analyze
| Export (diagram_id : Z) (format : string)
| Put (c : chunk)
| Cycle
| Start
| Stop.

Definition exec (w : world) (c : call) : M state unit :=
  match c with
  | Register websocket => register_client w websocket
  | Remove websocket => remove_client websocket
  | Broadcast update_type data => broadcast_update w update_type data
  | ProcessChunk audio_chunk => process_audio_chunk w audio_chunk ;; ret tt
  | Analyze => _analyze_content w
  | Export diagram_id format => export_diagram diagram_id format ;; ret tt
  | Put c => s <- get ;; put (set_audio_buffer s (Queue.put (audio_buffer s) c))
  | Cycle => cycle w
  | Start => s <- get ;; put (set_is_processing s true)
  | Stop => s <- get ;; put (set_is_processing s false)
  end.

(** A session: calls made one after the other, each in its own world;
    a call that raises does not undo what it did, nor stop the next. *)
Fixpoint run (calls : list (world * call)) (s : state) : state * trace :=
  match calls with
  | [] => (s, [])
  | (w, c) :: rest =>
      let '(_, s1, t1) := exec w c s in
      let '(s2, t2) := run rest s1 in
      (s2, t1 ++ t2)
  end.

End TranscriptionService.

(** ** [main.py]: class [ConnectionManager] and [websocket_endpoint] *)

Module ConnectionManager.

Record state := {
  active_connections : list channel;
  shutdown_event : bool;
  current_transcript : string
}.

Definition set_active_connections (s : state) (v : list channel) : state :=
  {| active_connections := v; shutdown_event := shutdown_event s;
     current_transcript := current_transcript s |}.

Definition set_shutdown_event (s : state) (v : bool) : state :=
  {| active_connections := active_connections s; shutdown_event := v;
     current_transcript := current_transcript s |}.

Definition set_current_transcript (s : state) (v : string) : state :=
  {| active_connections := active_connections s;
     shutdown_event := shutdown_event s; current_transcript := v |}.

(** [__init__] *)
Definition init : state :=
  {| active_connections := []; shutdown_event := false;
     current_transcript := "" |}.

(** [connect] *)
Definition connect (w : world) (websocket : channel) : M state unit :=
  ws_accept w websocket ;;
  s <- get ;;
  put (set_active_connections s (active_connections s ++ [websocket])).

(** [disconnect] *)
Definition disconnect (w : world) (websocket : channel) : M state unit :=
  s <- get ;;
  if Py.contains websocket (active_connections s) then
    conns <- of_option (Py.remove websocket (active_connections s))
               (Exn ValueError "list.remove(x): x not in list") ;;
    put (set_active_connections s conns) ;;
    try_catch (ws_close w websocket) (fun _ => ret tt)
  else ret tt.

(** The first loop of [broadcast]; its body does not touch
    [active_connections], so the iterator walks the list as it was. *)
Fixpoint broadcast_sends (w : world) (message : json)
    (connections disconnected : list channel) : M state (list channel) :=
  match connections with
  | [] => ret disconnected
  | connection :: rest =>
      disconnected' <-
        try_catch (ws_send w connection message ;; ret disconnected)
                  (fun _ => ret (disconnected ++ [connection])) ;;
      broadcast_sends w message rest disconnected'
  end.

(** The second loop of [broadcast]. *)
Fixpoint disconnect_each (w : world) (disconnected : list channel)
  : M state unit :=
  match disconnected with
  | [] => ret tt
  | conn :: rest => disconnect w conn ;; disconnect_each w rest
  end.

(** [broadcast] *)
Definition broadcast (w : world) (message : json) : M state unit :=
  s <- get ;;
  disconnected <- broadcast_sends w message (active_connections s) [] ;;
  disconnect_each w disconnected.

(** [generate_diagram] *)
Definition generate_diagram (w : world) (text : string)
  : M state (option string) :=
  try_catch (completion w "gpt-4" DiagramInstr text) (fun _ => ret None).

(** [extract_action_items]: the raw answer, or [[]] on failure. *)
Definition extract_action_items (w : world) (text : string) : M state json :=
  try_catch (answer <- completion w "gpt-4" ActionItemsInstr text ;;
             ret (json_opt_str answer))
            (fun _ => ret (JList [])).

(** [process_audio] *)
Definition process_audio (w : world) (audio_data : chunk) : M state json :=
  try_catch
    (transcribed_text <- model_transcribe w audio_data ;;
     s <- get ;;
     put (set_current_transcript s
            (current_transcript s ++ transcribed_text)%string) ;;
     s <- get ;;
     diagram <- generate_diagram w (current_transcript s) ;;
     s <- get ;;
     action_items <- extract_action_items w (current_transcript s) ;;
     ret (JObj [("transcript", JStr transcribed_text);
                ("diagram", json_opt_str diagram);
                ("action_items", action_items)]))
    (fun e => ret (JObj [("error", JStr (exn_msg e))])).

Definition envelope (type : string) (data : json) : json :=
  JObj [("type", JStr type); ("data", data)].

(** What one turn of the endpoint's loop meets: the world of that turn,
    whether the shutdown event has been set meanwhile, and what
    [wait_for(websocket.receive_bytes(), timeout=1.0)] gives. *)
Record step := {
  step_world : world;
  step_shutdown : bool;
  step_receive : result (list byte)
}.

Inductive control := Continue | Break.

(** The body of the [while] loop of [websocket_endpoint], with its three
    handlers in order. *)
Definition iteration (websocket : channel) (k : step) : M state control :=
  let w := step_world k in
  try_catch
    (data <- of_result (step_receive k) ;;
     audio_array <- of_option (frombuffer data)
                      (Exn ValueError
                         "buffer size must be a multiple of element size") ;;
     results <- process_audio w audio_array ;;
     broadcast w (envelope "update" results) ;;
     ret Continue)
    (fun e =>
       match exn_kind_of e with
       | TimeoutError => ret Continue
       | WebSocketDisconnect => disconnect w websocket ;; ret Break
       | _ =>
           broadcast w
             (envelope "error" (JObj [("message", JStr (exn_msg e))])) ;;
           ret Continue
       end).

(** [while not manager.shutdown_event.is_set(): ...] *)
Fixpoint receive_loop (websocket : channel) (steps : list step)
  : M state loop_status :=
  match steps with
  | [] => ret Running
  | k :: rest =>
      s <- get ;;
      put (set_shutdown_event s (step_shutdown k || shutdown_event s)) ;;
      s <- get ;;
      if shutdown_event s then ret Stopped
      else
        c <- iteration websocket k ;;
        match c with
        | Continue => receive_loop websocket rest
        | Break => ret Stopped
        end
  end.

(** [websocket_endpoint]: [w0] is the world at connection time and
    [w1] the one in which the [finally] clause runs. *)
Definition websocket_endpoint (w0 w1 : world) (websocket : channel)
    (steps : list step) : M state loop_status :=
  connect w0 websocket ;;
  st <- try_catch (receive_loop websocket steps) (fun _ => ret Stopped) ;;
  match st with
  | Running => ret Running
  | Stopped => disconnect w1 websocket ;; ret Stopped
  end.

End ConnectionManager.

(** ** Reading a trace *)

(** The texts the Transcriber returned, in call order. *)
Fixpoint transcribed_texts (t : trace) : list string :=
  match t with
  | [] => []
  | ETranscribe _ (Ok text) :: t' => text :: transcribed_texts t'
  | _ :: t' => transcribed_texts t'
  end.

(** The buffers the Transcriber was called on. *)
Fixpoint transcriber_calls (t : trace) : list chunk :=
  match t with
  | [] => []
  | ETranscribe audio _ :: t' => audio :: transcriber_calls t'
  | _ :: t' => transcriber_calls t'
  end.

(** Every message handed to a socket, delivered or not. *)
Fixpoint sends (t : trace) : list (channel * json) :=
  match t with
  | [] => []
  | ESend c m _ :: t' => (c, m) :: sends t'
  | _ :: t' => sends t'
  end.

(** The messages delivered to channel [c], in order. *)
Fixpoint received (c : channel) (t : trace) : list json :=
  match t with
  | [] => []
  | ESend c' m true :: t' =>
      if Nat.eqb c' c then m :: received c t' else received c t'
  | _ :: t' => received c t'
  end.

(** Whether some message of type [ty] was handed to a socket. *)
Definition sent_type (ty : string) (t : trace) : bool :=
  existsb (fun cm =>
             match event_type (snd cm) with
             | Some (JStr ty') => String.eqb ty' ty
             | _ => false
             end) (sends t).

Definition concat_texts (texts : list string) : string :=
  fold_right String.append "" texts.


(** ** Concrete worlds, for the examples *)

Module Example.

Definition diagram_of (text : string) : DiagramMetadata :=
  {| diagram_type := "flowchart"; content := text; relationships := [];
     title := None; created_at := 0%Z; last_updated := 0%Z |}.

Definition item_of (line : string) : ActionItem :=
  {| task := line; assignee := None; due_date := None; context := None;
     status := "pending"; ai_created_at := 0%Z |}.

(** A stand-in for the validators: a text is accepted when it opens with
    a brace. *)
Definition opens_with_brace (s : string) : bool :=
  match s with
  | String c _ => Ascii.eqb c "{"
  | EmptyString => false
  end.

(** A world in which the Transcriber answers [heard] to every buffer, the
    completion API answers [diagram_answer] and [items_answer], and the
    sockets listed in [dead] fail every delivery. *)
Definition world_of (heard : result string)
    (diagram_answer items_answer : result (option string))
    (dead : list channel) : world :=
  {| transcribe := fun _ => heard;
     chat_create := fun _ i _ =>
       match i with
       | DiagramInstr => diagram_answer
       | ActionItemsInstr => items_answer
       end;
     validate_diagram := fun text =>
       if opens_with_brace text then Some (diagram_of text) else None;
     validate_action_item := fun line =>
       if opens_with_brace line then Some (item_of line) else None;
     accept_ok := fun _ => true;
     send_ok := fun c _ => negb (Py.contains c dead);
     close_ok := fun _ => true |}.

Definition api_down : result (option string) :=
  Err (Exn RuntimeError "service unavailable").

(** A service with the given subscribers and queue, nothing heard yet. *)
Definition service_with (clients : list channel) (queue : Queue.t)
  : TranscriptionService.state :=
  TranscriptionService.set_audio_buffer
    (TranscriptionService.set_websocket_clients
       TranscriptionService.init clients) queue.

(** A manager with the given connections. *)
Definition manager_with (connections : list channel)
  : ConnectionManager.state :=
  ConnectionManager.set_active_connections ConnectionManager.init connections.

End Example.

(** ** Vocabulary of the statements *)

(** What the diagram derivation yields on a transcript: the validated
    answer of the completion API, or nothing when the call fails or its
    answer is missing or malformed. *)
Definition derived_diagram (w : world) (transcript : string)
  : option DiagramMetadata :=
  match chat_create w "gpt-4o" DiagramInstr transcript with
  | Ok (Some text) => validate_diagram w text
  | _ => None
  end.

(** What the action-item call parses to on a transcript: [None] when the
    call fails or its answer is missing or has a line that does not
    validate. *)
Definition parsed_action_items (w : world) (transcript : string)
  : option (list ActionItem) :=
  match chat_create w "gpt-4" ActionItemsInstr transcript with
  | Ok (Some raw) =>
      TranscriptionService.validate_lines w (Py.split Py.newline raw)
  | _ => None
  end.

(** What the action-item derivation yields on a transcript. *)
Definition derived_action_items (w : world) (transcript : string)
  : list ActionItem :=
  match parsed_action_items w transcript with
  | Some items => items
  | None => []
  end.

(** The lines of a raw answer that are not blank. *)
Definition nonblank_lines (raw : string) : list string :=
  filter (fun item => Py.truthy (Py.strip item)) (Py.split Py.newline raw).

(** The trace of a broadcast pass in which every delivery succeeds. *)
Definition delivered_to (clients : list channel) (message : json) : trace :=
  map (fun c => ESend c message true) clients.

(** The parts of a result. *)
Definition outcome_of {S A} (x : outcome A * S * trace) : outcome A :=
  fst (fst x).
Definition state_of {S A} (x : outcome A * S * trace) : S := snd (fst x).
Definition trace_of {S A} (x : outcome A * S * trace) : trace := snd x.

(** The result [x] of a computation started in [s] has extended the
    transcript by exactly the texts its trace shows were transcribed. *)
Definition grows_by_transcribed {S A} (transcript : S -> string)
    (x : outcome A * S * trace) (s : S) : Prop :=
  transcript (state_of x)
  = (transcript s ++ concat_texts (transcribed_texts (trace_of x)))%string.

(** A trace made of deliveries only. *)
Definition only_sends (t : trace) : Prop :=
  Forall (fun e => exists c m b, e = ESend c m b) t.

(** Two states of the service that differ at most in their clients. *)
Definition same_store (s s' : TranscriptionService.state) : Prop :=
  TranscriptionService.current_transcript s'
  = TranscriptionService.current_transcript s
  /\ TranscriptionService.action_items s' = TranscriptionService.action_items s
  /\ TranscriptionService.diagrams s' = TranscriptionService.diagrams s
  /\ TranscriptionService.audio_buffer s' = TranscriptionService.audio_buffer s
  /\ TranscriptionService.is_processing s'
     = TranscriptionService.is_processing s.

(** The completion calls of a trace, in order: model, instruction and the
    user text handed over. *)
Fixpoint completions (t : trace) : list (string * instruction * string) :=
  match t with
  | [] => []
  | EComplete model i user :: t' => (model, i, user) :: completions t'
  | _ :: t' => completions t'
  end.

(** The sockets on which [close] was called, in order. *)
Fixpoint closes (t : trace) : list channel :=
  match t with
  | [] => []
  | EClose c :: t' => c :: closes t'
  | _ :: t' => closes t'
  end.

(** [l] is an initial segment of [l']. *)
Definition is_prefix {A} (l l' : list A) : Prop := exists rest, l' = l ++ rest.

(** The derived lists of the service have only been appended to. *)
Definition lists_grown (s s' : TranscriptionService.state) : Prop :=
  is_prefix (TranscriptionService.diagrams s)
    (TranscriptionService.diagrams s')
  /\ is_prefix (TranscriptionService.action_items s)
       (TranscriptionService.action_items s').

(** A turn of the endpoint in which nothing arrives before the timeout
    and the shutdown event is not set. *)
Definition is_timeout (k : ConnectionManager.step) : Prop :=
  ConnectionManager.step_shutdown k = false
  /\ exists e, ConnectionManager.step_receive k = Err e
               /\ exn_kind_of e = TimeoutError.

(** A text made of whitespace only (newlines included). *)
Fixpoint all_space (s : string) : bool :=
  match s with
  | EmptyString => true
  | String c s' => Py.isspace c && all_space s'
  end.

(** A turn of the endpoint in which a frame arrives, the shutdown event
    is not set and every delivery succeeds. *)
Definition is_healthy_frame (k : ConnectionManager.step) : Prop :=
  ConnectionManager.step_shutdown k = false
  /\ (exists data, ConnectionManager.step_receive k = Ok data)
  /\ forall c m, send_ok (ConnectionManager.step_world k) c m = true.

(** An event of the endpoint: an [update] or an [error] envelope. *)
Definition is_endpoint_event (m : json) : Prop :=
  event_type m = Some (JStr "update") \/ event_type m = Some (JStr "error").

(** A world in which the derivations yield nothing, whatever the
    transcript: no diagram validates and no action item is parsed. *)
Definition derives_nothing (w : world) : Prop :=
  forall transcript,
    derived_diagram w transcript = None
    /\ derived_action_items w transcript = [].

(** A turn of the background loop in which no stop is requested, the
    Transcriber answers whatever it is given and the derivations yield
    nothing. *)
Definition is_quiet_tick (k : TranscriptionService.tick) : Prop :=
  TranscriptionService.tick_stop k = false
  /\ (forall audio, exists text,
        transcribe (TranscriptionService.tick_world k) audio = Ok text)
  /\ derives_nothing (TranscriptionService.tick_world k).

(** * Properties *)

(** ** Lists and strings *)

Lemma contains_In (x : nat) (xs : list nat) :
  Py.contains x xs = true <-> In x xs.
Proof.
  induction xs as [|y ys IH]; simpl.
  - split; [discriminate | tauto].
  - destruct (Nat.eqb_spec y x) as [->|Hne].
    + split; auto.
    + rewrite IH. split; [auto | intros [H|H]; [congruence | exact H]].
Qed.

Lemma remove_None (x : nat) (xs : list nat) :
  Py.remove x xs = None <-> ~ In x xs.
Proof.
  induction xs as [|y ys IH]; simpl.
  - split; auto.
  - destruct (Nat.eqb_spec y x) as [->|Hne].
    + split; [discriminate | intros H; exfalso; auto].
    + destruct (Py.remove x ys) as [ys'|].
      * split; [discriminate|].
        intros H. exfalso. destruct IH as [_ IH].
        assert (Hn : ~ In x ys) by (intros Hin; apply H; auto).
        specialize (IH Hn). discriminate.
      * split; [|reflexivity].
        intros _ [H|H]; [congruence|]. destruct IH as [IH _]. now apply IH.
Qed.

Lemma remove_length (x : nat) (xs ys : list nat) :
  Py.remove x xs = Some ys -> List.length xs = S (List.length ys).
Proof.
  revert ys. induction xs as [|y xs IH]; simpl; intros ys H.
  - discriminate.
  - destruct (Nat.eqb y x).
    + now inversion H.
    + destruct (Py.remove x xs) as [xs'|]; [|discriminate].
      inversion H; subst. simpl. now rewrite (IH xs' eq_refl).
Qed.

Lemma remove_of_member (x : nat) (xs : list nat) :
  In x xs -> exists ys, Py.remove x xs = Some ys.
Proof.
  intros Hin. destruct (Py.remove x xs) as [ys|] eqn:E.
  - now exists ys.
  - apply remove_None in E. contradiction.
Qed.

Lemma remove_incl (x : nat) (xs ys : list nat) :
  Py.remove x xs = Some ys -> incl ys xs.
Proof.
  revert ys. induction xs as [|y xs IH]; simpl; intros ys H.
  - discriminate.
  - destruct (Nat.eqb y x).
    + inversion H; subst. now apply incl_tl, incl_refl.
    + destruct (Py.remove x xs) as [xs'|]; [|discriminate].
      inversion H; subst. intros z [Hz|Hz]; [now left|].
      right. now apply (IH xs' eq_refl).
Qed.

(** Removing an element that occurs once, between [pre] and [post]. *)
Lemma remove_middle (x : nat) (pre post : list nat) :
  ~ In x pre -> Py.remove x (pre ++ x :: post) = Some (pre ++ post).
Proof.
  induction pre as [|y pre IH]; simpl; intros Hn.
  - now rewrite Nat.eqb_refl.
  - destruct (Nat.eqb_spec y x) as [->|Hne].
    + exfalso. auto.
    + rewrite IH; auto.
Qed.

Lemma string_app_assoc (a b c : string) :
  ((a ++ b) ++ c)%string = (a ++ (b ++ c))%string.
Proof.
  induction a as [|x a IH]; simpl; [reflexivity | now rewrite IH].
Qed.

Lemma concat_texts_app (a b : list string) :
  concat_texts (a ++ b) = (concat_texts a ++ concat_texts b)%string.
Proof.
  induction a as [|x a IH]; simpl.
  - reflexivity.
  - rewrite IH. now rewrite string_app_assoc.
Qed.

Lemma append_empty_r (s : string) : (s ++ "")%string = s.
Proof.
  induction s as [|c s IH]; simpl; [reflexivity | now rewrite IH].
Qed.

Lemma transcribed_texts_app (t1 t2 : trace) :
  transcribed_texts (t1 ++ t2) = transcribed_texts t1 ++ transcribed_texts t2.
Proof.
  induction t1 as [|e t1 IH]; simpl; [reflexivity|].
  destruct e as [a [text|err]| | | |]; simpl; now rewrite ?IH.
Qed.

Lemma transcriber_calls_app (t1 t2 : trace) :
  transcriber_calls (t1 ++ t2) = transcriber_calls t1 ++ transcriber_calls t2.
Proof.
  induction t1 as [|e t1 IH]; simpl; [reflexivity|].
  destruct e; simpl; now rewrite ?IH.
Qed.

Lemma sends_app (t1 t2 : trace) : sends (t1 ++ t2) = sends t1 ++ sends t2.
Proof.
  induction t1 as [|e t1 IH]; simpl; [reflexivity|].
  destruct e; simpl; now rewrite ?IH.
Qed.

Lemma received_app (c : channel) (t1 t2 : trace) :
  received c (t1 ++ t2) = received c t1 ++ received c t2.
Proof.
  induction t1 as [|e t1 IH]; simpl; [reflexivity|].
  destruct e as [| | |c' m [|]|]; simpl; rewrite ?IH; try reflexivity.
  now destruct (Nat.eqb c' c).
Qed.

(** ** The Audio Intake Queue *)

Lemma put_all (cs : list chunk) (q : Queue.t) :
  fold_left Queue.put cs q = q ++ cs.
Proof.
  revert q. induction cs as [|c cs IH]; intros q; simpl.
  - now rewrite app_nil_r.
  - rewrite IH. unfold Queue.put. now rewrite <- app_assoc.
Qed.

Lemma drain_loop_spec (q : Queue.t) (chunks : list chunk) :
  TranscriptionService.drain_loop q chunks = (chunks ++ q, Queue.new).
Proof.
  revert chunks. induction q as [|c q IH]; intros chunks; simpl.
  - now rewrite app_nil_r.
  - rewrite IH. now rewrite <- app_assoc.
Qed.

(** Whatever was put on the queue before a drain comes out of the drain,
    oldest first, and the queue is empty afterwards. *)
Lemma drain_all_spec :
  forall (q0 : Queue.t) (cs : list chunk),
    let q := fold_left Queue.put cs q0 in
    TranscriptionService.drain_all q = (q0 ++ cs, Queue.new)
    /\ fst (TranscriptionService.drain_all (fold_left Queue.put cs Queue.new))
       = cs
    /\ Queue.empty (snd (TranscriptionService.drain_all q)) = true
    /\ TranscriptionService.drain_all Queue.new = ([], Queue.new).
Proof.
  intros q0 cs q. unfold TranscriptionService.drain_all.
  rewrite !drain_loop_spec. subst q. rewrite !put_all.
  repeat split.
Qed.

(** ** Running monadic code *)

Ltac run_monad :=
  unfold try_catch, bind, get, put, emit, raise, ret, out_of_fuel,
    of_option, of_result, ws_send, ws_accept, ws_close, model_transcribe,
    completion in *;
  cbn [fst snd app] in *.

Lemma bind_ret_l {S A B} (a : A) (k : A -> M S B) (s : S) :
  bind (ret a) k s = k a s.
Proof. unfold bind, ret. now destruct (k a s) as [[r s'] t]. Qed.

Lemma bind_eq {S A B} {m : M S A} (k : A -> M S B) {s s1 : S} {a : A}
    {t1 : trace} :
  m s = (Ret a, s1, t1) ->
  bind m k s = (outcome_of (k a s1), state_of (k a s1), t1 ++ trace_of (k a s1)).
Proof.
  intros H. unfold bind. rewrite H. now destruct (k a s1) as [[r s2] t2].
Qed.

(** An exception ends the sequence where it was raised. *)
Lemma bind_raise {S A B} {m : M S A} (k : A -> M S B) {s s1 : S} {e : exn}
    {t1 : trace} :
  m s = (Raise e, s1, t1) -> bind m k s = (Raise e, s1, t1).
Proof. intros H. unfold bind. now rewrite H. Qed.

Lemma bind_get {S B} (k : S -> M S B) (s : S) : bind get k s = k s s.
Proof. unfold bind, get. now destruct (k s s) as [[r s'] t]. Qed.

Lemma bind_put {S B} (s' : S) (k : unit -> M S B) (s : S) :
  bind (put s') k s = k tt s'.
Proof. unfold bind, put. now destruct (k tt s') as [[r s2] t]. Qed.

Lemma try_catch_ret {S A} (m : M S A) (h : exn -> M S A) (s s1 : S) (a : A)
    (t : trace) :
  m s = (Ret a, s1, t) -> try_catch m h s = (Ret a, s1, t).
Proof. intros H. unfold try_catch. now rewrite H. Qed.

(** [s0 = self; self.field = f(s0); m] *)
Lemma update_then {S A} (f : S -> S) (m : M S A) (s : S) :
  (s0 <- get ;; put (f s0) ;; m)%py s = m (f s).
Proof.
  unfold bind, get, put. cbn. now destruct (m (f s)) as [[r s'] t].
Qed.

Lemma skipn_nth_error {A} (l : list A) (i : nat) (x : A) :
  nth_error l i = Some x -> skipn i l = x :: skipn (S i) l.
Proof.
  revert i. induction l as [|y l IH]; intros [|i] H; simpl in *;
    try discriminate.
  - now inversion H.
  - now apply IH.
Qed.

Lemma skipn_past {A} (l : list A) (i : nat) :
  nth_error l i = None -> skipn i l = [].
Proof.
  intros H. apply nth_error_None in H. now apply skipn_all2.
Qed.

(** ** A transcript that grows by what the Transcriber returned *)

Section Growth.
Context {S : Type}.
Variable transcript : S -> string.

Local Abbreviation grows := (grows_by_transcribed transcript).

Lemma grows_quiet {A} (r : outcome A) (s : S) : grows (r, s, []) s.
Proof. unfold grows_by_transcribed. cbn. now rewrite append_empty_r. Qed.

Lemma grows_bind {A B} (m : M S A) (k : A -> M S B) (s : S) :
  grows (m s) s ->
  (forall a s1 t1, m s = (Ret a, s1, t1) -> grows (k a s1) s1) ->
  grows (bind m k s) s.
Proof.
  unfold grows_by_transcribed, bind. intros Hm Hk.
  destruct (m s) as [[[a|e|] s1] t1]; cbn in *; auto.
  specialize (Hk a s1 t1 eq_refl).
  destruct (k a s1) as [[r s2] t2]; cbn in *.
  rewrite Hk, Hm, transcribed_texts_app, concat_texts_app.
  now rewrite string_app_assoc.
Qed.

Lemma grows_try_catch {A} (m : M S A) (h : exn -> M S A) (s : S) :
  grows (m s) s ->
  (forall e s1 t1, m s = (Raise e, s1, t1) -> grows (h e s1) s1) ->
  grows (try_catch m h s) s.
Proof.
  unfold grows_by_transcribed, try_catch. intros Hm Hh.
  destruct (m s) as [[[a|e|] s1] t1]; cbn in *; auto.
  specialize (Hh e s1 t1 eq_refl).
  destruct (h e s1) as [[r s2] t2]; cbn in *.
  rewrite Hh, Hm, transcribed_texts_app, concat_texts_app.
  now rewrite string_app_assoc.
Qed.

Lemma grows_frame {A} (r : outcome A) (s s' : S) (t : trace) :
  transcript s' = transcript s -> transcribed_texts t = [] ->
  grows (r, s', t) s.
Proof.
  unfold grows_by_transcribed. cbn. intros -> ->. cbn.
  now rewrite append_empty_r.
Qed.

End Growth.

(** ** The service: shape of each method *)

Module ServiceFacts.
Import TranscriptionService.

Lemma set_clients_same (s : state) :
  set_websocket_clients s (websocket_clients s) = s.
Proof. now destruct s. Qed.

(** The body of the broadcast loop: a delivery, or the removal of the
    client it failed for. *)
Lemma send_or_remove (w : world) (message : json) (client : channel)
    (s : state) :
  In client (websocket_clients s) ->
  exists clients',
    try_catch (ws_send w client message) (fun _ => remove_client client) s
    = (Ret tt, set_websocket_clients s clients',
       [ESend client message (send_ok w client message)])
    /\ (if send_ok w client message
        then clients' = websocket_clients s
        else Py.remove client (websocket_clients s) = Some clients').
Proof.
  intros Hin. unfold remove_client. run_monad.
  destruct (send_ok w client message) eqn:Hok; cbn.
  - exists (websocket_clients s). now rewrite set_clients_same.
  - destruct (remove_of_member _ _ Hin) as [ys Hys].
    exists ys. rewrite Hys. cbn. auto.
Qed.

(** Enough fuel: the loop ends by exhausting the iterator, it changes
    nothing but the client list, which can only shrink, and it hands
    nothing but [message] to the sockets. *)
Lemma broadcast_loop_shape (w : world) (message : json) (fuel : nat) :
  forall (i : nat) (s : state),
    List.length (websocket_clients s) - i < fuel ->
    exists clients' t,
      broadcast_loop w message fuel i s
      = (Ret tt, set_websocket_clients s clients', t)
      /\ incl clients' (websocket_clients s)
      /\ List.length clients' <= List.length (websocket_clients s)
      /\ Forall (fun e => exists c b, e = ESend c message b) t.
Proof.
  induction fuel as [|fuel IH]; intros i s Hfuel; [lia|].
  cbn [broadcast_loop]. unfold bind at 1, get at 1.
  destruct (nth_error (websocket_clients s) i) as [client|] eqn:Hnth.
  - assert (Hin : In client (websocket_clients s))
      by (eapply nth_error_In; eauto).
    assert (Hlt : i < List.length (websocket_clients s))
      by (apply nth_error_Some; congruence).
    destruct (send_or_remove w message client s Hin) as (cl1 & Hbody & Hcl1).
    rewrite (bind_eq _ Hbody).
    assert (Hincl1 : incl cl1 (websocket_clients s)).
    { destruct (send_ok w client message); [subst; apply incl_refl|].
      eapply remove_incl; eauto. }
    assert (Hlen1 : List.length cl1 <= List.length (websocket_clients s)).
    { destruct (send_ok w client message); [subst; lia|].
      apply remove_length in Hcl1. lia. }
    destruct (IH (S i) (set_websocket_clients s cl1)) as (cl2 & t2 & E & Hi & Hl & Ht).
    { cbn. lia. }
    rewrite E. cbn in *. exists cl2, (ESend client message (send_ok w client message) :: t2).
    repeat split.
    + intros x Hx. auto.
    + lia.
    + constructor; eauto.
  - exists (websocket_clients s), []. cbn. rewrite set_clients_same.
    repeat split; auto using incl_refl.
Qed.

(** ** What the JSON encoder accepts *)

Lemma dumps_envelope (update_type : string) (data : pyvalue) :
  json_dumps (envelope_dict update_type data)
  = option_map (envelope update_type) (json_dumps data).
Proof.
  unfold envelope_dict, envelope. cbn.
  destruct (json_dumps data); reflexivity.
Qed.

(** A dict is refused as soon as one of its values is, wherever the
    field stands. *)
Lemma dumps_dict_refused (pre post : list (string * pyvalue))
    (k : string) (x : pyvalue) :
  json_dumps x = None ->
  json_dumps (PDict (pre ++ (k, x) :: post)) = None.
Proof.
  intros H. cbn.
  induction pre as [|[k0 x0] pre IH]; cbn; [now rewrite H|].
  destruct (json_dumps x0); [|reflexivity].
  match type of IH with
  | option_map _ ?l = None => destruct l; [discriminate|reflexivity]
  end.
Qed.

Lemma dumps_dict_with_datetime (pre post : list (string * pyvalue))
    (k : string) (t : datetime) :
  json_dumps (PDict (pre ++ (k, PDatetime t) :: post)) = None.
Proof. now apply dumps_dict_refused. Qed.

(** What [.dict()] gives holds [created_at], a [datetime]. *)
Lemma dumps_diagram (d : DiagramMetadata) :
  json_dumps (DiagramMetadata_dict d) = None.
Proof.
  unfold DiagramMetadata_dict.
  exact (dumps_dict_with_datetime
           [("diagram_type", PJson (JStr (diagram_type d)));
            ("content", PJson (JStr (content d)));
            ("relationships", PList (map relationship_dict (relationships d)));
            ("title", py_opt_str (title d))]
           [("last_updated", PDatetime (last_updated d))]
           "created_at" (created_at d)).
Qed.

Lemma dumps_action_item (a : ActionItem) :
  json_dumps (ActionItem_dict a) = None.
Proof.
  unfold ActionItem_dict.
  exact (dumps_dict_with_datetime
           [("task", PJson (JStr (task a)));
            ("assignee", py_opt_str (assignee a));
            ("due_date", py_opt_time (due_date a));
            ("context", py_opt_str (context a));
            ("status", PJson (JStr (status a)))]
           [] "created_at" (ai_created_at a)).
Qed.

(** A list is refused as soon as its first element is. *)
Lemma dumps_list_refused (x : pyvalue) (rest : list pyvalue) :
  json_dumps x = None -> json_dumps (PList (x :: rest)) = None.
Proof. intros H. cbn. now rewrite H. Qed.

Lemma dumps_diagrams (d : DiagramMetadata) (rest : list DiagramMetadata) :
  json_dumps (PList (map DiagramMetadata_dict (d :: rest))) = None.
Proof. apply dumps_list_refused, dumps_diagram. Qed.

Lemma dumps_action_items (a : ActionItem) (rest : list ActionItem) :
  json_dumps (PList (map ActionItem_dict (a :: rest))) = None.
Proof. apply dumps_list_refused, dumps_action_item. Qed.

(** The snapshot can be encoded exactly while nothing has been derived. *)
Lemma dumps_current_state (s : state) :
  json_dumps (get_current_state s)
  = match diagrams s, action_items s with
    | [], [] =>
        Some (JObj [("transcript", JStr (current_transcript s));
                    ("diagrams", JList []); ("action_items", JList [])])
    | _, _ => None
    end.
Proof.
  unfold get_current_state.
  destruct (diagrams s) as [|d ds].
  - destruct (action_items s) as [|a items]; [reflexivity|].
    exact (dumps_dict_refused
             [("transcript", PJson (JStr (current_transcript s)));
              ("diagrams", PList [])]
             [] "action_items" _ (dumps_action_items a items)).
  - exact (dumps_dict_refused
             [("transcript", PJson (JStr (current_transcript s)))]
             [("action_items", PList (map ActionItem_dict (action_items s)))]
             "diagrams" _ (dumps_diagrams d ds)).
Qed.

(** An event that cannot be encoded: [json.dumps] raises before the
    loop, so nothing is sent and nothing changes. *)
Lemma broadcast_update_unencodable (w : world) (update_type : string)
    (data : pyvalue) (s : state) :
  json_dumps data = None ->
  broadcast_update w update_type data s = (Raise not_serializable, s, []).
Proof.
  intros H. unfold broadcast_update. rewrite dumps_envelope, H. reflexivity.
Qed.

Lemma broadcast_update_encoded (w : world) (update_type : string)
    (data : pyvalue) (j : json) (s : state) :
  json_dumps data = Some j ->
  broadcast_update w update_type data s
  = broadcast_loop w (envelope update_type j)
      (S (List.length (websocket_clients s))) 0 s.
Proof.
  intros H. unfold broadcast_update. rewrite dumps_envelope, H.
  cbn [option_map of_option]. rewrite bind_ret_l.
  unfold bind at 1, get at 1.
  destruct (broadcast_loop _ _ _ _ s) as [[r s1] t1]. reflexivity.
Qed.

Lemma broadcast_update_shape (w : world) (update_type : string)
    (data : pyvalue) (j : json) (s : state) :
  json_dumps data = Some j ->
  exists clients' t,
    broadcast_update w update_type data s
    = (Ret tt, set_websocket_clients s clients', t)
    /\ incl clients' (websocket_clients s)
    /\ Forall (fun e => exists c b,
                   e = ESend c (envelope update_type j) b) t.
Proof.
  intros H. rewrite (broadcast_update_encoded _ _ _ _ _ H).
  destruct (broadcast_loop_shape w (envelope update_type j)
              (S (List.length (websocket_clients s))) 0 s)
    as (cl & t & E & Hi & _ & Ht); [lia|].
  rewrite E. now exists cl, t.
Qed.

(** When every delivery succeeds the pass reaches each client once, in
    list order, and changes nothing. *)
Lemma broadcast_loop_all_delivered (w : world) (message : json) (fuel : nat) :
  forall (i : nat) (s : state),
    List.length (websocket_clients s) - i < fuel ->
    (forall c, In c (websocket_clients s) -> send_ok w c message = true) ->
    broadcast_loop w message fuel i s
    = (Ret tt, s, delivered_to (skipn i (websocket_clients s)) message).
Proof.
  induction fuel as [|fuel IH]; intros i s Hfuel Hok; [lia|].
  cbn [broadcast_loop]. unfold bind at 1, get at 1.
  destruct (nth_error (websocket_clients s) i) as [client|] eqn:Hnth.
  - assert (Hin : In client (websocket_clients s))
      by (eapply nth_error_In; eauto).
    assert (Hlt : i < List.length (websocket_clients s))
      by (apply nth_error_Some; congruence).
    destruct (send_or_remove w message client s Hin) as (cl1 & Hbody & Hcl1).
    rewrite (Hok _ Hin) in *. subst cl1. rewrite set_clients_same in Hbody.
    rewrite (bind_eq _ Hbody).
    rewrite (IH (S i) s) by (auto; lia).
    rewrite (skipn_nth_error _ _ _ Hnth). reflexivity.
  - rewrite (skipn_past _ _ Hnth). reflexivity.
Qed.

Lemma broadcast_update_all_delivered (w : world) (update_type : string)
    (data : pyvalue) (j : json) (s : state) :
  json_dumps data = Some j ->
  (forall c, In c (websocket_clients s) ->
             send_ok w c (envelope update_type j) = true) ->
  broadcast_update w update_type data s
  = (Ret tt, s,
     delivered_to (websocket_clients s) (envelope update_type j)).
Proof.
  intros H Hok. rewrite (broadcast_update_encoded _ _ _ _ _ H).
  rewrite broadcast_loop_all_delivered by (auto; lia). reflexivity.
Qed.

Lemma generate_diagram_spec_eq (w : world) (s : state) :
  _generate_diagram_spec w s
  = (Ret (derived_diagram w (current_transcript s)), s,
     [EComplete "gpt-4o" DiagramInstr (current_transcript s)]).
Proof.
  unfold _generate_diagram_spec, derived_diagram. run_monad.
  destruct (chat_create w "gpt-4o" DiagramInstr (current_transcript s))
    as [[text|]|e]; cbn; try reflexivity.
  destruct (validate_diagram w text); reflexivity.
Qed.

Lemma extract_action_items_eq (w : world) (s : state) :
  _extract_action_items w s
  = (Ret (derived_action_items w (current_transcript s)), s,
     [EComplete "gpt-4" ActionItemsInstr (current_transcript s)]).
Proof.
  unfold _extract_action_items, derived_action_items, parsed_action_items.
  run_monad.
  destruct (chat_create w "gpt-4" ActionItemsInstr (current_transcript s))
    as [[raw|]|e]; cbn; try reflexivity.
  unfold Py.newline.
  destruct (validate_lines w _); reflexivity.
Qed.

Lemma only_sends_quiet (t : trace) :
  only_sends t -> transcribed_texts t = [] /\ transcriber_calls t = [].
Proof.
  induction 1 as [|e t (c & m & b & ->) _ [IH1 IH2]]; simpl; auto.
Qed.

Lemma only_sends_app (t1 t2 : trace) :
  only_sends t1 -> only_sends t2 -> only_sends (t1 ++ t2).
Proof. unfold only_sends. intros. apply Forall_app. auto. Qed.

Lemma same_store_refl (s : state) : same_store s s.
Proof. repeat split. Qed.

Lemma same_store_trans (s1 s2 s3 : state) :
  same_store s1 s2 -> same_store s2 s3 -> same_store s1 s3.
Proof.
  unfold same_store. intros (a & b & c & d & e) (a' & b' & c' & d' & e').
  repeat split; congruence.
Qed.

(** A broadcast pass returns, touches nothing but the client list, adds
    no client, and hands only its own event to the sockets. *)
Lemma broadcast_update_frame (w : world) (update_type : string)
    (data : pyvalue) (j : json) (s : state) :
  json_dumps data = Some j ->
  exists s' t,
    broadcast_update w update_type data s = (Ret tt, s', t)
    /\ same_store s s'
    /\ incl (websocket_clients s') (websocket_clients s)
    /\ Forall (fun e => exists c b,
                   e = ESend c (envelope update_type j) b) t.
Proof.
  intros H.
  destruct (broadcast_update_shape w update_type data j s H)
    as (cl & t & E & Hi & Ht).
  exists (set_websocket_clients s cl), t. repeat split; auto.
Qed.

Lemma own_sends_only (message : json) (t : trace) :
  Forall (fun e => exists c b, e = ESend c message b) t -> only_sends t.
Proof.
  unfold only_sends. apply Forall_impl. intros e (c & b & ->). eauto.
Qed.

(** [_analyze_content]: what [.dict()] gives cannot be encoded, so the
    first derivation that yields something is stored and then ends the
    call in [json.dumps], before anything is sent. *)
Lemma analyze_content_eq (w : world) (s : state) :
  _analyze_content w s
  = let asked :=
      [EComplete "gpt-4o" DiagramInstr (current_transcript s);
       EComplete "gpt-4" ActionItemsInstr (current_transcript s)] in
    match derived_diagram w (current_transcript s) with
    | Some d =>
        (Raise not_serializable, set_diagrams s (diagrams s ++ [d]), asked)
    | None =>
        match derived_action_items w (current_transcript s) with
        | [] => (Ret tt, s, asked)
        | items =>
            (Raise not_serializable,
             set_action_items s (action_items s ++ items), asked)
        end
    end.
Proof.
  unfold _analyze_content.
  rewrite (bind_eq _ (generate_diagram_spec_eq w s)).
  rewrite (bind_eq _ (extract_action_items_eq w s)).
  cbn zeta.
  set (items := derived_action_items w (current_transcript s)).
  destruct (derived_diagram w (current_transcript s)) as [d|].
  - pose proof (broadcast_update_unencodable w "diagram"
                  (DiagramMetadata_dict d)
                  (set_diagrams s (diagrams s ++ [d]))
                  (dumps_diagram d)) as E1.
    rewrite <- (update_then (fun s0 => set_diagrams s0 (diagrams s0 ++ [d])))
      in E1.
    rewrite (bind_raise _ E1). reflexivity.
  - rewrite bind_ret_l.
    destruct items as [|a items'].
    + reflexivity.
    + rewrite update_then.
      rewrite (broadcast_update_unencodable w "action_items" _ _
                 (dumps_action_items a items')).
      reflexivity.
Qed.

(** [_analyze_content] asks both derivations, sends nothing, keeps the
    transcript, the queue and the clients, and only appends to the
    derived lists; it returns exactly when nothing was derived. *)
Lemma analyze_content_frame (w : world) (s : state) :
  exists r s',
    _analyze_content w s
    = (r, s',
       [EComplete "gpt-4o" DiagramInstr (current_transcript s);
        EComplete "gpt-4" ActionItemsInstr (current_transcript s)])
    /\ (r = Ret tt \/ r = Raise not_serializable)
    /\ current_transcript s' = current_transcript s
    /\ audio_buffer s' = audio_buffer s
    /\ is_processing s' = is_processing s
    /\ websocket_clients s' = websocket_clients s
    /\ is_prefix (diagrams s) (diagrams s')
    /\ is_prefix (action_items s) (action_items s').
Proof.
  rewrite analyze_content_eq. cbn zeta.
  destruct (derived_diagram w (current_transcript s)) as [d|].
  - eexists _, _. split; [reflexivity|]. cbn.
    repeat split; auto; [now exists [d] | now exists []; rewrite app_nil_r].
  - destruct (derived_action_items w (current_transcript s)) as [|a items].
    + eexists _, _. split; [reflexivity|].
      repeat split; auto; exists []; now rewrite app_nil_r.
    + eexists _, _. split; [reflexivity|]. cbn.
      repeat split; auto;
        [now exists []; rewrite app_nil_r | now exists (a :: items)].
Qed.

(** [process_audio_chunk] when the Transcriber fails: the exception
    escapes and nothing else has happened. *)
Lemma process_audio_chunk_failed (w : world) (audio : chunk) (s : state)
    (e : exn) :
  transcribe w audio = Err e ->
  process_audio_chunk w audio s = (Raise e, s, [ETranscribe audio (Err e)]).
Proof.
  intros H. unfold process_audio_chunk. run_monad. rewrite H. reflexivity.
Qed.

(** The [transcript] event is a dict of strings: it is always encoded. *)
Lemma dumps_transcript_event (text : string) :
  json_dumps (PDict [("text", PJson (JStr text))])
  = Some (JObj [("text", JStr text)]).
Proof. reflexivity. Qed.

(** [process_audio_chunk] when the Transcriber answers: the transcript
    grows by the text, the [transcript] event is sent, and the call
    returns the text unless a derivation yields something. *)
Lemma process_audio_chunk_heard (w : world) (audio : chunk) (s : state)
    (text : string) :
  transcribe w audio = Ok text ->
  exists r s' t,
    process_audio_chunk w audio s
    = (r, s', ETranscribe audio (Ok text) :: t)
    /\ (r = Ret text \/ r = Raise not_serializable)
    /\ current_transcript s' = (current_transcript s ++ text)%string
    /\ transcribed_texts t = [] /\ transcriber_calls t = []
    /\ audio_buffer s' = audio_buffer s
    /\ is_processing s' = is_processing s
    /\ incl (websocket_clients s') (websocket_clients s)
    /\ (r = Ret text
        <-> derived_diagram w (current_transcript s ++ text)%string = None
            /\ derived_action_items w (current_transcript s ++ text)%string
               = []).
Proof.
  intros H. unfold process_audio_chunk.
  assert (E0 : model_transcribe (S := state) w audio s
               = (Ret text, s, [ETranscribe audio (Ok text)])).
  { run_monad. now rewrite H. }
  rewrite (bind_eq _ E0). rewrite update_then.
  destruct (broadcast_update_frame w "transcript" _ _
              (set_current_transcript s (current_transcript s ++ text)%string)
              (dumps_transcript_event text))
    as (s1 & t1 & E1 & (a & b & c & d & e) & Hi & Ht).
  rewrite (bind_eq _ E1).
  destruct (analyze_content_frame w s1)
    as (r2 & s2 & E2 & Hr & Htr & Hq & Hp & Hc & _).
  assert (Hiff : r2 = Ret tt
                 <-> derived_diagram w (current_transcript s ++ text)%string
                     = None
                     /\ derived_action_items w
                          (current_transcript s ++ text)%string = []).
  { pose proof (analyze_content_eq w s1) as E3. cbv zeta in E3.
    rewrite E2 in E3. cbn in a. rewrite a in E3.
    destruct (derived_diagram w (current_transcript s ++ text)%string).
    - injection E3 as -> _. split; [discriminate | intros [? _]; discriminate].
    - destruct (derived_action_items w (current_transcript s ++ text)%string).
      + injection E3 as -> _. split; auto.
      + injection E3 as -> _.
        split; [discriminate | intros [_ ?]; discriminate]. }
  apply own_sends_only in Ht.
  destruct (only_sends_quiet _ Ht) as [q1 q2].
  destruct Hr as [-> | ->].
  - rewrite (bind_eq _ E2). cbn [outcome_of state_of trace_of fst snd ret app].
    eexists _, _, _. split; [reflexivity|]. cbn in *.
    rewrite !transcribed_texts_app, !transcriber_calls_app.
    cbn. rewrite q1, q2.
    split; [now left|]. split; [congruence|]. split; [reflexivity|].
    split; [reflexivity|]. split; [congruence|]. split; [congruence|].
    split; [intros x Hx; rewrite Hc in Hx; auto|].
    split; [intros _; now apply Hiff | reflexivity].
  - rewrite (bind_raise _ E2). cbn [outcome_of state_of trace_of fst snd app].
    eexists _, _, _. split; [reflexivity|]. cbn in *.
    rewrite !transcribed_texts_app, !transcriber_calls_app.
    cbn. rewrite q1, q2.
    split; [now right|]. split; [congruence|]. split; [reflexivity|].
    split; [reflexivity|]. split; [congruence|]. split; [congruence|].
    split; [intros x Hx; rewrite Hc in Hx; auto|].
    split; [discriminate|]. intros Hn. apply Hiff in Hn. discriminate.
Qed.

(** A turn of the loop with nothing queued does nothing. *)
Lemma cycle_idle (w : world) (s : state) :
  Queue.empty (audio_buffer s) = true -> cycle w s = (Ret tt, s, []).
Proof.
  intros H. unfold cycle. unfold bind, get. rewrite H. reflexivity.
Qed.

(** A turn of the loop with chunks queued empties the queue and hands
    their concatenation, whatever its size, to [process_audio_chunk]. *)
Lemma cycle_busy (w : world) (s : state) :
  Queue.empty (audio_buffer s) = false ->
  cycle w s
  = let x := process_audio_chunk w (List.concat (audio_buffer s))
               (set_audio_buffer s Queue.new) in
    (match outcome_of x with
     | Ret _ => Ret tt
     | Raise e => Raise e
     | OutOfFuel => OutOfFuel
     end, state_of x, trace_of x).
Proof.
  intros H. unfold cycle. unfold bind at 1, get at 1. rewrite H. cbn [negb].
  unfold drain_all. rewrite drain_loop_spec. cbn [app].
  destruct (audio_buffer s) as [|c q] eqn:Hq; [discriminate|].
  unfold np_concatenate, of_option.
  change (put (set_audio_buffer s Queue.new);;
          combined_audio <- ret (List.concat (c :: q));;
          process_audio_chunk w combined_audio;; ret tt)%py
    with (put (set_audio_buffer s Queue.new);;
          (combined_audio <- ret (List.concat (c :: q));;
           process_audio_chunk w combined_audio;; ret tt))%py.
  unfold bind at 1, put at 1.
  rewrite bind_ret_l. unfold bind, ret.
  destruct (process_audio_chunk w (List.concat (c :: q))
              (set_audio_buffer s Queue.new)) as [[[a|e|] s1] t1];
    cbn; rewrite ?app_nil_r; reflexivity.
Qed.

Local Abbreviation grows := (grows_by_transcribed current_transcript).

Lemma broadcast_update_grows (w : world) (ty : string) (data : pyvalue)
    (s : state) : grows (broadcast_update w ty data s) s.
Proof.
  destruct (json_dumps data) as [j|] eqn:H.
  - destruct (broadcast_update_frame w ty data j s H)
      as (s1 & t1 & -> & (a & _) & _ & Ht).
    apply grows_frame; auto.
    apply own_sends_only in Ht. now apply only_sends_quiet.
  - rewrite (broadcast_update_unencodable w ty data s H).
    apply grows_frame; reflexivity.
Qed.

Lemma analyze_content_grows (w : world) (s : state) :
  grows (_analyze_content w s) s.
Proof.
  destruct (analyze_content_frame w s) as (r & s1 & -> & _ & Htr & _).
  apply grows_frame; auto.
Qed.

Lemma process_audio_chunk_grows (w : world) (audio : chunk) (s : state) :
  grows (process_audio_chunk w audio s) s.
Proof.
  destruct (transcribe w audio) as [text|e] eqn:H.
  - destruct (process_audio_chunk_heard w audio s text H)
      as (r & s1 & t1 & -> & _ & Htr & Hq & _).
    unfold grows_by_transcribed. cbn. rewrite Hq, Htr. cbn.
    now rewrite append_empty_r.
  - rewrite (process_audio_chunk_failed w audio s e H).
    apply grows_frame; auto.
Qed.

Lemma cycle_grows (w : world) (s : state) : grows (cycle w s) s.
Proof.
  destruct (Queue.empty (audio_buffer s)) eqn:H.
  - rewrite cycle_idle by assumption. apply grows_quiet.
  - rewrite cycle_busy by assumption. cbn zeta.
    pose proof (process_audio_chunk_grows w (List.concat (audio_buffer s))
                  (set_audio_buffer s Queue.new)) as G.
    unfold grows_by_transcribed in *. cbn in *. exact G.
Qed.

(** [register_client], case by case: the handshake, then the append,
    then the encoding of the snapshot, then its delivery. *)
Lemma register_client_eq (w : world) (ws : channel) (s : state) :
  register_client w ws s
  = if accept_ok w ws then
      let s1 := set_websocket_clients s (websocket_clients s ++ [ws]) in
      match json_dumps (get_current_state s1) with
      | None => (Raise not_serializable, s1, [EAccept ws])
      | Some snapshot =>
          (if send_ok w ws snapshot then Ret tt
           else Raise (Exn RuntimeError "send failed"),
           s1, [EAccept ws; ESend ws snapshot (send_ok w ws snapshot)])
      end
    else (Raise (Exn RuntimeError "accept failed"), s, [EAccept ws]).
Proof.
  unfold register_client, ws_accept.
  destruct (accept_ok w ws).
  - assert (E0 : (emit (EAccept ws) ;; ret tt)%py s
                 = (Ret tt, s, [EAccept ws])) by reflexivity.
    rewrite (bind_eq _ E0).
    rewrite (update_then
               (fun s0 => set_websocket_clients s0 (websocket_clients s0 ++ [ws]))).
    rewrite bind_get. unfold ws_send_json. cbn zeta.
    destruct (json_dumps (get_current_state _)) as [snapshot|];
      [|reflexivity].
    unfold ws_send, bind, emit, ret, raise.
    destruct (send_ok w ws snapshot); reflexivity.
  - reflexivity.
Qed.

Lemma register_client_grows (w : world) (ws : channel) (s : state) :
  grows (register_client w ws s) s.
Proof.
  rewrite register_client_eq.
  destruct (accept_ok w ws); [|apply grows_frame; reflexivity].
  cbn zeta. destruct (json_dumps _); apply grows_frame; reflexivity.
Qed.

Lemma remove_client_grows (ws : channel) (s : state) :
  grows (remove_client ws s) s.
Proof.
  unfold remove_client, grows_by_transcribed. run_monad.
  destruct (Py.remove ws (websocket_clients s)); cbn;
    now rewrite append_empty_r.
Qed.

Lemma export_diagram_grows (id : Z) (fmt : string) (s : state) :
  grows (export_diagram id fmt s) s.
Proof.
  unfold export_diagram, grows_by_transcribed. run_monad.
  destruct (Z.of_nat (List.length (diagrams s)) <=? id)%Z; cbn;
    [now rewrite append_empty_r|].
  destruct (Py.getitem (diagrams s) id); cbn; now rewrite append_empty_r.
Qed.

Lemma grows_then_ret {A} (m : M state A) (s : state) :
  grows (m s) s -> grows ((m ;; ret tt)%py s) s.
Proof.
  intros H. apply grows_bind; [exact H|]. intros. apply grows_quiet.
Qed.

Lemma exec_grows (w : world) (c : call) (s : state) : grows (exec w c s) s.
Proof.
  destruct c; cbn [exec].
  - apply register_client_grows.
  - apply remove_client_grows.
  - apply broadcast_update_grows.
  - apply grows_then_ret, process_audio_chunk_grows.
  - apply analyze_content_grows.
  - apply grows_then_ret, export_diagram_grows.
  - apply grows_frame; reflexivity.
  - apply cycle_grows.
  - apply grows_frame; reflexivity.
  - apply grows_frame; reflexivity.
Qed.

Lemma run_grows (calls : list (world * call)) :
  forall s,
    current_transcript (fst (run calls s))
    = (current_transcript s
       ++ concat_texts (transcribed_texts (snd (run calls s))))%string.
Proof.
  induction calls as [|[w c] rest IH]; intros s; cbn [run].
  - cbn. now rewrite append_empty_r.
  - pose proof (exec_grows w c s) as G. unfold grows_by_transcribed in G.
    destruct (exec w c s) as [[r s1] t1]. cbn in G.
    specialize (IH s1). destruct (run rest s1) as [s2 t2]. cbn in *.
    rewrite IH, G, transcribed_texts_app, concat_texts_app.
    now rewrite string_app_assoc.
Qed.

Lemma process_audio_buffer_grows (ticks : list tick) :
  forall s, grows (_process_audio_buffer ticks s) s.
Proof.
  induction ticks as [|k rest IH]; intros s; cbn [_process_audio_buffer].
  - apply grows_quiet.
  - apply grows_bind.
    + apply grows_frame; reflexivity.
    + intros _ s1 t1 _. apply grows_bind; [apply grows_quiet|].
      intros a s2 t2 E. unfold get in E. injection E as <- <- <-.
      destruct (is_processing s1); [|apply grows_quiet].
      apply grows_bind; [apply cycle_grows|]. intros. apply IH.
Qed.

End ServiceFacts.

(** ** The connection manager: shape of each method *)

Module ManagerFacts.
Import ConnectionManager.

Lemma set_connections_same (s : state) :
  set_active_connections s (active_connections s) = s.
Proof. now destruct s. Qed.

(** [disconnect] returns whatever [close] does, touches nothing but the
    connection list, and does nothing for a socket that is not in it. *)
Lemma disconnect_absent (w : world) (ws : channel) (s : state) :
  Py.contains ws (active_connections s) = false ->
  disconnect w ws s = (Ret tt, s, []).
Proof.
  intros H. unfold disconnect. unfold bind, get. now rewrite H.
Qed.

Lemma disconnect_present (w : world) (ws : channel) (s : state) :
  Py.contains ws (active_connections s) = true ->
  exists conns,
    Py.remove ws (active_connections s) = Some conns
    /\ disconnect w ws s
       = (Ret tt, set_active_connections s conns, [EClose ws]).
Proof.
  intros H. unfold disconnect. unfold bind at 1, get at 1. rewrite H.
  apply contains_In in H. destruct (remove_of_member _ _ H) as [conns E].
  exists conns. split; [exact E|]. rewrite E. run_monad.
  destruct (close_ok w ws); reflexivity.
Qed.

Lemma disconnect_shape (w : world) (ws : channel) (s : state) :
  exists conns t,
    disconnect w ws s = (Ret tt, set_active_connections s conns, t)
    /\ incl conns (active_connections s)
    /\ (t = [] \/ t = [EClose ws]).
Proof.
  destruct (Py.contains ws (active_connections s)) eqn:H.
  - destruct (disconnect_present w ws s H) as (conns & E & ->).
    exists conns, [EClose ws]. repeat split; auto.
    eapply remove_incl; eauto.
  - rewrite (disconnect_absent w ws s H).
    exists (active_connections s), []. rewrite set_connections_same.
    repeat split; auto using incl_refl.
Qed.

Lemma disconnect_each_shape (w : world) (dead : list channel) :
  forall s,
    exists conns t,
      disconnect_each w dead s = (Ret tt, set_active_connections s conns, t)
      /\ incl conns (active_connections s)
      /\ sends t = [] /\ transcribed_texts t = []
      /\ transcriber_calls t = [].
Proof.
  induction dead as [|c dead IH]; intros s; cbn [disconnect_each].
  - exists (active_connections s), []. rewrite set_connections_same.
    repeat split; auto using incl_refl.
  - destruct (disconnect_shape w c s) as (c1 & t1 & E1 & Hi1 & Ht1).
    rewrite (bind_eq _ E1).
    destruct (IH (set_active_connections s c1))
      as (c2 & t2 & E2 & Hi2 & Hs & Hx & Hy).
    rewrite E2. cbn [outcome_of state_of trace_of fst snd] in *.
    exists c2, (t1 ++ t2).
    rewrite sends_app, transcribed_texts_app, transcriber_calls_app, Hs, Hx, Hy.
    repeat split.
    + intros x Hin. auto.
    + destruct Ht1 as [-> | ->]; reflexivity.
    + destruct Ht1 as [-> | ->]; reflexivity.
    + destruct Ht1 as [-> | ->]; reflexivity.
Qed.

(** The first loop of [broadcast] hands the message to every connection,
    in list order, and collects those whose delivery failed. *)
Lemma broadcast_sends_eq (w : world) (message : json) (conns : list channel) :
  forall (dead : list channel) (s : state),
    broadcast_sends w message conns dead s
    = (Ret (dead ++ filter (fun c => negb (send_ok w c message)) conns), s,
       map (fun c => ESend c message (send_ok w c message)) conns).
Proof.
  induction conns as [|c conns IH]; intros dead s; cbn [broadcast_sends].
  - cbn. now rewrite app_nil_r.
  - assert (E : try_catch (ws_send w c message ;; ret dead)%py
                  (fun _ => ret (dead ++ [c])) s
                = (Ret (if send_ok w c message then dead else dead ++ [c]), s,
                   [ESend c message (send_ok w c message)])).
    { run_monad. destruct (send_ok w c message); reflexivity. }
    rewrite (bind_eq _ E), IH. cbn.
    destruct (send_ok w c message); cbn; [reflexivity|].
    now rewrite <- app_assoc.
Qed.

Lemma sends_of_deliveries (message : json) (ok : channel -> bool)
    (conns : list channel) :
  sends (map (fun c => ESend c message (ok c)) conns)
  = map (fun c => (c, message)) conns.
Proof.
  induction conns as [|c l IH]; cbn; [reflexivity | now rewrite IH].
Qed.

Lemma texts_of_deliveries (message : json) (ok : channel -> bool)
    (conns : list channel) :
  transcribed_texts (map (fun c => ESend c message (ok c)) conns) = [].
Proof.
  induction conns as [|c l IH]; cbn; auto.
Qed.

Lemma calls_of_deliveries (message : json) (ok : channel -> bool)
    (conns : list channel) :
  transcriber_calls (map (fun c => ESend c message (ok c)) conns) = [].
Proof.
  induction conns as [|c l IH]; cbn; auto.
Qed.

(** [broadcast] returns, every connection is handed the message once, in
    list order, and no connection is added. *)
Lemma broadcast_shape (w : world) (message : json) (s : state) :
  exists conns t,
    broadcast w message s = (Ret tt, set_active_connections s conns, t)
    /\ incl conns (active_connections s)
    /\ sends t = map (fun c => (c, message)) (active_connections s)
    /\ transcribed_texts t = []
    /\ transcriber_calls t = [].
Proof.
  unfold broadcast. unfold bind at 1, get at 1.
  rewrite (bind_eq _ (broadcast_sends_eq w message (active_connections s) [] s)).
  destruct (disconnect_each_shape w
              ([] ++ filter (fun c => negb (send_ok w c message))
                       (active_connections s)) s)
    as (conns & t & E & Hi & Hs & Hx & Hy).
  rewrite E. cbn [outcome_of state_of trace_of fst snd app].
  exists conns, (map (fun c => ESend c message (send_ok w c message))
                   (active_connections s) ++ t).
  rewrite sends_app, transcribed_texts_app, transcriber_calls_app.
  rewrite Hs, Hx, Hy, !app_nil_r.
  repeat split;
    auto using sends_of_deliveries, texts_of_deliveries, calls_of_deliveries.
Qed.

Lemma generate_diagram_eq (w : world) (text : string) (s : state) :
  exists r, generate_diagram w text s
            = (Ret r, s, [EComplete "gpt-4" DiagramInstr text]).
Proof.
  unfold generate_diagram. run_monad.
  destruct (chat_create w "gpt-4" DiagramInstr text); cbn; eauto.
Qed.

Lemma extract_answer_eq (w : world) (text : string) (s : state) :
  exists r, extract_action_items w text s
            = (Ret r, s, [EComplete "gpt-4" ActionItemsInstr text]).
Proof.
  unfold extract_action_items. run_monad.
  destruct (chat_create w "gpt-4" ActionItemsInstr text); cbn; eauto.
Qed.

(** [process_audio] when the Transcriber fails: the error is turned into
    the returned value. *)
Lemma process_audio_failed (w : world) (audio : chunk) (s : state) (e : exn) :
  transcribe w audio = Err e ->
  process_audio w audio s
  = (Ret (JObj [("error", JStr (exn_msg e))]), s, [ETranscribe audio (Err e)]).
Proof.
  intros H. unfold process_audio. run_monad. rewrite H. reflexivity.
Qed.

(** [process_audio] when the Transcriber answers. *)
Lemma process_audio_heard (w : world) (audio : chunk) (s : state)
    (text : string) :
  transcribe w audio = Ok text ->
  exists diagram items,
    process_audio w audio s
    = (Ret (JObj [("transcript", JStr text);
                  ("diagram", json_opt_str diagram);
                  ("action_items", items)]),
       set_current_transcript s (current_transcript s ++ text)%string,
       [ETranscribe audio (Ok text);
        EComplete "gpt-4" DiagramInstr (current_transcript s ++ text)%string;
        EComplete "gpt-4" ActionItemsInstr
          (current_transcript s ++ text)%string]).
Proof.
  intros H. unfold process_audio.
  set (s1 := set_current_transcript s (current_transcript s ++ text)%string).
  destruct (generate_diagram_eq w (current_transcript s1) s1) as [d Ed].
  destruct (extract_answer_eq w (current_transcript s1) s1) as [a Ea].
  exists d, a.
  assert (E0 : model_transcribe (S := state) w audio s
               = (Ret text, s, [ETranscribe audio (Ok text)])).
  { run_monad. now rewrite H. }
  apply try_catch_ret.
  rewrite (bind_eq _ E0), bind_get, bind_put, bind_get. fold s1.
  rewrite (bind_eq _ Ed), bind_get, (bind_eq _ Ea). reflexivity.
Qed.

Local Abbreviation grows := (grows_by_transcribed current_transcript).

Lemma process_audio_returns (w : world) (audio : chunk) (s : state) :
  exists results s' t,
    process_audio w audio s = (Ret results, s', t)
    /\ active_connections s' = active_connections s
    /\ shutdown_event s' = shutdown_event s
    /\ grows (Ret results, s', t) s.
Proof.
  destruct (transcribe w audio) as [text|e] eqn:H.
  - destruct (process_audio_heard w audio s text H) as (d & a & ->).
    eexists _, _, _. split; [reflexivity|].
    repeat split. unfold grows_by_transcribed. cbn.
    now rewrite append_empty_r.
  - rewrite (process_audio_failed w audio s e H).
    eexists _, _, _. split; [reflexivity|]. repeat split.
    apply grows_frame; reflexivity.
Qed.

Lemma broadcast_grows (w : world) (message : json) (s : state) :
  grows (broadcast w message s) s.
Proof.
  destruct (broadcast_shape w message s) as (c & t & -> & _ & _ & Hx & _).
  apply grows_frame; auto.
Qed.

Lemma disconnect_grows (w : world) (ws : channel) (s : state) :
  grows (disconnect w ws s) s.
Proof.
  destruct (disconnect_shape w ws s) as (c & t & -> & _ & Ht).
  apply grows_frame; auto. destruct Ht as [-> | ->]; reflexivity.
Qed.

(** A handler of the endpoint: broadcast the event, carry on. *)
Lemma broadcast_then_continue (w : world) (message : json) (s : state) :
  (broadcast w message ;; ret Continue)%py s
  = (Ret Continue, state_of (broadcast w message s),
     trace_of (broadcast w message s)).
Proof.
  destruct (broadcast_shape w message s) as (c & t & E & _).
  rewrite (bind_eq _ E), E. cbn. now rewrite app_nil_r.
Qed.

Lemma disconnect_then_break (w : world) (ws : channel) (s : state) :
  (disconnect w ws ;; ret Break)%py s
  = (Ret Break, state_of (disconnect w ws s), trace_of (disconnect w ws s)).
Proof.
  destruct (disconnect_shape w ws s) as (c & t & E & _).
  rewrite (bind_eq _ E), E. cbn. now rewrite app_nil_r.
Qed.

(** One turn of the endpoint in which the frame decodes and the
    Transcriber fails: the failure travels in an [update] event. *)
Lemma iteration_transcription_failed (ws : channel) (k : step) (s : state)
    (data : list byte) (audio : chunk) (e : exn) :
  step_receive k = Ok data ->
  frombuffer data = Some audio ->
  transcribe (step_world k) audio = Err e ->
  iteration ws k s
  = let x := broadcast (step_world k)
               (envelope "update" (JObj [("error", JStr (exn_msg e))])) s in
    (Ret Continue, state_of x, ETranscribe audio (Err e) :: trace_of x).
Proof.
  intros Hr Hb Ht. unfold iteration. cbn zeta. rewrite Hr.
  apply try_catch_ret. cbn [of_result]. rewrite bind_ret_l, Hb.
  cbn [of_option]. rewrite bind_ret_l.
  rewrite (bind_eq _ (process_audio_failed _ _ s _ Ht)).
  rewrite broadcast_then_continue. reflexivity.
Qed.

(** One turn of the endpoint always returns; it leaves the loop only on
    a client disconnect. *)
Lemma iteration_returns (ws : channel) (k : step) (s : state) :
  exists c s' t,
    iteration ws k s = (Ret c, s', t)
    /\ grows (Ret c, s', t) s
    /\ shutdown_event s' = shutdown_event s
    /\ (c = Break ->
        exists e, step_receive k = Err e
                  /\ exn_kind_of e = WebSocketDisconnect).
Proof.
  assert (Hb : forall w message s0,
             exists s' t,
               (broadcast w message ;; ret Continue)%py s0
               = (Ret Continue, s', t)
               /\ grows (Ret Continue, s', t) s0
               /\ shutdown_event s' = shutdown_event s0).
  { intros w message s0. rewrite broadcast_then_continue.
    pose proof (broadcast_grows w message s0) as G.
    destruct (broadcast_shape w message s0) as (c & t & E & _).
    rewrite E in *. eexists _, _. split; [reflexivity|]. split; [exact G|].
    reflexivity. }
  unfold iteration, try_catch. cbn zeta.
  destruct (step_receive k) as [data|e] eqn:Hr; cbn [of_result].
  - rewrite bind_ret_l.
    destruct (frombuffer data) as [audio|] eqn:Hf; cbn [of_option].
    + rewrite bind_ret_l.
      destruct (process_audio_returns (step_world k) audio s)
        as (results & s1 & t1 & E1 & Hc & Hs & G1).
      destruct (Hb (step_world k) (envelope "update" results) s1)
        as (s2 & t2 & E2 & G2 & Hs2).
      exists Continue, s2, (t1 ++ t2). split.
      * rewrite (bind_eq _ E1), E2. reflexivity.
      * repeat split; try congruence; try discriminate.
        unfold grows_by_transcribed in *. cbn in *.
        rewrite G2, G1, transcribed_texts_app, concat_texts_app.
        now rewrite string_app_assoc.
    + destruct (Hb (step_world k)
                  (envelope "error"
                     (JObj [("message",
                             JStr "buffer size must be a multiple of element size")]))
                  s) as (s2 & t2 & E2 & G2 & Hs2).
      exists Continue, s2, t2. split.
      * unfold bind at 1, raise at 1. cbn [exn_kind_of exn_msg].
        rewrite E2. reflexivity.
      * repeat split; auto. discriminate.
  - unfold bind at 1, raise at 1.
    destruct (exn_kind_of e) eqn:Hk;
      try (destruct (Hb (step_world k)
                       (envelope "error" (JObj [("message", JStr (exn_msg e))]))
                       s) as (s2 & t2 & E2 & G2 & Hs2);
           rewrite E2; exists Continue, s2, t2;
           repeat split; auto; discriminate).
    + exists Continue, s, []. repeat split; try discriminate.
      apply grows_quiet.
    + rewrite disconnect_then_break.
      pose proof (disconnect_grows (step_world k) ws s) as G.
      destruct (disconnect_shape (step_world k) ws s) as (c & t & E & _).
      rewrite E in *. cbn [state_of trace_of fst snd app] in *.
      exists Break, (set_active_connections s c), t.
      repeat split; auto. exists e. auto.
Qed.

Lemma set_shutdown_same (s : state) :
  set_shutdown_event s (shutdown_event s) = s.
Proof. now destruct s. Qed.

Lemma set_shutdown_false (s : state) :
  shutdown_event s = false -> set_shutdown_event s false = s.
Proof. intros H. rewrite <- H. apply set_shutdown_same. Qed.

(** The loop, unfolded at its first turn. *)
Lemma receive_loop_cons (ws : channel) (k : step) (rest : list step)
    (s : state) :
  receive_loop ws (k :: rest) s
  = let s0 := set_shutdown_event s (step_shutdown k || shutdown_event s) in
    if step_shutdown k || shutdown_event s then (Ret Stopped, s0, [])
    else
      (c <- iteration ws k ;;
       match c with
       | Continue => receive_loop ws rest
       | Break => ret Stopped
       end)%py s0.
Proof.
  cbn [receive_loop]. rewrite bind_get, bind_put, bind_get.
  cbn [shutdown_event set_shutdown_event].
  destruct (step_shutdown k || shutdown_event s); reflexivity.
Qed.

(** After a turn that says [Continue] the loop takes the next turn. *)
Lemma receive_loop_continues (ws : channel) (k : step) (rest : list step)
    (s s1 : state) (t1 : trace) :
  step_shutdown k = false ->
  shutdown_event s = false ->
  iteration ws k s = (Ret Continue, s1, t1) ->
  receive_loop ws (k :: rest) s
  = (outcome_of (receive_loop ws rest s1), state_of (receive_loop ws rest s1),
     t1 ++ trace_of (receive_loop ws rest s1)).
Proof.
  intros Hk Hs Hi. rewrite receive_loop_cons. cbn zeta.
  rewrite Hk. cbn [orb]. rewrite Hs.
  rewrite (set_shutdown_false s Hs).
  rewrite (bind_eq _ Hi). reflexivity.
Qed.

(** The loop never ends by an exception: it is left only once the
    shutdown event is set or the client has disconnected. *)
Lemma receive_loop_returns (ws : channel) (steps : list step) :
  forall s,
    exists st s' t,
      receive_loop ws steps s = (Ret st, s', t)
      /\ grows (Ret st, s', t) s
      /\ (st = Stopped ->
          shutdown_event s = true
          \/ exists k, In k steps
                       /\ (step_shutdown k = true
                           \/ exists e, step_receive k = Err e
                                        /\ exn_kind_of e = WebSocketDisconnect)).
Proof.
  induction steps as [|k rest IH]; intros s.
  - exists Running, s, []. repeat split; [apply grows_quiet | discriminate].
  - rewrite receive_loop_cons. cbn zeta.
    destruct (step_shutdown k) eqn:Hk; cbn [orb].
    + exists Stopped, (set_shutdown_event s true), [].
      repeat split; [apply grows_frame; reflexivity|].
      intros _. right. exists k. split; [now left | now left].
    + destruct (shutdown_event s) eqn:Hs.
      * exists Stopped, (set_shutdown_event s true), [].
        repeat split; [apply grows_frame; reflexivity | now left].
      * rewrite (set_shutdown_false s Hs).
        destruct (iteration_returns ws k s) as (c & s1 & t1 & E & G & Hsd & Hb).
        rewrite (bind_eq _ E).
        destruct c.
        -- destruct (IH s1) as (st & s2 & t2 & E2 & G2 & Hst).
           rewrite E2. cbn [outcome_of state_of trace_of fst snd].
           exists st, s2, (t1 ++ t2). repeat split.
           ++ unfold grows_by_transcribed in *. cbn in *.
              rewrite G2, G, transcribed_texts_app, concat_texts_app.
              now rewrite string_app_assoc.
           ++ intros Hst'. destruct (Hst Hst') as [Hx | (k' & Hin & Hk')].
              ** congruence.
              ** right. exists k'. split; [now right | exact Hk'].
        -- cbn. exists Stopped, s1, (t1 ++ []). repeat split.
           ++ unfold grows_by_transcribed in *. cbn in *.
              now rewrite app_nil_r.
           ++ intros _. right. exists k. split; [now left|]. right. auto.
Qed.

Lemma receive_loop_grows (ws : channel) (steps : list step) (s : state) :
  grows (receive_loop ws steps s) s.
Proof.
  destruct (receive_loop_returns ws steps s) as (st & s' & t & -> & G & _).
  exact G.
Qed.

Lemma websocket_endpoint_grows (w0 w1 : world) (ws : channel)
    (steps : list step) (s : state) :
  grows (websocket_endpoint w0 w1 ws steps s) s.
Proof.
  unfold websocket_endpoint. apply grows_bind.
  - unfold connect, grows_by_transcribed. run_monad.
    destruct (accept_ok w0 ws); cbn; now rewrite append_empty_r.
  - intros _ s1 _ _. apply grows_bind.
    + apply grows_try_catch; [apply receive_loop_grows|].
      intros. apply grows_quiet.
    + intros st s2 _ _. destruct st; [apply grows_quiet|].
      apply grows_bind; [apply disconnect_grows|].
      intros. apply grows_quiet.
Qed.

End ManagerFacts.

(** ** Parsing the action items *)

Lemma validate_lines_all (w : world) (lines : list string) :
  (forall line,
      In line (filter (fun item => Py.truthy (Py.strip item)) lines) ->
      validate_action_item w line <> None) ->
  exists items,
    TranscriptionService.validate_lines w lines = Some items
    /\ map (validate_action_item w)
         (filter (fun item => Py.truthy (Py.strip item)) lines)
       = map Some items.
Proof.
  induction lines as [|item rest IH]; cbn; intros Hall.
  - now exists [].
  - destruct (Py.truthy (Py.strip item)) eqn:Hnb.
    + destruct (validate_action_item w item) as [a|] eqn:Ha.
      * destruct IH as (items & E & Hmap).
        { intros line Hin. apply Hall. now right. }
        exists (a :: items). rewrite E. cbn. now rewrite Ha, Hmap.
      * exfalso. apply (Hall item); [now left | exact Ha].
    + now apply IH.
Qed.

Lemma validate_lines_any (w : world) (lines : list string) :
  (exists line,
      In line (filter (fun item => Py.truthy (Py.strip item)) lines)
      /\ validate_action_item w line = None) ->
  TranscriptionService.validate_lines w lines = None.
Proof.
  induction lines as [|item rest IH]; cbn; intros (line & Hin & Hbad).
  - contradiction.
  - destruct (Py.truthy (Py.strip item)) eqn:Hnb.
    + destruct Hin as [-> | Hin].
      * now rewrite Hbad.
      * destruct (validate_action_item w item); [|reflexivity].
        rewrite IH; [reflexivity|]. now exists line.
    + apply IH. now exists line.
Qed.

(** * The claims *)

(** C10. Action-item parsing is all or nothing: the raw answer is split
    into lines, the blank ones are dropped, and each remaining line is
    validated as one [ActionItem]; when all of them validate the call
    yields one item per line, in order, and when any of them does not it
    yields the empty list, dropping the lines that did validate. *)
Theorem action_items_all_or_nothing :
  forall (w : world) (s : TranscriptionService.state) (raw : string),
    chat_create w "gpt-4" ActionItemsInstr
      (TranscriptionService.current_transcript s) = Ok (Some raw) ->
    let x := TranscriptionService._extract_action_items w s in
    state_of x = s
    /\ ((forall line, In line (nonblank_lines raw) ->
                      validate_action_item w line <> None) ->
        exists items,
          outcome_of x = Ret items
          /\ map (validate_action_item w) (nonblank_lines raw)
             = map Some items)
    /\ ((exists line, In line (nonblank_lines raw)
                      /\ validate_action_item w line = None) ->
        outcome_of x = Ret []).
Proof.
  intros w s raw Hraw x. subst x.
  rewrite ServiceFacts.extract_action_items_eq.
  unfold derived_action_items, parsed_action_items. rewrite Hraw.
  cbn [state_of outcome_of fst snd]. split; [reflexivity|]. split.
  - intros Hall.
    destruct (validate_lines_all w (Py.split Py.newline raw) Hall)
      as (items & -> & Hmap).
    now exists items.
  - intros Hbad.
    now rewrite (validate_lines_any w (Py.split Py.newline raw) Hbad).
Qed.

(** The answer has two well-formed lines around a blank one and a line
    that does not validate: nothing is kept. *)
Lemma action_items_all_or_nothing_witness :
  let w := Example.world_of (Ok "hi") Example.api_down
             (Ok (Some "{a}

oops
{b}")) [] in
  let s := Example.service_with [] [] in
  chat_create w "gpt-4" ActionItemsInstr
    (TranscriptionService.current_transcript s)
  = Ok (Some "{a}

oops
{b}")
  /\ outcome_of (TranscriptionService._extract_action_items w s) = Ret [].
Proof.
  cbv zeta. split; [reflexivity|].
  refine (proj2 (proj2 (action_items_all_or_nothing
                          (Example.world_of (Ok "hi") Example.api_down
                             (Ok (Some "{a}

oops
{b}")) [])
                          (Example.service_with [] []) _ eq_refl)) _).
  exists "oops". split; [|reflexivity].
  right. left. reflexivity.
Defined.

(** C9. [export_diagram] raises [ValueError] exactly when the id is at
    least the number of stored diagrams. A negative id passes that check:
    down to [-n] it selects a diagram by negative indexing, below [-n]
    the indexing itself raises [IndexError] and no diagram is selected.
    No call returns bytes: whenever a diagram is selected the function
    returns [None]. (An id in range is an index-sized integer, a Python
    list holding fewer than [2 ^ 63] elements.) *)
Theorem export_diagram_bounds :
  forall (s : TranscriptionService.state) (diagram_id : Z) (format : string),
    let n := Z.of_nat (List.length (TranscriptionService.diagrams s)) in
    let x := TranscriptionService.export_diagram diagram_id format s in
    (outcome_of x = Raise (Exn ValueError "Invalid diagram ID")
     <-> (n <= diagram_id)%Z)
    /\ ((diagram_id < n)%Z ->
        forall msg, outcome_of x <> Raise (Exn ValueError msg))
    /\ ((- n <= diagram_id < 0)%Z -> (- 2 ^ 63 <= diagram_id)%Z ->
        exists d,
          nth_error (TranscriptionService.diagrams s)
            (Z.to_nat (n + diagram_id)) = Some d
          /\ Py.getitem (TranscriptionService.diagrams s) diagram_id = Ok d
          /\ outcome_of x = Ret None)
    /\ ((0 <= diagram_id < n)%Z -> (diagram_id < 2 ^ 63)%Z ->
        outcome_of x = Ret None)
    /\ ((diagram_id < - n)%Z ->
        exists msg, outcome_of x = Raise (Exn IndexError msg))
    /\ (forall b, outcome_of x <> Ret (Some b))
    /\ state_of x = s /\ trace_of x = [].
Proof.
  intros s diagram_id format n x. subst x n.
  unfold TranscriptionService.export_diagram.
  rewrite bind_get.
  set (ds := TranscriptionService.diagrams s).
  destruct (Z.leb_spec (Z.of_nat (List.length ds)) diagram_id) as [Hge|Hlt].
  - cbn. repeat split; intros; try lia; try discriminate; try reflexivity.
  - unfold Py.getitem. fold ds.
    destruct ((diagram_id <? - 2 ^ 63) || (2 ^ 63 <=? diagram_id))%Z
      eqn:Hfit.
    + apply orb_true_iff in Hfit.
      rewrite Z.ltb_lt, Z.leb_le in Hfit.
      cbn [of_result bind raise outcome_of state_of trace_of fst snd].
      repeat split; intros; try lia; try discriminate; try reflexivity.
      eauto.
    + apply orb_false_iff in Hfit.
      rewrite Z.ltb_ge, Z.leb_gt in Hfit.
      destruct (Z.leb_spec 0 diagram_id) as [Hpos|Hneg].
      * destruct (nth_error ds (Z.to_nat diagram_id)) as [d|] eqn:Hd.
        -- cbn. repeat split; intros; try lia; try discriminate;
             try reflexivity.
        -- apply nth_error_None in Hd. lia.
      * destruct (Z.leb_spec 0 (Z.of_nat (List.length ds) + diagram_id))
          as [Hin|Hout].
        -- destruct (nth_error ds
                       (Z.to_nat (Z.of_nat (List.length ds) + diagram_id)))
             as [d|] eqn:Hd.
           ++ cbn. repeat split; intros; try lia; try discriminate;
                try reflexivity.
              exists d. auto.
           ++ apply nth_error_None in Hd. lia.
        -- cbn. repeat split; intros; try lia; try discriminate;
             try reflexivity.
           eauto.
Qed.

(** With no diagram stored, the id [-1] passes the check and selects
    nothing: the indexing raises. *)
Lemma negative_id_below_the_list_selects_nothing :
  let s := Example.service_with [] [] in
  let x := TranscriptionService.export_diagram (-1) "png" s in
  TranscriptionService.diagrams s = []
  /\ Py.getitem (TranscriptionService.diagrams s) (-1)
     = Err (Exn IndexError "list index out of range")
  /\ outcome_of x = Raise (Exn IndexError "list index out of range").
Proof. cbv zeta. repeat split. Qed.

(** C7. On the service the second removal of a client is not a no-op:
    [remove_client] on a client that is no longer registered raises
    [ValueError] (the client list is left as it was). *)
Theorem remove_client_twice_raises :
  let s0 := Example.service_with [7] [] in
  let x1 := TranscriptionService.remove_client 7 s0 in
  let x2 := TranscriptionService.remove_client 7 (state_of x1) in
  outcome_of x1 = Ret tt
  /\ TranscriptionService.websocket_clients (state_of x1) = []
  /\ outcome_of x2 = Raise (Exn ValueError "list.remove(x): x not in list")
  /\ TranscriptionService.websocket_clients (state_of x2) = [].
Proof. cbv zeta. repeat split. Qed.

(** C3. On the service a failed delivery makes the pass skip the client
    that follows the failed one: with clients 1, 2, 3 and client 2 dead,
    client 2 is removed, and only it, but client 3 is never handed the
    event. *)
Theorem broadcast_update_skips_client_after_failure :
  let w := Example.world_of (Ok "hi") Example.api_down Example.api_down [2] in
  let event := TranscriptionService.envelope "transcript"
                 (JObj [("text", JStr "hi")]) in
  let x := TranscriptionService.broadcast_update w "transcript"
             (PJson (JObj [("text", JStr "hi")]))
             (Example.service_with [1; 2; 3] []) in
  outcome_of x = Ret tt
  /\ TranscriptionService.websocket_clients (state_of x) = [1; 3]
  /\ trace_of x = [ESend 1 event true; ESend 2 event false]
  /\ received 1 (trace_of x) = [event]
  /\ received 3 (trace_of x) = [].
Proof. cbv zeta. repeat split. Qed.


(** What a turn of the background loop hands to the Transcriber. *)
Lemma cycle_transcriber_calls (w : world) (s : TranscriptionService.state) :
  Queue.empty (TranscriptionService.audio_buffer s) = false ->
  transcriber_calls (trace_of (TranscriptionService.cycle w s))
  = [List.concat (TranscriptionService.audio_buffer s)].
Proof.
  intros H. rewrite ServiceFacts.cycle_busy by assumption. cbn zeta.
  cbn [trace_of snd].
  set (audio := List.concat (TranscriptionService.audio_buffer s)).
  set (s0 := TranscriptionService.set_audio_buffer s Queue.new).
  destruct (transcribe w audio) as [text|e] eqn:Ht.
  - destruct (ServiceFacts.process_audio_chunk_heard w audio s0 text Ht)
      as (r & s1 & t1 & -> & _ & _ & _ & Hc & _).
    cbn. now rewrite Hc.
  - now rewrite (ServiceFacts.process_audio_chunk_failed w audio s0 e Ht).
Qed.

(** C8, as the code has it. The turn that is skipped is the one that
    finds no chunk queued: it calls no Transcriber, sends nothing and
    leaves the state as it was. A turn that drained chunks hands their
    concatenation to the Transcriber whatever its size, zero samples
    included. *)
Theorem cycle_skips_only_without_chunks :
  forall (w : world) (s : TranscriptionService.state),
    (Queue.empty (TranscriptionService.audio_buffer s) = true ->
     TranscriptionService.cycle w s = (Ret tt, s, []))
    /\ (Queue.empty (TranscriptionService.audio_buffer s) = false ->
        transcriber_calls (trace_of (TranscriptionService.cycle w s))
        = [List.concat (TranscriptionService.audio_buffer s)]).
Proof.
  intros w s. split.
  - apply ServiceFacts.cycle_idle.
  - apply cycle_transcriber_calls.
Qed.

Lemma cycle_skips_only_without_chunks_witness :
  let w := Example.world_of (Ok "uh") Example.api_down Example.api_down [] in
  let s := Example.service_with [1] [] in
  Queue.empty (TranscriptionService.audio_buffer s) = true
  /\ TranscriptionService.cycle w s = (Ret tt, s, []).
Proof.
  cbv zeta. split; [reflexivity|].
  exact (proj1 (cycle_skips_only_without_chunks
                  (Example.world_of (Ok "uh") Example.api_down
                     Example.api_down [])
                  (Example.service_with [1] [])) eq_refl).
Defined.

(** C8 fails as stated: two queued chunks of zero samples each
    concatenate to an empty buffer, and the turn still calls the
    Transcriber on it, extends the transcript by its answer and
    broadcasts a [transcript] event. *)
Lemma zero_sample_buffer_is_transcribed :
  let w := Example.world_of (Ok "uh") Example.api_down Example.api_down [] in
  let s := Example.service_with [1] [[]; []] in
  let x := TranscriptionService.cycle w s in
  np_concatenate (TranscriptionService.audio_buffer s) = Some []
  /\ transcriber_calls (trace_of x) = [[]]
  /\ sends (trace_of x)
     = [(1, TranscriptionService.envelope "transcript"
              (JObj [("text", JStr "uh")]))]
  /\ TranscriptionService.current_transcript (state_of x) = "uh".
Proof. cbv zeta. repeat split. Qed.


Lemma update_events_are_not_errors (data : json) (conns : list channel) :
  existsb (fun cm : channel * json =>
             match event_type (snd cm) with
             | Some (JStr ty') => String.eqb ty' "error"
             | _ => false
             end)
    (map (fun c => (c, ConnectionManager.envelope "update" data)) conns)
  = false.
Proof.
  induction conns as [|c conns IH]; [reflexivity|].
  cbn [map existsb]. rewrite IH. reflexivity.
Qed.

(** C6, as the code has it. In the WebSocket endpoint, a turn whose
    transcription fails drops its audio (one Transcriber call, no retry,
    the transcript as it was), hands every connection one [update] event
    whose data is [{"error": message}], and no [error] event; the loop
    then takes the next turn. The loop never ends by an exception: it is
    left only once the shutdown event is set or the client has
    disconnected. *)
Theorem endpoint_survives_transcription_failure :
  forall (websocket : channel) (k : ConnectionManager.step)
         (rest : list ConnectionManager.step) (s : ConnectionManager.state)
         (data : list byte) (audio : chunk) (e : exn),
    ConnectionManager.step_shutdown k = false ->
    ConnectionManager.shutdown_event s = false ->
    ConnectionManager.step_receive k = Ok data ->
    frombuffer data = Some audio ->
    transcribe (ConnectionManager.step_world k) audio = Err e ->
    let event := ConnectionManager.envelope "update"
                   (JObj [("error", JStr (exn_msg e))]) in
    let x := ConnectionManager.iteration websocket k s in
    let next := ConnectionManager.receive_loop websocket rest (state_of x) in
    outcome_of x = Ret ConnectionManager.Continue
    /\ ConnectionManager.current_transcript (state_of x)
       = ConnectionManager.current_transcript s
    /\ transcriber_calls (trace_of x) = [audio]
    /\ sends (trace_of x)
       = map (fun c => (c, event)) (ConnectionManager.active_connections s)
    /\ sent_type "error" (trace_of x) = false
    /\ ConnectionManager.receive_loop websocket (k :: rest) s
       = (outcome_of next, state_of next, trace_of x ++ trace_of next)
    /\ (forall steps s0,
           exists st,
             outcome_of (ConnectionManager.receive_loop websocket steps s0)
             = Ret st
             /\ (st = Stopped ->
                 ConnectionManager.shutdown_event s0 = true
                 \/ exists k',
                     In k' steps
                     /\ (ConnectionManager.step_shutdown k' = true
                         \/ exists e',
                             ConnectionManager.step_receive k' = Err e'
                             /\ exn_kind_of e' = WebSocketDisconnect))).
Proof.
  intros websocket k rest s data audio e Hk Hs Hr Hb Ht event x next.
  assert (Ex : x = (Ret ConnectionManager.Continue,
                    state_of (ConnectionManager.broadcast
                                (ConnectionManager.step_world k) event s),
                    ETranscribe audio (Err e)
                    :: trace_of (ConnectionManager.broadcast
                                   (ConnectionManager.step_world k) event s))).
  { subst x.
    now rewrite (ManagerFacts.iteration_transcription_failed
                   websocket k s data audio e Hr Hb Ht). }
  destruct (ManagerFacts.broadcast_shape
              (ConnectionManager.step_world k) event s)
    as (conns & t & Eb & _ & Hsends & _ & Hcalls).
  rewrite Eb in Ex. cbn [state_of trace_of fst snd] in Ex.
  split; [now rewrite Ex|].
  split; [now rewrite Ex|].
  split; [rewrite Ex; cbn; now rewrite Hcalls|].
  split; [rewrite Ex; cbn; exact Hsends|].
  split.
  { rewrite Ex. unfold sent_type. cbn [trace_of snd sends]. rewrite Hsends.
    apply update_events_are_not_errors. }
  split.
  { subst next.
    rewrite (ManagerFacts.receive_loop_continues websocket k rest s
               (state_of x) (trace_of x) Hk Hs); [reflexivity|].
    change (x = (Ret ConnectionManager.Continue, state_of x, trace_of x)).
    rewrite Ex. reflexivity. }
  intros steps s0.
  destruct (ManagerFacts.receive_loop_returns websocket steps s0)
    as (st & s' & t' & E & _ & Hst).
  exists st. rewrite E. split; [reflexivity | exact Hst].
Qed.

(** Two connections; the first frame decodes to one sample and the
    Transcriber crashes on it; a second frame follows and is heard. *)
Lemma endpoint_survives_transcription_failure_witness :
  let crash := Example.world_of (Err (Exn RuntimeError "model crashed"))
                 Example.api_down Example.api_down [] in
  let fine := Example.world_of (Ok "hello") Example.api_down
                Example.api_down [] in
  let frame := [x00; x00; x80; x3f]%byte in
  let k1 := {| ConnectionManager.step_world := crash;
               ConnectionManager.step_shutdown := false;
               ConnectionManager.step_receive := Ok frame |} in
  let k2 := {| ConnectionManager.step_world := fine;
               ConnectionManager.step_shutdown := false;
               ConnectionManager.step_receive := Ok frame |} in
  let s := Example.manager_with [1; 2] in
  (ConnectionManager.step_shutdown k1 = false
   /\ ConnectionManager.shutdown_event s = false
   /\ ConnectionManager.step_receive k1 = Ok frame
   /\ frombuffer frame = Some [1065353216%N]
   /\ transcribe crash [1065353216%N]
      = Err (Exn RuntimeError "model crashed"))
  /\ sent_type "error"
       (trace_of (ConnectionManager.iteration 1 k1 s)) = false
  /\ transcribed_texts
       (trace_of (ConnectionManager.receive_loop 1 [k1; k2] s)) = ["hello"].
Proof.
  cbv zeta. split; [repeat split|].
  pose proof (endpoint_survives_transcription_failure 1
                {| ConnectionManager.step_world :=
                     Example.world_of (Err (Exn RuntimeError "model crashed"))
                       Example.api_down Example.api_down [];
                   ConnectionManager.step_shutdown := false;
                   ConnectionManager.step_receive :=
                     Ok [x00; x00; x80; x3f]%byte |}
                [{| ConnectionManager.step_world :=
                      Example.world_of (Ok "hello") Example.api_down
                        Example.api_down [];
                    ConnectionManager.step_shutdown := false;
                    ConnectionManager.step_receive :=
                      Ok [x00; x00; x80; x3f]%byte |}]
                (Example.manager_with [1; 2])
                [x00; x00; x80; x3f]%byte [1065353216%N]
                (Exn RuntimeError "model crashed")
                eq_refl eq_refl eq_refl eq_refl eq_refl) as H.
  cbv zeta in H. destruct H as (_ & _ & _ & _ & H5 & H6 & _).
  split; [exact H5|]. rewrite H6. reflexivity.
Defined.

(** C6 fails as stated: in the endpoint a failed transcription is
    reported to the two connections in an [update] event, and no event of
    type [error] is sent. *)
Lemma transcription_failure_is_sent_as_update :
  let crash := Example.world_of (Err (Exn RuntimeError "model crashed"))
                 Example.api_down Example.api_down [] in
  let k := {| ConnectionManager.step_world := crash;
              ConnectionManager.step_shutdown := false;
              ConnectionManager.step_receive :=
                Ok [x00; x00; x80; x3f]%byte |} in
  let x := ConnectionManager.receive_loop 1 [k] (Example.manager_with [1; 2]) in
  let event := ConnectionManager.envelope "update"
                 (JObj [("error", JStr "model crashed")]) in
  transcribed_texts (trace_of x) = []
  /\ sends (trace_of x) = [(1, event); (2, event)]
  /\ sent_type "error" (trace_of x) = false.
Proof. cbv zeta. repeat split. Qed.

(** On the service the background loop has no handler at all: a failed
    transcription ends the thread, nothing is sent, and the chunks that
    arrive later are never processed. *)
Lemma background_loop_dies_on_transcription_failure :
  let crash := Example.world_of (Err (Exn RuntimeError "model crashed"))
                 Example.api_down Example.api_down [] in
  let k1 := {| TranscriptionService.tick_world := crash;
               TranscriptionService.tick_arrivals := [[1%N]];
               TranscriptionService.tick_stop := false |} in
  let k2 := {| TranscriptionService.tick_world := crash;
               TranscriptionService.tick_arrivals := [[2%N]];
               TranscriptionService.tick_stop := false |} in
  let x := TranscriptionService._process_audio_buffer [k1; k2]
             (Example.service_with [1] []) in
  outcome_of x = Raise (Exn RuntimeError "model crashed")
  /\ sends (trace_of x) = []
  /\ transcriber_calls (trace_of x) = [[1%N]].
Proof. cbv zeta. repeat split. Qed.

Lemma cycle_leaves_queue_empty (w : world) (s : TranscriptionService.state) :
  TranscriptionService.audio_buffer (state_of (TranscriptionService.cycle w s))
  = Queue.new.
Proof.
  destruct (Queue.empty (TranscriptionService.audio_buffer s)) eqn:H.
  - rewrite ServiceFacts.cycle_idle by assumption. cbn.
    now destruct (TranscriptionService.audio_buffer s).
  - rewrite ServiceFacts.cycle_busy by assumption. cbn zeta.
    cbn [state_of fst snd].
    set (audio := List.concat (TranscriptionService.audio_buffer s)).
    set (s0 := TranscriptionService.set_audio_buffer s Queue.new).
    destruct (transcribe w audio) as [text|e] eqn:Ht.
    + destruct (ServiceFacts.process_audio_chunk_heard w audio s0 text Ht)
        as (r & s1 & t1 & -> & _ & _ & _ & _ & Hq & _).
      cbn. now rewrite Hq.
    + now rewrite (ServiceFacts.process_audio_chunk_failed w audio s0 e Ht).
Qed.

(** C2. The chunks put on the queue before a drain come out of the drain
    exactly, oldest first; draining an empty queue yields nothing; and the
    queue is empty once the drain is over, also at the end of the turn of
    the background loop that ran it. *)
Theorem drain_all_fifo :
  forall (q0 : Queue.t) (cs : list chunk),
    let q := fold_left Queue.put cs q0 in
    TranscriptionService.drain_all q = (q0 ++ cs, Queue.new)
    /\ fst (TranscriptionService.drain_all (fold_left Queue.put cs Queue.new))
       = cs
    /\ Queue.empty (snd (TranscriptionService.drain_all q)) = true
    /\ TranscriptionService.drain_all Queue.new = ([], Queue.new)
    /\ (forall w s,
           TranscriptionService.audio_buffer
             (state_of (TranscriptionService.cycle w
                          (TranscriptionService.set_audio_buffer s q)))
           = Queue.new).
Proof.
  intros q0 cs q.
  destruct (drain_all_spec q0 cs) as (H1 & H2 & H3 & H4).
  repeat split; auto. intros w s. apply cycle_leaves_queue_empty.
Qed.

(** C1. The stored transcript is the concatenation, in call order, of the
    texts the Transcriber returned. On the service this holds along any
    session of calls and along the background loop; on the connection
    manager along the endpoint. A processing step extends the transcript
    by exactly the text transcribed, or leaves it as it was when the
    transcription failed; since every run only appends, the transcript
    it started from is kept as a prefix. *)
Theorem transcript_is_concatenation_of_transcribed_texts :
  (forall (calls : list (world * TranscriptionService.call))
          (s : TranscriptionService.state),
      let x := TranscriptionService.run calls s in
      TranscriptionService.current_transcript (fst x)
      = (TranscriptionService.current_transcript s
         ++ concat_texts (transcribed_texts (snd x)))%string)
  /\ (forall (calls : list (world * TranscriptionService.call)),
         let x := TranscriptionService.run calls TranscriptionService.init in
         TranscriptionService.current_transcript (fst x)
         = concat_texts (transcribed_texts (snd x)))
  /\ (forall (ticks : list TranscriptionService.tick)
             (s : TranscriptionService.state),
         let x := TranscriptionService._process_audio_buffer ticks s in
         TranscriptionService.current_transcript (state_of x)
         = (TranscriptionService.current_transcript s
            ++ concat_texts (transcribed_texts (trace_of x)))%string)
  /\ (forall (w : world) (audio : chunk) (s : TranscriptionService.state),
         let x := TranscriptionService.process_audio_chunk w audio s in
         TranscriptionService.current_transcript (state_of x)
         = (TranscriptionService.current_transcript s
            ++ match transcribe w audio with
               | Ok text => text
               | Err _ => ""
               end)%string)
  /\ (forall (w0 w1 : world) (websocket : channel)
             (steps : list ConnectionManager.step)
             (s : ConnectionManager.state),
         let x := ConnectionManager.websocket_endpoint w0 w1 websocket steps s in
         ConnectionManager.current_transcript (state_of x)
         = (ConnectionManager.current_transcript s
            ++ concat_texts (transcribed_texts (trace_of x)))%string)
  /\ (forall (w : world) (audio : chunk) (s : ConnectionManager.state),
         let x := ConnectionManager.process_audio w audio s in
         ConnectionManager.current_transcript (state_of x)
         = (ConnectionManager.current_transcript s
            ++ match transcribe w audio with
               | Ok text => text
               | Err _ => ""
               end)%string).
Proof.
  split; [|split; [|split; [|split; [|split]]]].
  - intros calls s x. apply ServiceFacts.run_grows.
  - intros calls x. subst x. now rewrite ServiceFacts.run_grows.
  - intros ticks s x. apply ServiceFacts.process_audio_buffer_grows.
  - intros w audio s x. subst x.
    destruct (transcribe w audio) as [text|e] eqn:Ht.
    + destruct (ServiceFacts.process_audio_chunk_heard w audio s text Ht)
        as (r & s1 & t1 & -> & _ & Htr & _).
      exact Htr.
    + rewrite (ServiceFacts.process_audio_chunk_failed w audio s e Ht).
      cbn. now rewrite append_empty_r.
  - intros w0 w1 websocket steps s x.
    apply ManagerFacts.websocket_endpoint_grows.
  - intros w audio s x. subst x.
    destruct (transcribe w audio) as [text|e] eqn:Ht.
    + destruct (ManagerFacts.process_audio_heard w audio s text Ht)
        as (d & a & ->).
      reflexivity.
    + rewrite (ManagerFacts.process_audio_failed w audio s e Ht).
      cbn. now rewrite append_empty_r.
Qed.

(** * The connection manager's registry *)

Lemma remove_NoDup (x : nat) (xs ys : list nat) :
  NoDup xs -> Py.remove x xs = Some ys -> ~ In x ys /\ NoDup ys.
Proof.
  revert ys. induction xs as [|y xs IH]; cbn; intros ys Hnd H.
  - discriminate.
  - inversion Hnd as [|? ? Hy Hxs]; subst.
    destruct (Nat.eqb_spec y x) as [->|Hne].
    + inversion H; subst. auto.
    + destruct (Py.remove x xs) as [xs'|] eqn:E; [|discriminate].
      inversion H; subst. destruct (IH xs' Hxs eq_refl) as [Hn Hnd'].
      split.
      * intros [Heq|Hin]; [congruence | contradiction].
      * constructor; [|exact Hnd'].
        intros Hin. apply Hy. eapply remove_incl; eauto.
Qed.

Lemma remove_keeps_others (x z : nat) (xs ys : list nat) :
  Py.remove x xs = Some ys -> In z xs -> z <> x -> In z ys.
Proof.
  revert ys. induction xs as [|y xs IH]; cbn; intros ys H Hin Hne.
  - contradiction.
  - destruct (Nat.eqb_spec y x) as [->|Hyx].
    + inversion H; subst. destruct Hin as [Heq|Hin]; [congruence | exact Hin].
    + destruct (Py.remove x xs) as [xs'|] eqn:E; [|discriminate].
      inversion H; subst. destruct Hin as [Heq|Hin]; [now left|].
      right. now apply (IH xs' eq_refl).
Qed.

Lemma none_fails_without_the_dead (ok : channel -> bool) (dead : channel)
    (conns : list channel) :
  ~ In dead conns ->
  (forall c, In c conns -> ok c = negb (Nat.eqb c dead)) ->
  filter (fun c => negb (ok c)) conns = [].
Proof.
  induction conns as [|c conns IH]; cbn; intros Hn Hok; [reflexivity|].
  rewrite (Hok c (or_introl eq_refl)), Bool.negb_involutive.
  destruct (Nat.eqb_spec c dead) as [->|Hne].
  - exfalso. apply Hn. now left.
  - apply IH.
    + intros H. apply Hn. now right.
    + intros c0 H0. apply Hok. now right.
Qed.

(** In a duplicate-free list the failed deliveries are the one dead
    channel. *)
Lemma only_the_dead_fails (ok : channel -> bool) (dead : channel)
    (conns : list channel) :
  NoDup conns -> In dead conns ->
  (forall c, In c conns -> ok c = negb (Nat.eqb c dead)) ->
  filter (fun c => negb (ok c)) conns = [dead].
Proof.
  induction conns as [|c conns IH]; cbn; intros Hnd Hin Hok.
  - contradiction.
  - inversion Hnd as [|? ? Hc Hnd']; subst.
    rewrite (Hok c (or_introl eq_refl)), Bool.negb_involutive.
    destruct (Nat.eqb_spec c dead) as [->|Hne].
    + f_equal. apply (none_fails_without_the_dead ok dead); [exact Hc|].
      intros c0 H0. apply Hok. now right.
    + destruct Hin as [Heq|Hin]; [congruence|].
      apply IH; auto.
Qed.

Lemma received_of_deliveries (message : json) (ok : channel -> bool)
    (c : channel) (conns : list channel) :
  NoDup conns -> In c conns -> ok c = true ->
  received c (map (fun c' => ESend c' message (ok c')) conns) = [message].
Proof.
  induction conns as [|c' conns IH]; cbn; intros Hnd Hin Hok.
  - contradiction.
  - inversion Hnd as [|? ? Hc Hnd']; subst.
    assert (Hnone : forall l, ~ In c l ->
              received c (map (fun c' => ESend c' message (ok c')) l) = []).
    { induction l as [|d l IHl]; cbn; intros Hn; [reflexivity|].
      destruct (ok d).
      - destruct (Nat.eqb_spec d c) as [->|_]; [exfalso; apply Hn; now left|].
        apply IHl. intros H. apply Hn. now right.
      - apply IHl. intros H. apply Hn. now right. }
    destruct Hin as [->|Hin].
    + rewrite Hok, Nat.eqb_refl. now rewrite Hnone.
    + destruct (ok c').
      * destruct (Nat.eqb_spec c' c) as [->|_]; [contradiction|]. now apply IH.
      * now apply IH.
Qed.

(** [ConnectionManager.broadcast] isolates a failed channel: with one
    dead channel among duplicate-free connections, that channel, and only
    it, is removed during the pass, and every other connection receives
    the message exactly once. *)
Theorem broadcast_isolates_failed_channel :
  forall (w : world) (message : json) (s : ConnectionManager.state)
         (dead : channel),
    NoDup (ConnectionManager.active_connections s) ->
    In dead (ConnectionManager.active_connections s) ->
    (forall c, In c (ConnectionManager.active_connections s) ->
               send_ok w c message = negb (Nat.eqb c dead)) ->
    let x := ConnectionManager.broadcast w message s in
    outcome_of x = Ret tt
    /\ Py.remove dead (ConnectionManager.active_connections s)
       = Some (ConnectionManager.active_connections (state_of x))
    /\ ~ In dead (ConnectionManager.active_connections (state_of x))
    /\ (forall c, In c (ConnectionManager.active_connections s) ->
                  c <> dead ->
                  In c (ConnectionManager.active_connections (state_of x))
                  /\ received c (trace_of x) = [message]).
Proof.
  intros w message s dead Hnd Hin Hok x. subst x.
  unfold ConnectionManager.broadcast. rewrite bind_get.
  rewrite (bind_eq _ (ManagerFacts.broadcast_sends_eq w message
                        (ConnectionManager.active_connections s) [] s)).
  cbn [app].
  rewrite (only_the_dead_fails (fun c => send_ok w c message) dead
             (ConnectionManager.active_connections s) Hnd Hin Hok).
  cbn [ConnectionManager.disconnect_each].
  assert (Hc : Py.contains dead (ConnectionManager.active_connections s) = true)
    by now apply contains_In.
  destruct (ManagerFacts.disconnect_present w dead s Hc) as (conns & Hr & Ed).
  rewrite (bind_eq _ Ed).
  cbn [outcome_of state_of trace_of fst snd ret
       ConnectionManager.active_connections
       ConnectionManager.set_active_connections].
  destruct (remove_NoDup dead _ conns Hnd Hr) as [Hgone _].
  split; [reflexivity|]. split; [exact Hr|]. split; [exact Hgone|].
  intros c Hcin Hne. split.
  - eapply remove_keeps_others; eauto.
  - rewrite received_app.
    rewrite (received_of_deliveries message (fun c => send_ok w c message) c
               _ Hnd Hcin).
    + reflexivity.
    + rewrite (Hok c Hcin). now destruct (Nat.eqb_spec c dead).
Qed.

Lemma broadcast_isolates_failed_channel_witness :
  let w := Example.world_of (Ok "hi") Example.api_down Example.api_down [2] in
  let x := ConnectionManager.broadcast w JNull (Example.manager_with [1; 2; 3]) in
  (NoDup [1; 2; 3] /\ In 2 [1; 2; 3])
  /\ ConnectionManager.active_connections (state_of x) = [1; 3]
  /\ received 3 (trace_of x) = [JNull].
Proof.
  cbv zeta.
  assert (Hnd : NoDup [1; 2; 3]).
  { constructor; [cbn; intros [H|[H|H]]; [discriminate | discriminate | exact H]|].
    constructor; [cbn; intros [H|H]; [discriminate | exact H]|].
    constructor; [cbn; intros H; exact H | constructor]. }
  assert (Hin : In 2 [1; 2; 3]) by (right; now left).
  split; [now split|].
  pose proof (broadcast_isolates_failed_channel
                (Example.world_of (Ok "hi") Example.api_down
                   Example.api_down [2])
                JNull (Example.manager_with [1; 2; 3]) 2 Hnd Hin) as H.
  cbv zeta in H.
  destruct H as (_ & Hr & _ & Hother).
  - intros c Hc. cbn in Hc. decompose [or] Hc; subst; try reflexivity.
    contradiction.
  - split.
    + cbn in Hr. now inversion Hr.
    + apply (Hother 3); [right; right; now left | discriminate].
Defined.

(** [ConnectionManager.disconnect] is idempotent: it always returns, also
    when [close] fails; on a socket that is not among the connections it
    does nothing at all; and after it has run on duplicate-free
    connections the socket is not among them. *)
Theorem disconnect_is_idempotent :
  forall (w : world) (websocket : channel) (s : ConnectionManager.state),
    let x := ConnectionManager.disconnect w websocket s in
    outcome_of x = Ret tt
    /\ (Py.contains websocket (ConnectionManager.active_connections s) = false ->
        x = (Ret tt, s, []))
    /\ (NoDup (ConnectionManager.active_connections s) ->
        Py.contains websocket
          (ConnectionManager.active_connections (state_of x)) = false
        /\ forall w', ConnectionManager.disconnect w' websocket (state_of x)
                      = (Ret tt, state_of x, [])).
Proof.
  intros w websocket s x. subst x.
  destruct (Py.contains websocket (ConnectionManager.active_connections s))
    eqn:Hc.
  - destruct (ManagerFacts.disconnect_present w websocket s Hc)
      as (conns & Hr & ->).
    cbn [outcome_of state_of fst snd].
    split; [reflexivity|]. split; [discriminate|].
    intros Hnd. destruct (remove_NoDup websocket _ conns Hnd Hr) as [Hgone _].
    assert (Hc' : Py.contains websocket conns = false).
    { destruct (Py.contains websocket conns) eqn:E; [|reflexivity].
      apply contains_In in E. contradiction. }
    split; [exact Hc'|]. intros w'.
    now apply ManagerFacts.disconnect_absent.
  - rewrite (ManagerFacts.disconnect_absent w websocket s Hc).
    cbn [outcome_of state_of fst snd].
    split; [reflexivity|]. split; [reflexivity|].
    intros _. split; [exact Hc|]. intros w'.
    now apply ManagerFacts.disconnect_absent.
Qed.

(** * The service's broadcast pass, in general *)

(** A stretch of [n] clients from index [i] on whose deliveries all
    succeed: the loop delivers to each and goes on from index [i + n]. *)
Lemma broadcast_loop_stretch (w : world) (message : json) (n : nat) :
  forall (fuel i : nat) (s : TranscriptionService.state),
    i + n <= List.length (TranscriptionService.websocket_clients s) ->
    (forall c,
        In c (firstn n (skipn i (TranscriptionService.websocket_clients s))) ->
        send_ok w c message = true) ->
    TranscriptionService.broadcast_loop w message (n + fuel) i s
    = let y := TranscriptionService.broadcast_loop w message fuel (i + n) s in
      (outcome_of y, state_of y,
       delivered_to
         (firstn n (skipn i (TranscriptionService.websocket_clients s)))
         message
       ++ trace_of y).
Proof.
  induction n as [|n IH]; intros fuel i s Hlen Hok.
  - cbn zeta. rewrite Nat.add_0_r. cbn.
    now destruct (TranscriptionService.broadcast_loop w message fuel i s)
      as [[r s'] t].
  - cbn [Nat.add TranscriptionService.broadcast_loop]. rewrite bind_get.
    destruct (nth_error (TranscriptionService.websocket_clients s) i)
      as [client|] eqn:Hnth.
    2:{ apply nth_error_None in Hnth. lia. }
    rewrite (skipn_nth_error _ _ _ Hnth) in Hok |- *.
    cbn [firstn] in Hok |- *.
    assert (Hin : In client (TranscriptionService.websocket_clients s))
      by (eapply nth_error_In; eauto).
    destruct (ServiceFacts.send_or_remove w message client s Hin)
      as (cl1 & Hbody & Hcl1).
    rewrite (Hok client (or_introl eq_refl)) in *. subst cl1.
    rewrite ServiceFacts.set_clients_same in Hbody.
    rewrite (bind_eq _ Hbody).
    rewrite (IH fuel (S i) s).
    + cbn zeta. cbn [outcome_of state_of trace_of fst snd delivered_to map app].
      now replace (S i + n) with (i + S n) by lia.
    + lia.
    + intros c Hc. apply Hok. now right.
Qed.

(** One turn of the iterator. *)
Lemma broadcast_loop_step (w : world) (message : json) (fuel i : nat)
    (s : TranscriptionService.state) :
  TranscriptionService.broadcast_loop w message (S fuel) i s
  = match nth_error (TranscriptionService.websocket_clients s) i with
    | Some client =>
        (try_catch (ws_send w client message)
                   (fun _ => TranscriptionService.remove_client client) ;;
         TranscriptionService.broadcast_loop w message fuel (S i))%py s
    | None => (Ret tt, s, [])
    end.
Proof.
  cbn [TranscriptionService.broadcast_loop]. rewrite bind_get.
  now destruct (nth_error (TranscriptionService.websocket_clients s) i).
Qed.

Lemma skipn_app_length {A} (pre post : list A) :
  skipn (List.length pre) (pre ++ post) = post.
Proof. induction pre as [|x pre IH]; cbn; auto. Qed.

Lemma firstn_app_length {A} (pre post : list A) :
  firstn (List.length pre) (pre ++ post) = pre.
Proof. induction pre as [|x pre IH]; cbn; [reflexivity | now rewrite IH]. Qed.

Lemma nth_error_app_length {A} (pre post : list A) (x : A) :
  nth_error (pre ++ x :: post) (List.length pre) = Some x.
Proof. induction pre as [|y pre IH]; cbn; auto. Qed.

Lemma received_none (message : json) (c : channel) (conns : list channel) :
  ~ In c conns -> received c (delivered_to conns message) = [].
Proof.
  induction conns as [|d conns IH]; cbn; intros Hn; [reflexivity|].
  destruct (Nat.eqb_spec d c) as [->|_]; [exfalso; apply Hn; now left|].
  apply IH. intros H. apply Hn. now right.
Qed.

(** The service's [broadcast_update] skips the client that follows a
    failed one: for an event that encodes to [encoded], with duplicate-free
    clients [pre ++ c :: d :: post] of which only [c] is dead, [c] is
    removed, and only it, every client of [pre] and [post] is handed the
    event, and [d] is handed nothing. *)
Theorem broadcast_update_skips_the_next_client :
  forall (w : world) (update_type : string) (data : pyvalue) (encoded : json)
         (s : TranscriptionService.state) (pre post : list channel)
         (c d : channel),
    json_dumps data = Some encoded ->
    TranscriptionService.websocket_clients s = pre ++ c :: d :: post ->
    NoDup (pre ++ c :: d :: post) ->
    (forall c', In c' (pre ++ c :: d :: post) ->
                send_ok w c' (TranscriptionService.envelope update_type encoded)
                = negb (Nat.eqb c' c)) ->
    let event := TranscriptionService.envelope update_type encoded in
    let x := TranscriptionService.broadcast_update w update_type data s in
    outcome_of x = Ret tt
    /\ TranscriptionService.websocket_clients (state_of x) = pre ++ d :: post
    /\ trace_of x
       = delivered_to pre event ++ ESend c event false
         :: delivered_to post event
    /\ received d (trace_of x) = [].
Proof.
  intros w update_type data encoded s pre post c d Henc Hcl Hnd Hok event x.
  assert (Hc_pre : ~ In c pre).
  { apply NoDup_remove_2 in Hnd. intros H. apply Hnd.
    apply in_or_app. now left. }
  assert (Hd : ~ In d pre /\ d <> c /\ ~ In d post).
  { pose proof Hnd as Hnd2.
    replace (pre ++ c :: d :: post) with ((pre ++ [c]) ++ d :: post) in Hnd2
      by now rewrite <- app_assoc.
    apply NoDup_remove_2 in Hnd2. repeat split.
    - intros H. apply Hnd2. apply in_or_app. left. apply in_or_app. now left.
    - intros ->. apply Hnd2. apply in_or_app. left. apply in_or_app.
      right. now left.
    - intros H. apply Hnd2. apply in_or_app. now right. }
  destruct Hd as (Hd_pre & Hdc & Hd_post).
  assert (Hok_other : forall c', In c' (pre ++ d :: post) ->
             send_ok w c' event = true).
  { intros c' Hin. subst event. rewrite Hok.
    - destruct (Nat.eqb_spec c' c) as [->|_]; [|reflexivity].
      exfalso. apply in_app_or in Hin. destruct Hin as [H|[H|H]].
      + contradiction.
      + congruence.
      + apply NoDup_remove_2 in Hnd. apply Hnd. apply in_or_app.
        right. now right.
    - apply in_app_or in Hin. apply in_or_app.
      destruct Hin as [H|[H|H]]; [now left | right; right; now left |].
      right. right. now right. }
  assert (Ex : x = (Ret tt,
                    TranscriptionService.set_websocket_clients s
                      (pre ++ d :: post),
                    delivered_to pre event ++ ESend c event false
                    :: delivered_to post event)).
  { subst x. rewrite (ServiceFacts.broadcast_update_encoded _ _ _ _ _ Henc).
    fold event. rewrite Hcl.
    replace (S (List.length (pre ++ c :: d :: post)))
      with (List.length pre + S (S (S (List.length post))))
      by (rewrite length_app; cbn; lia).
    rewrite (broadcast_loop_stretch w event (List.length pre)).
    2:{ rewrite Hcl, length_app. cbn. lia. }
    2:{ rewrite Hcl. cbn [skipn]. rewrite firstn_app_length.
        intros c' Hin. apply Hok_other. apply in_or_app. now left. }
    cbn zeta. rewrite Hcl. cbn [skipn Nat.add]. rewrite firstn_app_length.
    rewrite broadcast_loop_step, Hcl, nth_error_app_length.
    assert (Hin : In c (TranscriptionService.websocket_clients s)).
    { rewrite Hcl. apply in_or_app. right. now left. }
    destruct (ServiceFacts.send_or_remove w event c s Hin)
      as (cl1 & Hbody & Hcl1).
    assert (Hfail : send_ok w c event = false).
    { subst event. rewrite Hok; [now rewrite Nat.eqb_refl|].
      apply in_or_app. right. now left. }
    rewrite Hfail in *. rewrite Hcl, (remove_middle c pre (d :: post) Hc_pre)
      in Hcl1.
    injection Hcl1 as <-.
    rewrite (bind_eq _ Hbody). cbv beta.
    rewrite ServiceFacts.broadcast_loop_all_delivered.
    - cbn [outcome_of state_of trace_of fst snd
           TranscriptionService.websocket_clients
           TranscriptionService.set_websocket_clients].
      replace (S (List.length pre)) with (List.length (pre ++ [d]))
        by (rewrite length_app; cbn; lia).
      replace (pre ++ d :: post) with ((pre ++ [d]) ++ post)
        by now rewrite <- app_assoc.
      rewrite skipn_app_length. reflexivity.
    - cbn. rewrite length_app. cbn. lia.
    - cbn. exact Hok_other. }
  rewrite Ex. cbn [outcome_of state_of trace_of fst snd
                   TranscriptionService.websocket_clients
                   TranscriptionService.set_websocket_clients].
  split; [reflexivity|]. split; [reflexivity|]. split; [reflexivity|].
  rewrite received_app. cbn [received].
  now rewrite !received_none.
Qed.

Lemma broadcast_update_skips_the_next_client_witness :
  let w := Example.world_of (Ok "hi") Example.api_down Example.api_down [5] in
  let s := Example.service_with [4; 5; 6; 7] [] in
  let x := TranscriptionService.broadcast_update w "diagram" (PJson JNull) s in
  (json_dumps (PJson JNull) = Some JNull
   /\ TranscriptionService.websocket_clients s = [4] ++ 5 :: 6 :: [7]
   /\ NoDup ([4] ++ 5 :: 6 :: [7]))
  /\ TranscriptionService.websocket_clients (state_of x) = [4; 6; 7]
  /\ received 6 (trace_of x) = [].
Proof.
  cbv zeta.
  assert (Hnd : NoDup ([4] ++ 5 :: 6 :: [7])).
  { cbn. repeat (constructor; [cbn; intuition discriminate|]). constructor. }
  split; [split; [reflexivity | split; [reflexivity | exact Hnd]]|].
  pose proof (broadcast_update_skips_the_next_client
                (Example.world_of (Ok "hi") Example.api_down
                   Example.api_down [5])
                "diagram" (PJson JNull) JNull
                (Example.service_with [4; 5; 6; 7] [])
                [4] [7] 5 6 eq_refl eq_refl Hnd) as H.
  cbv zeta in H. destruct H as (_ & H2 & _ & H4).
  - intros c' Hc. cbn in Hc. decompose [or] Hc; subst; try reflexivity.
    contradiction.
  - split; [exact H2 | exact H4].
Defined.

(** * Further properties of the service *)

Lemma registered_sends (message : json) (clients : list channel) (t : trace) :
  Forall (fun e => exists c b, e = ESend c message b /\ In c clients) t ->
  Forall (fun cm => In (fst cm) clients /\ snd cm = message) (sends t)
  /\ transcriber_calls t = [] /\ completions t = [].
Proof.
  induction 1 as [|e t (c & b & -> & Hin) _ (IH1 & IH2 & IH3)]; cbn.
  - repeat split. constructor.
  - repeat split; auto.
Qed.

(** The broadcast loop with enough fuel: it returns, sends its message to
    registered clients only, never adds a client, and on duplicate-free
    clients every client whose delivery failed is gone at the end. *)
Lemma broadcast_loop_heals (w : world) (message : json) (fuel : nat) :
  forall (i : nat) (s : TranscriptionService.state),
    List.length (TranscriptionService.websocket_clients s) - i < fuel ->
    exists clients' t,
      TranscriptionService.broadcast_loop w message fuel i s
      = (Ret tt, TranscriptionService.set_websocket_clients s clients', t)
      /\ incl clients' (TranscriptionService.websocket_clients s)
      /\ Forall (fun e => exists c b,
                     e = ESend c message b
                     /\ In c (TranscriptionService.websocket_clients s)) t
      /\ (NoDup (TranscriptionService.websocket_clients s) ->
          NoDup clients'
          /\ forall c, In (ESend c message false) t -> ~ In c clients').
Proof.
  induction fuel as [|fuel IH]; intros i s Hfuel; [lia|].
  rewrite broadcast_loop_step.
  destruct (nth_error (TranscriptionService.websocket_clients s) i)
    as [client|] eqn:Hnth.
  - assert (Hin : In client (TranscriptionService.websocket_clients s))
      by (eapply nth_error_In; eauto).
    assert (Hlt : i < List.length (TranscriptionService.websocket_clients s))
      by (apply nth_error_Some; congruence).
    destruct (ServiceFacts.send_or_remove w message client s Hin)
      as (cl1 & Hbody & Hcl1).
    rewrite (bind_eq _ Hbody). cbv beta.
    assert (Hincl1 : incl cl1 (TranscriptionService.websocket_clients s)).
    { destruct (send_ok w client message); [subst; apply incl_refl|].
      eapply remove_incl; eauto. }
    assert (Hlen1 : List.length cl1
                    <= List.length (TranscriptionService.websocket_clients s)).
    { destruct (send_ok w client message); [subst; lia|].
      apply remove_length in Hcl1. lia. }
    destruct (IH (S i) (TranscriptionService.set_websocket_clients s cl1))
      as (cl2 & t2 & E & Hi2 & Ht2 & Hnd2).
    { cbn. lia. }
    rewrite E. cbn [outcome_of state_of trace_of fst snd app
                    TranscriptionService.websocket_clients
                    TranscriptionService.set_websocket_clients] in *.
    exists cl2, (ESend client message (send_ok w client message) :: t2).
    split; [reflexivity|]. split; [intros x Hx; auto|]. split.
    + constructor; [eauto|].
      eapply Forall_impl; [|exact Ht2].
      intros e (c & b & -> & Hc). eauto.
    + intros Hnd.
      assert (Hnd1 : NoDup cl1 /\ (send_ok w client message = false ->
                                   ~ In client cl1)).
      { destruct (send_ok w client message).
        - subst. split; [exact Hnd | discriminate].
        - destruct (remove_NoDup client _ cl1 Hnd Hcl1). split; auto. }
      destruct Hnd1 as [Hnd1 Hgone].
      destruct (Hnd2 Hnd1) as [Hnd2' Hfail2]. split; [exact Hnd2'|].
      intros c [Heq|Hc]; [|now apply Hfail2].
      injection Heq as <- Hb. intros Hc2. apply (Hgone Hb). auto.
  - exists (TranscriptionService.websocket_clients s), [].
    rewrite ServiceFacts.set_clients_same.
    split; [reflexivity|]. split; [apply incl_refl|]. split; [constructor|].
    intros Hnd. split; [exact Hnd|]. intros c [].
Qed.

(** [TranscriptionService.broadcast_update] either refuses or returns.
    An event that [json.dumps] cannot encode raises [TypeError] before
    the loop: nothing is sent and the service is left as it was. For an
    event that is encoded, the loop ends whatever the deliveries do and
    the call returns: it changes nothing but the client list and never
    adds a client, it calls neither the Transcriber nor the completion
    API, and what it hands to sockets is its own event, to registered
    clients only; on duplicate-free clients the list stays duplicate-free
    and every client whose delivery failed is gone when the pass is
    over. *)
Theorem broadcast_update_refuses_or_returns :
  forall (w : world) (update_type : string) (data : pyvalue)
         (s : TranscriptionService.state),
    let x := TranscriptionService.broadcast_update w update_type data s in
    (json_dumps data = None -> x = (Raise not_serializable, s, []))
    /\ (forall encoded,
           json_dumps data = Some encoded ->
           let event := TranscriptionService.envelope update_type encoded in
           outcome_of x = Ret tt
           /\ same_store s (state_of x)
           /\ incl (TranscriptionService.websocket_clients (state_of x))
                (TranscriptionService.websocket_clients s)
           /\ Forall (fun cm =>
                        In (fst cm) (TranscriptionService.websocket_clients s)
                        /\ snd cm = event) (sends (trace_of x))
           /\ transcriber_calls (trace_of x) = []
           /\ completions (trace_of x) = []
           /\ (NoDup (TranscriptionService.websocket_clients s) ->
               NoDup (TranscriptionService.websocket_clients (state_of x))
               /\ forall c, In (ESend c event false) (trace_of x) ->
                            ~ In c (TranscriptionService.websocket_clients
                                      (state_of x))))
    /\ (outcome_of x = Ret tt <-> json_dumps data <> None)
    /\ (outcome_of x = Raise not_serializable <-> json_dumps data = None).
Proof.
  intros w update_type data s x. subst x.
  assert (Hsome : forall encoded,
             json_dumps data = Some encoded ->
             let event := TranscriptionService.envelope update_type encoded in
             let x := TranscriptionService.broadcast_update w update_type
                        data s in
             outcome_of x = Ret tt
             /\ same_store s (state_of x)
             /\ incl (TranscriptionService.websocket_clients (state_of x))
                  (TranscriptionService.websocket_clients s)
             /\ Forall (fun cm =>
                          In (fst cm)
                            (TranscriptionService.websocket_clients s)
                          /\ snd cm = event) (sends (trace_of x))
             /\ transcriber_calls (trace_of x) = []
             /\ completions (trace_of x) = []
             /\ (NoDup (TranscriptionService.websocket_clients s) ->
                 NoDup (TranscriptionService.websocket_clients (state_of x))
                 /\ forall c, In (ESend c event false) (trace_of x) ->
                              ~ In c (TranscriptionService.websocket_clients
                                        (state_of x)))).
  { intros encoded Henc event x. subst x.
    rewrite (ServiceFacts.broadcast_update_encoded _ _ _ _ _ Henc).
    fold event.
    destruct (broadcast_loop_heals w event
                (S (List.length (TranscriptionService.websocket_clients s)))
                0 s)
      as (cl & t & E & Hi & Ht & Hnd); [lia|].
    rewrite E. cbn [outcome_of state_of trace_of fst snd
                    TranscriptionService.websocket_clients
                    TranscriptionService.set_websocket_clients].
    destruct (registered_sends event _ t Ht) as (H1 & H2 & H3).
    split; [reflexivity|]. split; [repeat split|]. split; [exact Hi|].
    split; [exact H1|]. split; [exact H2|]. split; [exact H3 | exact Hnd]. }
  split; [apply ServiceFacts.broadcast_update_unencodable|].
  split; [exact Hsome|].
  destruct (json_dumps data) as [encoded|] eqn:Henc.
  - destruct (Hsome encoded eq_refl) as (Hr & _). cbv zeta in Hr.
    rewrite Hr. split; split; intros; try discriminate; reflexivity.
  - rewrite (ServiceFacts.broadcast_update_unencodable w update_type data s Henc).
    cbn [outcome_of fst]. split; split; intros H; try discriminate;
      try reflexivity.
    now contradiction H.
Qed.

(** [TranscriptionService.broadcast_update] when the event is encoded
    and no delivery fails: the service is left as it was and the clients
    are handed the event one after the other, in registration order. *)
Theorem broadcast_update_reaches_every_client :
  forall (w : world) (update_type : string) (data : pyvalue) (encoded : json)
         (s : TranscriptionService.state),
    json_dumps data = Some encoded ->
    (forall c, In c (TranscriptionService.websocket_clients s) ->
               send_ok w c (TranscriptionService.envelope update_type encoded)
               = true) ->
    let event := TranscriptionService.envelope update_type encoded in
    let x := TranscriptionService.broadcast_update w update_type data s in
    x = (Ret tt, s,
         delivered_to (TranscriptionService.websocket_clients s) event)
    /\ (NoDup (TranscriptionService.websocket_clients s) ->
        forall c, In c (TranscriptionService.websocket_clients s) ->
                  received c (trace_of x) = [event]).
Proof.
  intros w update_type data encoded s Henc Hok event x. subst x.
  rewrite (ServiceFacts.broadcast_update_all_delivered w update_type data
             encoded s Henc Hok).
  split; [reflexivity|]. intros Hnd c Hc. cbn [trace_of snd].
  unfold delivered_to.
  apply (received_of_deliveries event (fun _ => true) c _ Hnd Hc eq_refl).
Qed.

Lemma broadcast_update_reaches_every_client_witness :
  let w := Example.world_of (Ok "hi") Example.api_down Example.api_down [9] in
  let s := Example.service_with [1; 2; 3] [] in
  let data := PDict [("text", PJson (JStr "hi"))] in
  let encoded := JObj [("text", JStr "hi")] in
  let event := TranscriptionService.envelope "transcript" encoded in
  json_dumps data = Some encoded
  /\ (forall c, In c (TranscriptionService.websocket_clients s) ->
                send_ok w c event = true)
  /\ TranscriptionService.broadcast_update w "transcript" data s
     = (Ret tt, s, [ESend 1 event true; ESend 2 event true;
                    ESend 3 event true]).
Proof.
  cbv zeta.
  assert (Hok : forall c,
             In c (TranscriptionService.websocket_clients
                     (Example.service_with [1; 2; 3] [])) ->
             send_ok (Example.world_of (Ok "hi") Example.api_down
                        Example.api_down [9]) c
               (TranscriptionService.envelope "transcript"
                  (JObj [("text", JStr "hi")])) = true).
  { intros c Hc. cbn in Hc. decompose [or] Hc; subst; try reflexivity.
    contradiction. }
  split; [reflexivity|]. split; [exact Hok|].
  exact (proj1 (broadcast_update_reaches_every_client
                  (Example.world_of (Ok "hi") Example.api_down
                     Example.api_down [9])
                  "transcript" (PDict [("text", PJson (JStr "hi"))])
                  (JObj [("text", JStr "hi")])
                  (Example.service_with [1; 2; 3] []) eq_refl Hok)).
Defined.

(** ** Relations kept along a computation *)

Section Kept.
Context {S : Type}.
Variable R : S -> S -> Prop.
Hypothesis R_trans : forall s1 s2 s3, R s1 s2 -> R s2 s3 -> R s1 s3.

Lemma kept_bind {A B} (m : M S A) (k : A -> M S B) (s : S) :
  R s (state_of (m s)) ->
  (forall a s1 t1, m s = (Ret a, s1, t1) -> R s1 (state_of (k a s1))) ->
  R s (state_of (bind m k s)).
Proof.
  unfold bind. intros Hm Hk.
  destruct (m s) as [[[a|e|] s1] t1]; cbn in *; auto.
  specialize (Hk a s1 t1 eq_refl).
  destruct (k a s1) as [[r s2] t2]; cbn in *. eauto.
Qed.

Lemma kept_try_catch {A} (m : M S A) (h : exn -> M S A) (s : S) :
  R s (state_of (m s)) ->
  (forall e s1 t1, m s = (Raise e, s1, t1) -> R s1 (state_of (h e s1))) ->
  R s (state_of (try_catch m h s)).
Proof.
  unfold try_catch. intros Hm Hh.
  destruct (m s) as [[[a|e|] s1] t1]; cbn in *; auto.
  specialize (Hh e s1 t1 eq_refl).
  destruct (h e s1) as [[r s2] t2]; cbn in *. eauto.
Qed.

End Kept.

(** ** The derived lists only grow *)

Lemma is_prefix_refl {A} (l : list A) : is_prefix l l.
Proof. exists []. now rewrite app_nil_r. Qed.

Lemma is_prefix_trans {A} (l1 l2 l3 : list A) :
  is_prefix l1 l2 -> is_prefix l2 l3 -> is_prefix l1 l3.
Proof.
  intros [r1 ->] [r2 ->]. exists (r1 ++ r2). now rewrite app_assoc.
Qed.

Lemma lists_grown_refl (s : TranscriptionService.state) : lists_grown s s.
Proof. split; apply is_prefix_refl. Qed.

Lemma lists_grown_trans (s1 s2 s3 : TranscriptionService.state) :
  lists_grown s1 s2 -> lists_grown s2 s3 -> lists_grown s1 s3.
Proof.
  intros [H1 H2] [H3 H4]. split; eapply is_prefix_trans; eauto.
Qed.

Lemma lists_grown_same (s s' : TranscriptionService.state) :
  TranscriptionService.diagrams s' = TranscriptionService.diagrams s ->
  TranscriptionService.action_items s' = TranscriptionService.action_items s ->
  lists_grown s s'.
Proof.
  intros H1 H2. unfold lists_grown. rewrite H1, H2.
  split; apply is_prefix_refl.
Qed.

Lemma broadcast_update_keeps_lists (w : world) (ty : string) (data : pyvalue)
    (s : TranscriptionService.state) :
  lists_grown s (state_of (TranscriptionService.broadcast_update w ty data s)).
Proof.
  destruct (json_dumps data) as [j|] eqn:H.
  - destruct (ServiceFacts.broadcast_update_frame w ty data j s H)
      as (s1 & t1 & -> & (_ & Ha & Hd & _) & _).
    now apply lists_grown_same.
  - rewrite (ServiceFacts.broadcast_update_unencodable w ty data s H).
    apply lists_grown_refl.
Qed.

Lemma analyze_content_grows_lists (w : world) (s : TranscriptionService.state) :
  lists_grown s (state_of (TranscriptionService._analyze_content w s)).
Proof.
  destruct (ServiceFacts.analyze_content_frame w s)
    as (r & s1 & -> & _ & _ & _ & _ & _ & Hd & Ha).
  split; assumption.
Qed.

Lemma process_audio_chunk_grows_lists (w : world) (audio : chunk)
    (s : TranscriptionService.state) :
  lists_grown s
    (state_of (TranscriptionService.process_audio_chunk w audio s)).
Proof.
  unfold TranscriptionService.process_audio_chunk.
  apply (kept_bind lists_grown lists_grown_trans).
  { unfold model_transcribe. run_monad.
    destruct (transcribe w audio); apply lists_grown_refl. }
  intros text s1 t1 _. rewrite bind_get, bind_put.
  apply (lists_grown_trans s1
           (TranscriptionService.set_current_transcript s1
              (TranscriptionService.current_transcript s1 ++ text)%string));
    [now apply lists_grown_same|].
  apply (kept_bind lists_grown lists_grown_trans).
  { apply broadcast_update_keeps_lists. }
  intros _ s2 t2 _.
  apply (kept_bind lists_grown lists_grown_trans).
  { apply analyze_content_grows_lists. }
  intros. apply lists_grown_refl.
Qed.

Lemma cycle_grows_lists (w : world) (s : TranscriptionService.state) :
  lists_grown s (state_of (TranscriptionService.cycle w s)).
Proof.
  destruct (Queue.empty (TranscriptionService.audio_buffer s)) eqn:H.
  - rewrite ServiceFacts.cycle_idle by assumption. apply lists_grown_refl.
  - rewrite ServiceFacts.cycle_busy by assumption. cbn zeta.
    cbn [state_of fst snd].
    eapply lists_grown_trans;
      [|apply (process_audio_chunk_grows_lists w _
                 (TranscriptionService.set_audio_buffer s Queue.new))].
    now apply lists_grown_same.
Qed.

Lemma exec_grows_lists (w : world) (c : TranscriptionService.call)
    (s : TranscriptionService.state) :
  lists_grown s (state_of (TranscriptionService.exec w c s)).
Proof.
  destruct c; cbn [TranscriptionService.exec].
  - rewrite ServiceFacts.register_client_eq.
    destruct (accept_ok w websocket); [|apply lists_grown_refl].
    cbn zeta. destruct (json_dumps _); now apply lists_grown_same.
  - unfold TranscriptionService.remove_client. run_monad.
    destruct (Py.remove websocket _); cbn; now apply lists_grown_same.
  - apply broadcast_update_keeps_lists.
  - apply (kept_bind lists_grown lists_grown_trans).
    + apply process_audio_chunk_grows_lists.
    + intros. apply lists_grown_refl.
  - apply analyze_content_grows_lists.
  - unfold TranscriptionService.export_diagram. run_monad.
    destruct (Z.of_nat _ <=? diagram_id)%Z; cbn; [apply lists_grown_refl|].
    destruct (Py.getitem _ diagram_id); cbn; apply lists_grown_refl.
  - now apply lists_grown_same.
  - apply cycle_grows_lists.
  - now apply lists_grown_same.
  - now apply lists_grown_same.
Qed.

Lemma process_audio_buffer_grows_lists (ticks : list TranscriptionService.tick) :
  forall s : TranscriptionService.state,
    lists_grown s
      (state_of (TranscriptionService._process_audio_buffer ticks s)).
Proof.
  induction ticks as [|k rest IH]; intros s;
    cbn [TranscriptionService._process_audio_buffer].
  - apply lists_grown_refl.
  - apply (kept_bind lists_grown lists_grown_trans).
    { unfold TranscriptionService.arrive. rewrite bind_get.
      now apply lists_grown_same. }
    intros _ s1 t1 _. rewrite bind_get.
    destruct (TranscriptionService.is_processing s1);
      [|apply lists_grown_refl].
    apply (kept_bind lists_grown lists_grown_trans).
    + apply cycle_grows_lists.
    + intros. apply IH.
Qed.

(** Along any session of calls on the service, and along its background
    loop, the diagram list and the action-item list are only appended to:
    what they held at the start is an initial segment of what they hold
    at the end. [_analyze_content] itself asks the two derivations and
    sends nothing; it leaves transcript, queue and clients alone. When a
    diagram is derived it is appended and the call ends in the
    [TypeError] of the encoder, the action items left as they were;
    otherwise the derived action items, if there are any, are appended
    and the call ends in the same way; it returns, with the service as
    it was, when nothing is derived. *)
Theorem derived_lists_only_grow :
  (forall (calls : list (world * TranscriptionService.call))
          (s : TranscriptionService.state),
      lists_grown s (fst (TranscriptionService.run calls s)))
  /\ (forall (ticks : list TranscriptionService.tick)
             (s : TranscriptionService.state),
         lists_grown s
           (state_of (TranscriptionService._process_audio_buffer ticks s)))
  /\ (forall (w : world) (s : TranscriptionService.state),
         let heard := TranscriptionService.current_transcript s in
         let x := TranscriptionService._analyze_content w s in
         trace_of x = [EComplete "gpt-4o" DiagramInstr heard;
                       EComplete "gpt-4" ActionItemsInstr heard]
         /\ TranscriptionService.current_transcript (state_of x) = heard
         /\ TranscriptionService.audio_buffer (state_of x)
            = TranscriptionService.audio_buffer s
         /\ TranscriptionService.websocket_clients (state_of x)
            = TranscriptionService.websocket_clients s
         /\ match derived_diagram w heard, derived_action_items w heard with
            | Some d, _ =>
                outcome_of x = Raise not_serializable
                /\ TranscriptionService.diagrams (state_of x)
                   = TranscriptionService.diagrams s ++ [d]
                /\ TranscriptionService.action_items (state_of x)
                   = TranscriptionService.action_items s
            | None, [] => outcome_of x = Ret tt /\ state_of x = s
            | None, items =>
                outcome_of x = Raise not_serializable
                /\ TranscriptionService.diagrams (state_of x)
                   = TranscriptionService.diagrams s
                /\ TranscriptionService.action_items (state_of x)
                   = TranscriptionService.action_items s ++ items
            end).
Proof.
  split; [|split].
  - induction calls as [|[w c] rest IH]; intros s;
      cbn [TranscriptionService.run].
    + apply lists_grown_refl.
    + pose proof (exec_grows_lists w c s) as G.
      destruct (TranscriptionService.exec w c s) as [[r s1] t1]. cbn in G.
      specialize (IH s1).
      destruct (TranscriptionService.run rest s1) as [s2 t2]. cbn in *.
      eapply lists_grown_trans; eauto.
  - intros ticks s. apply process_audio_buffer_grows_lists.
  - intros w s heard x. subst x heard.
    rewrite ServiceFacts.analyze_content_eq. cbn zeta.
    destruct (derived_diagram w (TranscriptionService.current_transcript s))
      as [d|].
    + repeat split.
    + destruct (derived_action_items w
                  (TranscriptionService.current_transcript s));
        repeat split.
Qed.

(** ** Failures on the service *)

Lemma set_queue_after_arrival (s : TranscriptionService.state) (q : Queue.t) :
  TranscriptionService.is_processing s = true ->
  TranscriptionService.set_audio_buffer
    (TranscriptionService.set_is_processing
       (TranscriptionService.set_audio_buffer s q)
       (TranscriptionService.is_processing s)) Queue.new
  = TranscriptionService.set_audio_buffer s Queue.new.
Proof. destruct s. cbn. now intros ->. Qed.

(** The background loop has no handler: a turn whose transcription fails
    ends the loop with that exception. The chunks drained in that turn
    are gone from the queue, nothing is sent to any client, and the
    turns that would have followed never run. *)
Theorem background_loop_ends_at_failed_transcription :
  forall (k : TranscriptionService.tick) (rest : list TranscriptionService.tick)
         (s : TranscriptionService.state) (e : exn),
    let queue := TranscriptionService.audio_buffer s
                 ++ TranscriptionService.tick_arrivals k in
    TranscriptionService.tick_stop k = false ->
    TranscriptionService.is_processing s = true ->
    queue <> [] ->
    transcribe (TranscriptionService.tick_world k) (List.concat queue) = Err e ->
    TranscriptionService._process_audio_buffer (k :: rest) s
    = (Raise e, TranscriptionService.set_audio_buffer s Queue.new,
       [ETranscribe (List.concat queue) (Err e)]).
Proof.
  intros k rest s e queue Hstop Hproc Hq Ht.
  cbn [TranscriptionService._process_audio_buffer].
  set (s0 := TranscriptionService.set_is_processing
               (TranscriptionService.set_audio_buffer s queue)
               (TranscriptionService.is_processing s)).
  assert (Ea : TranscriptionService.arrive k s = (Ret tt, s0, [])).
  { unfold TranscriptionService.arrive. rewrite bind_get.
    rewrite Hstop, put_all. reflexivity. }
  rewrite (bind_eq _ Ea), bind_get.
  assert (Hp0 : TranscriptionService.is_processing s0 = true) by exact Hproc.
  rewrite Hp0.
  assert (Hne : Queue.empty (TranscriptionService.audio_buffer s0) = false).
  { cbn. destruct queue; [contradiction | reflexivity]. }
  assert (Ec : TranscriptionService.cycle (TranscriptionService.tick_world k) s0
               = (Raise e, TranscriptionService.set_audio_buffer s Queue.new,
                  [ETranscribe (List.concat queue) (Err e)])).
  { rewrite ServiceFacts.cycle_busy by assumption. cbn zeta.
    change (TranscriptionService.audio_buffer s0) with queue.
    rewrite (ServiceFacts.process_audio_chunk_failed _ _ _ e Ht).
    cbn [outcome_of state_of trace_of fst snd]. subst s0.
    now rewrite set_queue_after_arrival. }
  unfold bind. rewrite Ec. reflexivity.
Qed.

Lemma background_loop_ends_at_failed_transcription_witness :
  let crash := Example.world_of (Err (Exn RuntimeError "model crashed"))
                 Example.api_down Example.api_down [] in
  let k := {| TranscriptionService.tick_world := crash;
              TranscriptionService.tick_arrivals := [[3%N]; [4%N]];
              TranscriptionService.tick_stop := false |} in
  let s := Example.service_with [1] [[2%N]] in
  ([[2%N]] ++ [[3%N]; [4%N]] <> [])
  /\ TranscriptionService._process_audio_buffer [k; k] s
     = (Raise (Exn RuntimeError "model crashed"),
        Example.service_with [1] [],
        [ETranscribe [2%N; 3%N; 4%N]
           (Err (Exn RuntimeError "model crashed"))]).
Proof.
  cbv zeta.
  assert (Hq : [[2%N]] ++ [[3%N]; [4%N]] <> @nil chunk) by discriminate.
  split; [exact Hq|].
  exact (background_loop_ends_at_failed_transcription
           {| TranscriptionService.tick_world :=
                Example.world_of (Err (Exn RuntimeError "model crashed"))
                  Example.api_down Example.api_down [];
              TranscriptionService.tick_arrivals := [[3%N]; [4%N]];
              TranscriptionService.tick_stop := false |}
           [{| TranscriptionService.tick_world :=
                 Example.world_of (Err (Exn RuntimeError "model crashed"))
                   Example.api_down Example.api_down [];
               TranscriptionService.tick_arrivals := [[3%N]; [4%N]];
               TranscriptionService.tick_stop := false |}]
           (Example.service_with [1] [[2%N]])
           (Exn RuntimeError "model crashed")
           eq_refl eq_refl Hq eq_refl).
Defined.

(** [register_client], case by case. If the handshake fails the
    exception escapes before anything is registered or sent. If the
    handshake completes, the client is appended; then the snapshot is
    encoded, which raises [TypeError] as soon as a diagram or an action
    item is stored, nothing having been sent; a snapshot that is encoded
    is handed to the socket, and if that delivery fails the exception
    escapes as well. In each of these failures the client stays
    registered. *)
Theorem register_client_failures :
  forall (w : world) (websocket : channel) (s : TranscriptionService.state),
    let x := TranscriptionService.register_client w websocket s in
    let joined :=
      TranscriptionService.set_websocket_clients s
        (TranscriptionService.websocket_clients s ++ [websocket]) in
    let snapshot := json_dumps (TranscriptionService.get_current_state s) in
    (accept_ok w websocket = false ->
     exists e, x = (Raise e, s, [EAccept websocket]))
    /\ (accept_ok w websocket = true ->
        snapshot = None ->
        x = (Raise not_serializable, joined, [EAccept websocket]))
    /\ (forall encoded,
           accept_ok w websocket = true ->
           snapshot = Some encoded ->
           send_ok w websocket encoded = false ->
           exists e,
             x = (Raise e, joined,
                  [EAccept websocket; ESend websocket encoded false]))
    /\ (forall encoded,
           accept_ok w websocket = true ->
           snapshot = Some encoded ->
           send_ok w websocket encoded = true ->
           x = (Ret tt, joined,
                [EAccept websocket; ESend websocket encoded true]))
    /\ (snapshot = None
        <-> TranscriptionService.diagrams s <> []
            \/ TranscriptionService.action_items s <> []).
Proof.
  intros w websocket s x joined snapshot. subst x.
  rewrite ServiceFacts.register_client_eq. cbn zeta.
  change (TranscriptionService.get_current_state
            (TranscriptionService.set_websocket_clients s
               (TranscriptionService.websocket_clients s ++ [websocket])))
    with (TranscriptionService.get_current_state s).
  fold snapshot. fold joined.
  split; [|split; [|split; [|split]]].
  - intros ->. eauto.
  - intros -> ->. reflexivity.
  - intros encoded -> -> ->. eauto.
  - intros encoded -> -> ->. reflexivity.
  - subst snapshot. rewrite ServiceFacts.dumps_current_state.
    destruct (TranscriptionService.diagrams s) as [|d ds].
    + destruct (TranscriptionService.action_items s) as [|a items].
      * split; [discriminate|]. intros [H|H]; now contradiction H.
      * split; [|reflexivity]. intros _. right. discriminate.
    + split; [|reflexivity]. intros _. left. discriminate.
Qed.

Lemma only_sends_no_completions (t : trace) :
  only_sends t -> completions t = [].
Proof.
  induction 1 as [|e t (c & m & b & ->) _ IH]; cbn; auto.
Qed.

Lemma completions_app (t1 t2 : trace) :
  completions (t1 ++ t2) = completions t1 ++ completions t2.
Proof.
  induction t1 as [|e t1 IH]; cbn; [reflexivity|].
  destruct e; cbn; now rewrite ?IH.
Qed.

(** [process_audio_chunk] once the Transcriber has answered, in order:
    one Transcriber call on the buffer; the transcript grows by the text;
    one broadcast pass of a [transcript] event that carries only the new
    text, which returns; then the two derivation calls, each handed the
    whole updated transcript (gpt-4o for the diagram, gpt-4 for the
    action items); then nothing more. The transcribed text is returned
    exactly when the derivations yield nothing: otherwise the call ends
    in the [TypeError] of the encoder. *)
Theorem process_audio_chunk_in_order :
  forall (w : world) (audio : chunk) (s : TranscriptionService.state)
         (text : string),
    transcribe w audio = Ok text ->
    let full := (TranscriptionService.current_transcript s ++ text)%string in
    let x := TranscriptionService.process_audio_chunk w audio s in
    let pass :=
      TranscriptionService.broadcast_update w "transcript"
        (PDict [("text", PJson (JStr text))])
        (TranscriptionService.set_current_transcript s full) in
    outcome_of pass = Ret tt
    /\ only_sends (trace_of pass)
    /\ trace_of x
       = ETranscribe audio (Ok text) :: trace_of pass
         ++ [EComplete "gpt-4o" DiagramInstr full;
             EComplete "gpt-4" ActionItemsInstr full]
    /\ transcriber_calls (trace_of x) = [audio]
    /\ completions (trace_of x)
       = [("gpt-4o", DiagramInstr, full); ("gpt-4", ActionItemsInstr, full)]
    /\ (outcome_of x = Ret text
        <-> derived_diagram w full = None
            /\ derived_action_items w full = [])
    /\ (outcome_of x = Ret text \/ outcome_of x = Raise not_serializable).
Proof.
  intros w audio s text H full x pass.
  assert (E0 : model_transcribe (S := TranscriptionService.state) w audio s
               = (Ret text, s, [ETranscribe audio (Ok text)])).
  { unfold model_transcribe. run_monad. now rewrite H. }
  destruct (ServiceFacts.broadcast_update_frame w "transcript" _ _
              (TranscriptionService.set_current_transcript s full)
              (ServiceFacts.dumps_transcript_event text))
    as (s1 & t1 & E1 & (Htr & _) & _ & Ht1).
  cbn in Htr.
  pose proof (ServiceFacts.analyze_content_eq w s1) as E2.
  cbv zeta in E2. rewrite Htr in E2.
  set (asked := [EComplete "gpt-4o" DiagramInstr full;
                 EComplete "gpt-4" ActionItemsInstr full]) in *.
  assert (Ex : exists r s2,
             x = (r, s2, ETranscribe audio (Ok text) :: t1 ++ asked)
             /\ (r = Ret text \/ r = Raise not_serializable)
             /\ (r = Ret text
                 <-> derived_diagram w full = None
                     /\ derived_action_items w full = [])).
  { subst x. unfold TranscriptionService.process_audio_chunk.
    rewrite (bind_eq _ E0), update_then. fold full.
    rewrite (bind_eq _ E1).
    destruct (derived_diagram w full) as [d|].
    - rewrite (bind_raise _ E2).
      cbn [outcome_of state_of trace_of fst snd app].
      eexists _, _. split; [reflexivity|]. split; [now right|].
      split; [discriminate|]. intros [Hd _]. discriminate.
    - destruct (derived_action_items w full) as [|a items].
      + rewrite (bind_eq _ E2).
        cbn [outcome_of state_of trace_of fst snd ret app].
        rewrite app_nil_r.
        eexists _, _. split; [reflexivity|]. split; [now left|].
        split; auto.
      + rewrite (bind_raise _ E2).
        cbn [outcome_of state_of trace_of fst snd app].
        eexists _, _. split; [reflexivity|]. split; [now right|].
        split; [discriminate|]. intros [_ Hi]. discriminate. }
  destruct Ex as (r & s2 & Ex & Hr & Hiff).
  apply ServiceFacts.own_sends_only in Ht1.
  destruct (ServiceFacts.only_sends_quiet _ Ht1) as [_ Hc1].
  rewrite Ex. subst pass. rewrite E1.
  cbn [outcome_of state_of trace_of fst snd].
  split; [reflexivity|]. split; [exact Ht1|]. split; [reflexivity|].
  split; [|split; [|split; [exact Hiff | exact Hr]]].
  - cbn. rewrite transcriber_calls_app, Hc1. reflexivity.
  - cbn. rewrite completions_app, (only_sends_no_completions _ Ht1).
    reflexivity.
Qed.

Lemma process_audio_chunk_in_order_witness :
  let w := Example.world_of (Ok " world") Example.api_down
             Example.api_down [] in
  let s := TranscriptionService.set_current_transcript
             (Example.service_with [1] []) "hello" in
  let x := TranscriptionService.process_audio_chunk w [7%N] s in
  transcribe w [7%N] = Ok " world"
  /\ completions (trace_of x)
     = [("gpt-4o", DiagramInstr, "hello world");
        ("gpt-4", ActionItemsInstr, "hello world")].
Proof.
  cbv zeta. split; [reflexivity|].
  exact (proj1 (proj2 (proj2 (proj2 (proj2
           (process_audio_chunk_in_order
              (Example.world_of (Ok " world") Example.api_down
                 Example.api_down [])
              [7%N]
              (TranscriptionService.set_current_transcript
                 (Example.service_with [1] []) "hello")
              " world" eq_refl)))))).
Defined.

(** * Further properties of the endpoint *)

(** [np.frombuffer] on a frame: it decodes exactly when the size is a
    multiple of four, and then gives one sample per four bytes. *)
Lemma frombuffer_length (n : nat) :
  forall data : list byte,
    List.length data < n ->
    match frombuffer data with
    | Some audio => List.length data = 4 * List.length audio
    | None => List.length data mod 4 <> 0
    end.
Proof.
  induction n as [|n IH]; intros data Hlt; [lia|].
  destruct data as [|b0 [|b1 [|b2 [|b3 rest]]]]; cbn [frombuffer].
  - reflexivity.
  - cbn. discriminate.
  - cbn. discriminate.
  - cbn. discriminate.
  - assert (Hrest : List.length rest < n) by (cbn [List.length] in Hlt; lia).
    specialize (IH rest Hrest).
    destruct (frombuffer rest) as [samples|]; cbn [List.length].
    + lia.
    + replace (S (S (S (S (List.length rest)))))
        with (List.length rest + 1 * 4) by lia.
      now rewrite Nat.Div0.mod_add.
Qed.

Lemma frombuffer_decodes (data : list byte) :
  List.length data mod 4 = 0 ->
  exists audio, frombuffer data = Some audio
                /\ 4 * List.length audio = List.length data.
Proof.
  intros H. pose proof (frombuffer_length (S (List.length data)) data) as L.
  destruct (frombuffer data) as [audio|].
  - exists audio. split; [reflexivity|]. symmetry. apply L. lia.
  - exfalso. apply L; [lia | exact H].
Qed.

Lemma frombuffer_rejects (data : list byte) :
  List.length data mod 4 <> 0 -> frombuffer data = None.
Proof.
  intros H. pose proof (frombuffer_length (S (List.length data)) data) as L.
  destruct (frombuffer data) as [audio|]; [|reflexivity].
  exfalso. apply H. rewrite L by lia.
  replace (4 * List.length audio) with (0 + List.length audio * 4) by lia.
  now rewrite Nat.Div0.mod_add.
Qed.

(** A turn of the endpoint on a received frame. A frame whose size is
    not a multiple of four bytes does not decode: the Transcriber is not
    called, the transcript is left alone, every connection is handed one
    [error] event with a message, and the turn says to carry on. A frame
    whose size is a multiple of four decodes to a quarter as many
    samples, and the Transcriber is called once, on them. *)
Theorem endpoint_turn_on_a_frame :
  forall (websocket : channel) (k : ConnectionManager.step)
         (s : ConnectionManager.state) (data : list byte),
    ConnectionManager.step_receive k = Ok data ->
    let x := ConnectionManager.iteration websocket k s in
    outcome_of x = Ret ConnectionManager.Continue
    /\ (List.length data mod 4 <> 0 ->
        exists msg,
          sends (trace_of x)
          = map (fun c => (c, ConnectionManager.envelope "error"
                                (JObj [("message", JStr msg)])))
              (ConnectionManager.active_connections s)
          /\ transcriber_calls (trace_of x) = []
          /\ ConnectionManager.current_transcript (state_of x)
             = ConnectionManager.current_transcript s)
    /\ (List.length data mod 4 = 0 ->
        exists audio,
          frombuffer data = Some audio
          /\ 4 * List.length audio = List.length data
          /\ transcriber_calls (trace_of x) = [audio]).
Proof.
  intros websocket k s data Hr x.
  assert (Hret : outcome_of x = Ret ConnectionManager.Continue).
  { subst x.
    destruct (ManagerFacts.iteration_returns websocket k s)
      as (c & s' & t & E & _ & _ & Hb).
    rewrite E. cbn. destruct c; [reflexivity|].
    destruct (Hb eq_refl) as (e & He & _). congruence. }
  split; [exact Hret|]. split.
  - intros Hbad. apply frombuffer_rejects in Hbad.
    exists "buffer size must be a multiple of element size".
    set (event := ConnectionManager.envelope "error" _).
    assert (Ex : x = (Ret ConnectionManager.Continue,
                      state_of (ConnectionManager.broadcast
                                  (ConnectionManager.step_world k) event s),
                      trace_of (ConnectionManager.broadcast
                                  (ConnectionManager.step_world k) event s))).
    { subst x. unfold ConnectionManager.iteration, try_catch. cbn zeta.
      rewrite Hr. cbn [of_result]. rewrite bind_ret_l, Hbad.
      cbn [of_option]. unfold bind at 1, raise at 1.
      cbn [exn_kind_of exn_msg].
      now rewrite ManagerFacts.broadcast_then_continue. }
    destruct (ManagerFacts.broadcast_shape
                (ConnectionManager.step_world k) event s)
      as (conns & t & Eb & _ & Hs & _ & Hc).
    rewrite Ex, Eb. cbn [state_of trace_of fst snd]. auto.
  - intros Hgood. destruct (frombuffer_decodes data Hgood) as (audio & Hf & Hl).
    exists audio. split; [exact Hf|]. split; [exact Hl|].
    subst x. unfold ConnectionManager.iteration. cbn zeta. rewrite Hr.
    destruct (ManagerFacts.process_audio_returns
                (ConnectionManager.step_world k) audio s)
      as (results & s1 & t1 & E1 & _).
    assert (Hc1 : transcriber_calls t1 = [audio]).
    { destruct (transcribe (ConnectionManager.step_world k) audio)
        as [text|e] eqn:Ht.
      - destruct (ManagerFacts.process_audio_heard _ audio s text Ht)
          as (d & a & E). rewrite E in E1. now inversion E1.
      - rewrite (ManagerFacts.process_audio_failed _ audio s e Ht) in E1.
        now inversion E1. }
    destruct (ManagerFacts.broadcast_shape
                (ConnectionManager.step_world k)
                (ConnectionManager.envelope "update" results) s1)
      as (conns & t2 & Eb & _ & _ & _ & Hc2).
    erewrite try_catch_ret.
    2:{ cbn [of_result]. rewrite bind_ret_l, Hf. cbn [of_option].
        rewrite bind_ret_l, (bind_eq _ E1).
        rewrite ManagerFacts.broadcast_then_continue, Eb. reflexivity. }
    cbn [trace_of state_of fst snd].
    now rewrite transcriber_calls_app, Hc1, Hc2.
Qed.

Lemma endpoint_turn_on_a_frame_witness :
  let w := Example.world_of (Ok "hi") Example.api_down Example.api_down [] in
  let k := {| ConnectionManager.step_world := w;
              ConnectionManager.step_shutdown := false;
              ConnectionManager.step_receive := Ok [x01; x02; x03]%byte |} in
  let s := Example.manager_with [1; 2] in
  ConnectionManager.step_receive k = Ok [x01; x02; x03]%byte
  /\ outcome_of (ConnectionManager.iteration 1 k s)
     = Ret ConnectionManager.Continue.
Proof.
  cbv zeta. split; [reflexivity|].
  exact (proj1 (endpoint_turn_on_a_frame 1
                  {| ConnectionManager.step_world :=
                       Example.world_of (Ok "hi") Example.api_down
                         Example.api_down [];
                     ConnectionManager.step_shutdown := false;
                     ConnectionManager.step_receive :=
                       Ok [x01; x02; x03]%byte |}
                  (Example.manager_with [1; 2])
                  [x01; x02; x03]%byte eq_refl)).
Defined.

Lemma iteration_timeout (websocket : channel) (k : ConnectionManager.step)
    (s : ConnectionManager.state) (e : exn) :
  ConnectionManager.step_receive k = Err e ->
  exn_kind_of e = TimeoutError ->
  ConnectionManager.iteration websocket k s
  = (Ret ConnectionManager.Continue, s, []).
Proof.
  intros Hr Hk. unfold ConnectionManager.iteration, try_catch. cbn zeta.
  rewrite Hr. cbn [of_result]. unfold bind at 1, raise at 1.
  rewrite Hk. reflexivity.
Qed.

(** A receive timeout is a turn in which nothing happens: however many
    turns of the endpoint's loop time out in a row, the manager is left
    exactly as it was, nothing is sent, closed or transcribed, and the
    loop is still running. *)
Theorem timeouts_are_idle_turns :
  forall (websocket : channel) (steps : list ConnectionManager.step)
         (s : ConnectionManager.state),
    ConnectionManager.shutdown_event s = false ->
    Forall is_timeout steps ->
    ConnectionManager.receive_loop websocket steps s = (Ret Running, s, []).
Proof.
  intros websocket steps s Hs Hall. revert s Hs.
  induction Hall as [|k rest (Hk & e & Hr & He) _ IH]; intros s Hs.
  - reflexivity.
  - rewrite (ManagerFacts.receive_loop_continues websocket k rest s s []
               Hk Hs (iteration_timeout websocket k s e Hr He)).
    now rewrite (IH s Hs).
Qed.

Lemma timeouts_are_idle_turns_witness :
  let w := Example.world_of (Ok "hi") Example.api_down Example.api_down [] in
  let k := {| ConnectionManager.step_world := w;
              ConnectionManager.step_shutdown := false;
              ConnectionManager.step_receive :=
                Err (Exn TimeoutError "") |} in
  let s := Example.manager_with [1; 2] in
  (ConnectionManager.shutdown_event s = false /\ Forall is_timeout [k; k; k])
  /\ ConnectionManager.receive_loop 1 [k; k; k] s = (Ret Running, s, []).
Proof.
  cbv zeta.
  assert (Ht : is_timeout
                 {| ConnectionManager.step_world :=
                      Example.world_of (Ok "hi") Example.api_down
                        Example.api_down [];
                    ConnectionManager.step_shutdown := false;
                    ConnectionManager.step_receive :=
                      Err (Exn TimeoutError "") |}).
  { split; [reflexivity|]. eexists. split; reflexivity. }
  assert (Hall : Forall is_timeout
                   [ {| ConnectionManager.step_world :=
                          Example.world_of (Ok "hi") Example.api_down
                            Example.api_down [];
                        ConnectionManager.step_shutdown := false;
                        ConnectionManager.step_receive :=
                          Err (Exn TimeoutError "") |};
                     {| ConnectionManager.step_world :=
                          Example.world_of (Ok "hi") Example.api_down
                            Example.api_down [];
                        ConnectionManager.step_shutdown := false;
                        ConnectionManager.step_receive :=
                          Err (Exn TimeoutError "") |};
                     {| ConnectionManager.step_world :=
                          Example.world_of (Ok "hi") Example.api_down
                            Example.api_down [];
                        ConnectionManager.step_shutdown := false;
                        ConnectionManager.step_receive :=
                          Err (Exn TimeoutError "") |} ])
    by (repeat (apply Forall_cons; [exact Ht|]); apply Forall_nil).
  split; [split; [reflexivity | exact Hall]|].
  exact (timeouts_are_idle_turns 1 _ (Example.manager_with [1; 2])
           eq_refl Hall).
Defined.

Lemma remove_last (x : nat) (xs : list nat) :
  Py.contains x xs = false -> Py.remove x (xs ++ [x]) = Some xs.
Proof.
  intros H. rewrite remove_middle.
  - now rewrite app_nil_r.
  - intros Hin. apply contains_In in Hin. congruence.
Qed.

Lemma contains_last (x : nat) (xs : list nat) :
  Py.contains x (xs ++ [x]) = true.
Proof. apply contains_In, in_or_app. right. now left. Qed.

Lemma connect_accepted (w : world) (websocket : channel)
    (s : ConnectionManager.state) :
  accept_ok w websocket = true ->
  ConnectionManager.connect w websocket s
  = (Ret tt,
     ConnectionManager.set_active_connections s
       (ConnectionManager.active_connections s ++ [websocket]),
     [EAccept websocket]).
Proof.
  intros H. unfold ConnectionManager.connect, ws_accept. run_monad.
  now rewrite H.
Qed.

(** The whole of [websocket_endpoint], for a socket that is not yet among
    the connections. If the handshake fails the exception escapes and
    nothing is registered. Otherwise the socket is registered; when the
    client then disconnects, or the shutdown event is found set, the
    endpoint ends normally, the socket has been unregistered again and
    [close] has been called on it once, not twice, although
    [disconnect] runs a second time in the [finally] clause; the turns
    that would have followed never run. *)
Theorem endpoint_registers_then_unregisters :
  forall (w0 w1 : world) (websocket : channel) (k : ConnectionManager.step)
         (rest : list ConnectionManager.step) (s : ConnectionManager.state),
    Py.contains websocket (ConnectionManager.active_connections s) = false ->
    ConnectionManager.shutdown_event s = false ->
    (accept_ok w0 websocket = false ->
     exists e,
       ConnectionManager.websocket_endpoint w0 w1 websocket (k :: rest) s
       = (Raise e, s, [EAccept websocket]))
    /\ (accept_ok w0 websocket = true ->
        ConnectionManager.step_shutdown k = false ->
        (exists e, ConnectionManager.step_receive k = Err e
                   /\ exn_kind_of e = WebSocketDisconnect) ->
        ConnectionManager.websocket_endpoint w0 w1 websocket (k :: rest) s
        = (Ret Stopped, s, [EAccept websocket; EClose websocket]))
    /\ (accept_ok w0 websocket = true ->
        ConnectionManager.step_shutdown k = true ->
        ConnectionManager.websocket_endpoint w0 w1 websocket (k :: rest) s
        = (Ret Stopped, ConnectionManager.set_shutdown_event s true,
           [EAccept websocket; EClose websocket])).
Proof.
  intros w0 w1 websocket k rest s Habs Hs.
  set (s1 := ConnectionManager.set_active_connections s
               (ConnectionManager.active_connections s ++ [websocket])).
  assert (Hback : forall s', ConnectionManager.active_connections s'
                             = ConnectionManager.active_connections s1 ->
             forall w, ConnectionManager.disconnect w websocket s'
                       = (Ret tt,
                          ConnectionManager.set_active_connections s'
                            (ConnectionManager.active_connections s),
                          [EClose websocket])).
  { intros s' Hc w.
    assert (Hin : Py.contains websocket
                    (ConnectionManager.active_connections s') = true)
      by (rewrite Hc; apply contains_last).
    destruct (ManagerFacts.disconnect_present w websocket s' Hin)
      as (conns & Hr & E).
    rewrite Hc in Hr. cbn in Hr. rewrite (remove_last _ _ Habs) in Hr.
    injection Hr as <-. exact E. }
  split; [|split].
  - intros Hacc. unfold ConnectionManager.websocket_endpoint.
    unfold ConnectionManager.connect, ws_accept. run_monad. rewrite Hacc.
    cbn. eauto.
  - intros Hacc Hk (e & Hr & He).
    unfold ConnectionManager.websocket_endpoint.
    rewrite (bind_eq _ (connect_accepted w0 websocket s Hacc)). fold s1.
    assert (Ei : ConnectionManager.iteration websocket k s1
                 = (Ret ConnectionManager.Break, s, [EClose websocket])).
    { unfold ConnectionManager.iteration, try_catch. cbn zeta.
      rewrite Hr. cbn [of_result]. unfold bind at 1, raise at 1. rewrite He.
      rewrite ManagerFacts.disconnect_then_break.
      rewrite (Hback s1 eq_refl). cbn [state_of trace_of fst snd].
      subst s1. now destruct s. }
    assert (El : ConnectionManager.receive_loop websocket (k :: rest) s1
                 = (Ret Stopped, s, [EClose websocket])).
    { rewrite ManagerFacts.receive_loop_cons. cbn zeta. rewrite Hk.
      cbn [orb]. change (ConnectionManager.shutdown_event s1)
        with (ConnectionManager.shutdown_event s). rewrite Hs.
      rewrite (ManagerFacts.set_shutdown_false s1 Hs).
      rewrite (bind_eq _ Ei). reflexivity. }
    rewrite (bind_eq _ (try_catch_ret _ _ _ _ _ _ El)).
    cbv beta iota.
    rewrite (bind_eq _ (ManagerFacts.disconnect_absent w1 websocket s Habs)).
    reflexivity.
  - intros Hacc Hk.
    unfold ConnectionManager.websocket_endpoint.
    rewrite (bind_eq _ (connect_accepted w0 websocket s Hacc)). fold s1.
    assert (El : ConnectionManager.receive_loop websocket (k :: rest) s1
                 = (Ret Stopped,
                    ConnectionManager.set_shutdown_event s1 true, [])).
    { rewrite ManagerFacts.receive_loop_cons. cbn zeta. rewrite Hk.
      reflexivity. }
    rewrite (bind_eq _ (try_catch_ret _ _ _ _ _ _ El)).
    cbv beta iota.
    rewrite (bind_eq _ (Hback (ConnectionManager.set_shutdown_event s1 true)
                          eq_refl w1)).
    reflexivity.
Qed.

Lemma endpoint_registers_then_unregisters_witness :
  let w := Example.world_of (Ok "hi") Example.api_down Example.api_down [] in
  let k := {| ConnectionManager.step_world := w;
              ConnectionManager.step_shutdown := false;
              ConnectionManager.step_receive :=
                Err (Exn WebSocketDisconnect "1000") |} in
  let s := Example.manager_with [1; 2] in
  (Py.contains 3 (ConnectionManager.active_connections s) = false
   /\ ConnectionManager.shutdown_event s = false)
  /\ ConnectionManager.websocket_endpoint w w 3 [k; k] s
     = (Ret Stopped, s, [EAccept 3; EClose 3]).
Proof.
  cbv zeta. split; [split; reflexivity|].
  refine (proj1 (proj2 (endpoint_registers_then_unregisters
                          (Example.world_of (Ok "hi") Example.api_down
                             Example.api_down [])
                          (Example.world_of (Ok "hi") Example.api_down
                             Example.api_down [])
                          3
                          {| ConnectionManager.step_world :=
                               Example.world_of (Ok "hi") Example.api_down
                                 Example.api_down [];
                             ConnectionManager.step_shutdown := false;
                             ConnectionManager.step_receive :=
                               Err (Exn WebSocketDisconnect "1000") |}
                          [{| ConnectionManager.step_world :=
                                Example.world_of (Ok "hi") Example.api_down
                                  Example.api_down [];
                              ConnectionManager.step_shutdown := false;
                              ConnectionManager.step_receive :=
                                Err (Exn WebSocketDisconnect "1000") |}]
                          (Example.manager_with [1; 2])
                          eq_refl eq_refl)) eq_refl eq_refl _).
  eexists. split; reflexivity.
Defined.

(** [ConnectionManager.process_audio] never raises. A failed
    transcription comes back as [{"error": message}]: the transcript is
    left as it was and no derivation call is made. After a successful
    one the transcript has grown by the text, both derivation calls have
    been made, in order, on the whole updated transcript, and a
    derivation that fails shows in the result as a null diagram or an
    empty action-item list. *)
Theorem process_audio_never_raises :
  forall (w : world) (audio : chunk) (s : ConnectionManager.state),
    let x := ConnectionManager.process_audio w audio s in
    match transcribe w audio with
    | Err e =>
        x = (Ret (JObj [("error", JStr (exn_msg e))]), s,
             [ETranscribe audio (Err e)])
    | Ok text =>
        let full := (ConnectionManager.current_transcript s ++ text)%string in
        x = (Ret (JObj [("transcript", JStr text);
                        ("diagram",
                         match chat_create w "gpt-4" DiagramInstr full with
                         | Ok answer => json_opt_str answer
                         | Err _ => JNull
                         end);
                        ("action_items",
                         match chat_create w "gpt-4" ActionItemsInstr full with
                         | Ok answer => json_opt_str answer
                         | Err _ => JList []
                         end)]),
             ConnectionManager.set_current_transcript s full,
             [ETranscribe audio (Ok text);
              EComplete "gpt-4" DiagramInstr full;
              EComplete "gpt-4" ActionItemsInstr full])
    end.
Proof.
  intros w audio s x. subst x.
  destruct (transcribe w audio) as [text|e] eqn:Ht.
  - cbn zeta.
    set (full := (ConnectionManager.current_transcript s ++ text)%string).
    set (s1 := ConnectionManager.set_current_transcript s full).
    assert (E0 : model_transcribe (S := ConnectionManager.state) w audio s
                 = (Ret text, s, [ETranscribe audio (Ok text)])).
    { unfold model_transcribe. run_monad. now rewrite Ht. }
    assert (Ed : ConnectionManager.generate_diagram w full s1
                 = (Ret match chat_create w "gpt-4" DiagramInstr full with
                        | Ok answer => answer
                        | Err _ => None
                        end, s1, [EComplete "gpt-4" DiagramInstr full])).
    { unfold ConnectionManager.generate_diagram. run_monad.
      destruct (chat_create w "gpt-4" DiagramInstr full); reflexivity. }
    assert (Ea : ConnectionManager.extract_action_items w full s1
                 = (Ret match chat_create w "gpt-4" ActionItemsInstr full with
                        | Ok answer => json_opt_str answer
                        | Err _ => JList []
                        end, s1, [EComplete "gpt-4" ActionItemsInstr full])).
    { unfold ConnectionManager.extract_action_items. run_monad.
      destruct (chat_create w "gpt-4" ActionItemsInstr full); reflexivity. }
    unfold ConnectionManager.process_audio. apply try_catch_ret.
    rewrite (bind_eq _ E0), bind_get, bind_put, bind_get.
    fold full. fold s1.
    change (ConnectionManager.current_transcript s1) with full.
    rewrite (bind_eq _ Ed), bind_get.
    change (ConnectionManager.current_transcript s1) with full.
    rewrite (bind_eq _ Ea).
    cbn [outcome_of state_of trace_of fst snd ret app].
    destruct (chat_create w "gpt-4" DiagramInstr full); reflexivity.
  - apply (ManagerFacts.process_audio_failed w audio s e Ht).
Qed.

(** ** The registry after a broadcast *)

Lemma filter_keeps_all {A} (f : A -> bool) (l : list A) :
  (forall x, In x l -> f x = true) -> filter f l = l.
Proof.
  induction l as [|a l IH]; cbn; intros H; [reflexivity|].
  rewrite (H a (or_introl eq_refl)). f_equal. apply IH. auto.
Qed.

Lemma filter_twice {A} (f g h : A -> bool) (l : list A) :
  (forall x, h x = g x && f x) -> filter f (filter g l) = filter h l.
Proof.
  intros H. induction l as [|a l IH]; cbn; [reflexivity|].
  rewrite H. destruct (g a); cbn; [|exact IH].
  destruct (f a); now rewrite IH.
Qed.

Lemma remove_is_filter (d : nat) (l : list nat) :
  NoDup l -> In d l ->
  Py.remove d l = Some (filter (fun c => negb (Nat.eqb c d)) l).
Proof.
  induction l as [|y l IH]; cbn; intros Hnd Hin; [contradiction|].
  inversion Hnd as [|? ? Hy Hnd']; subst.
  destruct (Nat.eqb_spec y d) as [->|Hne]; cbn.
  - f_equal. symmetry. apply filter_keeps_all. intros x Hx.
    destruct (Nat.eqb_spec x d) as [->|_]; [contradiction | reflexivity].
  - destruct Hin as [Heq|Hin]; [congruence|].
    now rewrite (IH Hnd' Hin).
Qed.

Lemma closes_app (t1 t2 : trace) : closes (t1 ++ t2) = closes t1 ++ closes t2.
Proof.
  induction t1 as [|e t1 IH]; cbn; [reflexivity|].
  destruct e; cbn; now rewrite ?IH.
Qed.

(** The second loop of [broadcast] on duplicate-free connections: the
    sockets to drop are taken out, each is closed once, the others keep
    their order. *)
Lemma disconnect_each_filters (w : world) (dead : list channel) :
  forall s : ConnectionManager.state,
    NoDup (ConnectionManager.active_connections s) ->
    NoDup dead ->
    incl dead (ConnectionManager.active_connections s) ->
    ConnectionManager.disconnect_each w dead s
    = (Ret tt,
       ConnectionManager.set_active_connections s
         (filter (fun c => negb (Py.contains c dead))
            (ConnectionManager.active_connections s)),
       map EClose dead).
Proof.
  induction dead as [|d rest IH]; intros s Hnd Hdead Hincl;
    cbn [ConnectionManager.disconnect_each map].
  - rewrite filter_keeps_all by reflexivity.
    now rewrite ManagerFacts.set_connections_same.
  - inversion Hdead as [|? ? Hd Hrest]; subst.
    assert (Hin : In d (ConnectionManager.active_connections s))
      by (apply Hincl; now left).
    assert (Hc : Py.contains d (ConnectionManager.active_connections s) = true)
      by now apply contains_In.
    destruct (ManagerFacts.disconnect_present w d s Hc) as (l1 & Hr & E).
    rewrite (remove_is_filter d _ Hnd Hin) in Hr. injection Hr as <-.
    rewrite (bind_eq _ E). cbv beta.
    rewrite IH.
    + cbn [outcome_of state_of trace_of fst snd app
           ConnectionManager.active_connections
           ConnectionManager.set_active_connections
           ConnectionManager.shutdown_event
           ConnectionManager.current_transcript].
      rewrite (filter_twice (fun c => negb (Py.contains c rest))
                 (fun c => negb (Nat.eqb c d))
                 (fun c => negb (Py.contains c (d :: rest)))).
      * reflexivity.
      * intros x. cbn [Py.contains].
        rewrite (Nat.eqb_sym d x). now destruct (Nat.eqb x d).
    + cbn. now apply NoDup_filter.
    + exact Hrest.
    + cbn. intros x Hx. apply filter_In. split.
      * apply Hincl. now right.
      * destruct (Nat.eqb_spec x d) as [->|_]; [contradiction | reflexivity].
Qed.

Lemma closes_of_deliveries (message : json) (ok : channel -> bool)
    (conns : list channel) :
  closes (map (fun c => ESend c message (ok c)) conns) = [].
Proof. induction conns as [|c l IH]; cbn; auto. Qed.

Lemma closes_of_closing (conns : list channel) :
  closes (map EClose conns) = conns.
Proof. induction conns as [|c l IH]; cbn; [reflexivity | now rewrite IH]. Qed.

Lemma sends_of_closing (conns : list channel) : sends (map EClose conns) = [].
Proof. induction conns as [|c l IH]; cbn; auto. Qed.

(** [ConnectionManager.broadcast] on duplicate-free connections, whatever
    fails: every connection is handed the message once, in order; the
    connections left afterwards are exactly those whose delivery
    succeeded, in their old order; each of the others has been closed
    once; and [broadcast] returns normally. *)
Theorem broadcast_keeps_the_reachable :
  forall (w : world) (message : json) (s : ConnectionManager.state),
    NoDup (ConnectionManager.active_connections s) ->
    let conns := ConnectionManager.active_connections s in
    let x := ConnectionManager.broadcast w message s in
    outcome_of x = Ret tt
    /\ ConnectionManager.active_connections (state_of x)
       = filter (fun c => send_ok w c message) conns
    /\ sends (trace_of x) = map (fun c => (c, message)) conns
    /\ closes (trace_of x)
       = filter (fun c => negb (send_ok w c message)) conns
    /\ ConnectionManager.current_transcript (state_of x)
       = ConnectionManager.current_transcript s
    /\ ConnectionManager.shutdown_event (state_of x)
       = ConnectionManager.shutdown_event s.
Proof.
  intros w message s Hnd conns x. subst x.
  unfold ConnectionManager.broadcast. rewrite bind_get.
  rewrite (bind_eq _ (ManagerFacts.broadcast_sends_eq w message
                        (ConnectionManager.active_connections s) [] s)).
  cbv beta. cbn [app]. fold conns.
  rewrite disconnect_each_filters.
  - cbn [outcome_of state_of trace_of fst snd
         ConnectionManager.active_connections
         ConnectionManager.set_active_connections
         ConnectionManager.current_transcript
         ConnectionManager.shutdown_event].
    fold conns.
    rewrite sends_app, closes_app, ManagerFacts.sends_of_deliveries.
    rewrite closes_of_deliveries, closes_of_closing, sends_of_closing.
    rewrite app_nil_r. cbn [app].
    split; [reflexivity|]. split; [|repeat split].
    apply filter_ext_in. intros c Hc.
    destruct (send_ok w c message) eqn:Hok.
    + destruct (Py.contains c _) eqn:E; [|reflexivity].
      apply contains_In, filter_In in E. destruct E as [_ E].
      rewrite Hok in E. discriminate.
    + destruct (Py.contains c _) eqn:E; [reflexivity|].
      exfalso. assert (Hin : In c (filter
                 (fun c0 => negb (send_ok w c0 message)) conns)).
      { apply filter_In. split; [exact Hc | now rewrite Hok]. }
      apply contains_In in Hin. congruence.
  - exact Hnd.
  - now apply NoDup_filter.
  - intros c Hc. apply filter_In in Hc. tauto.
Qed.

Lemma broadcast_keeps_the_reachable_witness :
  let w := Example.world_of (Ok "hi") Example.api_down Example.api_down [2; 4] in
  let x := ConnectionManager.broadcast w JNull
             (Example.manager_with [1; 2; 3; 4; 5]) in
  NoDup [1; 2; 3; 4; 5]
  /\ ConnectionManager.active_connections (state_of x) = [1; 3; 5]
  /\ closes (trace_of x) = [2; 4].
Proof.
  cbv zeta.
  assert (Hnd : NoDup [1; 2; 3; 4; 5]).
  { repeat (apply NoDup_cons; [cbn; intuition discriminate|]).
    apply NoDup_nil. }
  split; [exact Hnd|].
  pose proof (broadcast_keeps_the_reachable
                (Example.world_of (Ok "hi") Example.api_down
                   Example.api_down [2; 4])
                JNull (Example.manager_with [1; 2; 3; 4; 5]) Hnd) as H.
  cbv zeta in H. destruct H as (_ & H2 & _ & H4 & _).
  split; [exact H2 | exact H4].
Defined.

(** * Further properties of the derivations and the registry *)

(** The two derivations of the service never raise and never touch the
    service: each makes exactly one completion call, on the whole
    transcript, and returns. [_generate_diagram_spec] returns a diagram
    exactly when the call answered a text that validates, and [None] in
    every other case (call failed, answer missing, answer malformed);
    [_extract_action_items] returns a non-empty list only when the call
    answered a text all of whose non-blank lines validate. *)
Theorem derivations_never_raise :
  forall (w : world) (s : TranscriptionService.state),
    let heard := TranscriptionService.current_transcript s in
    (exists r,
        TranscriptionService._generate_diagram_spec w s
        = (Ret r, s, [EComplete "gpt-4o" DiagramInstr heard])
        /\ forall d,
            r = Some d
            <-> exists text,
                chat_create w "gpt-4o" DiagramInstr heard = Ok (Some text)
                /\ validate_diagram w text = Some d)
    /\ (exists items,
           TranscriptionService._extract_action_items w s
           = (Ret items, s, [EComplete "gpt-4" ActionItemsInstr heard])
           /\ (items <> [] ->
               exists raw,
                 chat_create w "gpt-4" ActionItemsInstr heard = Ok (Some raw)
                 /\ TranscriptionService.validate_lines w
                      (Py.split Py.newline raw) = Some items)).
Proof.
  intros w s heard. split.
  - exists (derived_diagram w heard).
    split; [apply ServiceFacts.generate_diagram_spec_eq|].
    intros d. unfold derived_diagram.
    destruct (chat_create w "gpt-4o" DiagramInstr heard) as [[text|]|e].
    + split.
      * intros H. exists text. auto.
      * intros (text' & Heq & Hv). injection Heq as <-. exact Hv.
    + split; [discriminate | intros (t & H & _); discriminate].
    + split; [discriminate | intros (t & H & _); discriminate].
  - exists (derived_action_items w heard).
    split; [apply ServiceFacts.extract_action_items_eq|].
    unfold derived_action_items, parsed_action_items.
    destruct (chat_create w "gpt-4" ActionItemsInstr heard) as [[raw|]|e].
    + destruct (TranscriptionService.validate_lines w
                  (Py.split Py.newline raw)) as [items|] eqn:E.
      * intros _. exists raw. auto.
      * intros H. now contradiction H.
    + intros H. now contradiction H.
    + intros H. now contradiction H.
Qed.

Lemma lstrip_all_space (s : string) :
  all_space s = true -> Py.lstrip s = EmptyString.
Proof.
  induction s as [|c s IH]; cbn; [reflexivity|].
  destruct (Py.isspace c); cbn; [exact IH | discriminate].
Qed.

Lemma split_all_space (sep : ascii) (s : string) :
  all_space s = true ->
  Forall (fun piece => all_space piece = true) (Py.split sep s).
Proof.
  induction s as [|c s IH]; cbn [Py.split all_space]; intros H.
  - repeat constructor.
  - apply andb_prop in H. destruct H as [Hc Hs]. specialize (IH Hs).
    destruct (Ascii.eqb c sep).
    + constructor; [reflexivity | exact IH].
    + destruct (Py.split sep s) as [|piece pieces].
      * repeat constructor. cbn. now rewrite Hc.
      * inversion IH; subst. constructor; [|assumption].
        cbn. now rewrite Hc.
Qed.

Lemma validate_lines_blank (w : world) (lines : list string) :
  Forall (fun piece => all_space piece = true) lines ->
  TranscriptionService.validate_lines w lines = Some [].
Proof.
  induction 1 as [|line lines Hl _ IH]; cbn; [reflexivity|].
  unfold Py.strip. now rewrite (lstrip_all_space line Hl).
Qed.

(** An answer of the action-item call that holds nothing but whitespace
    and newlines parses to no item: every line is blank, so the
    validator is not consulted at all and no validation error can occur,
    whatever the validator would say. *)
Theorem blank_answer_yields_no_items :
  forall (w : world) (s : TranscriptionService.state) (raw : string),
    chat_create w "gpt-4" ActionItemsInstr
      (TranscriptionService.current_transcript s) = Ok (Some raw) ->
    all_space raw = true ->
    nonblank_lines raw = []
    /\ parsed_action_items w (TranscriptionService.current_transcript s)
       = Some []
    /\ TranscriptionService._extract_action_items w s
       = (Ret [], s,
          [EComplete "gpt-4" ActionItemsInstr
             (TranscriptionService.current_transcript s)]).
Proof.
  intros w s raw Hraw Hblank.
  pose proof (split_all_space Py.newline raw Hblank) as Hpieces.
  split; [|split].
  - unfold nonblank_lines.
    induction Hpieces as [|line lines Hl _ IH]; cbn; [reflexivity|].
    unfold Py.strip. now rewrite (lstrip_all_space line Hl).
  - unfold parsed_action_items. rewrite Hraw.
    now apply validate_lines_blank.
  - rewrite ServiceFacts.extract_action_items_eq.
    unfold derived_action_items, parsed_action_items. rewrite Hraw.
    now rewrite (validate_lines_blank w _ Hpieces).
Qed.

Lemma blank_answer_yields_no_items_witness :
  let w := Example.world_of (Ok "hi") Example.api_down
             (Ok (Some "  
	
 ")) [] in
  let s := Example.service_with [1] [] in
  all_space "  
	
 " = true
  /\ outcome_of (TranscriptionService._extract_action_items w s) = Ret [].
Proof.
  cbv zeta. split; [reflexivity|].
  pose proof (blank_answer_yields_no_items
                (Example.world_of (Ok "hi") Example.api_down
                   (Ok (Some "  
	
 ")) [])
                (Example.service_with [1] []) _ eq_refl eq_refl) as H.
  destruct H as (_ & _ & H). now rewrite H.
Defined.

Lemma remove_count (x : nat) (xs ys : list nat) :
  Py.remove x xs = Some ys ->
  forall c, count_occ Nat.eq_dec xs c
            = count_occ Nat.eq_dec ys c + (if Nat.eqb c x then 1 else 0).
Proof.
  revert ys. induction xs as [|y xs IH]; cbn [Py.remove]; intros ys H c.
  - discriminate.
  - destruct (Nat.eqb_spec y x) as [->|Hne].
    + injection H as <-. cbn [count_occ].
      destruct (Nat.eq_dec x c) as [->|Hc].
      * rewrite Nat.eqb_refl. lia.
      * destruct (Nat.eqb_spec c x) as [->|_]; [congruence | lia].
    + destruct (Py.remove x xs) as [xs'|]; [|discriminate].
      injection H as <-. cbn [count_occ]. rewrite (IH xs' eq_refl c).
      destruct (Nat.eq_dec y c); lia.
Qed.

(** [TranscriptionService.remove_client] succeeds exactly on a registered
    client. It then drops one occurrence of it and nothing else: a
    client that was registered twice is still registered once. On a
    client that is not registered it raises [ValueError] and leaves the
    service as it was. Either way nothing is sent or closed. *)
Theorem remove_client_raises_iff_absent :
  forall (websocket : channel) (s : TranscriptionService.state),
    let clients := TranscriptionService.websocket_clients s in
    let x := TranscriptionService.remove_client websocket s in
    trace_of x = []
    /\ same_store s (state_of x)
    /\ (In websocket clients ->
        outcome_of x = Ret tt
        /\ forall c,
            count_occ Nat.eq_dec clients c
            = count_occ Nat.eq_dec
                (TranscriptionService.websocket_clients (state_of x)) c
              + (if Nat.eqb c websocket then 1 else 0))
    /\ (~ In websocket clients ->
        exists msg, x = (Raise (Exn ValueError msg), s, [])).
Proof.
  intros websocket s clients x. subst x clients.
  unfold TranscriptionService.remove_client. rewrite bind_get.
  destruct (Py.remove websocket (TranscriptionService.websocket_clients s))
    as [ys|] eqn:E; cbn [of_option].
  - rewrite bind_ret_l. cbn [put outcome_of state_of trace_of fst snd].
    split; [reflexivity|]. split; [repeat split|]. split.
    + intros _. split; [reflexivity|]. cbn. now apply remove_count.
    + intros Habs. apply remove_None in Habs. congruence.
  - unfold bind, raise. cbn [outcome_of state_of trace_of fst snd].
    split; [reflexivity|]. split; [repeat split|]. split.
    + intros Hin. apply remove_None in E. contradiction.
    + intros _. eauto.
Qed.

(** Once [stop_background_processing] has been called, or whenever the
    processing flag is down, the background loop ends at its next check:
    it transcribes nothing and sends nothing, and the chunks that are
    queued stay in the queue, unprocessed. *)
Theorem stopped_loop_leaves_the_queue :
  forall (k : TranscriptionService.tick) (rest : list TranscriptionService.tick)
         (s : TranscriptionService.state),
    TranscriptionService.tick_stop k = true
    \/ TranscriptionService.is_processing s = false ->
    TranscriptionService._process_audio_buffer (k :: rest) s
    = (Ret Stopped,
       TranscriptionService.set_is_processing
         (TranscriptionService.set_audio_buffer s
            (TranscriptionService.audio_buffer s
             ++ TranscriptionService.tick_arrivals k))
         false,
       []).
Proof.
  intros k rest s H.
  cbn [TranscriptionService._process_audio_buffer].
  assert (Ea : TranscriptionService.arrive k s
               = (Ret tt,
                  TranscriptionService.set_is_processing
                    (TranscriptionService.set_audio_buffer s
                       (TranscriptionService.audio_buffer s
                        ++ TranscriptionService.tick_arrivals k))
                    false,
                  [])).
  { unfold TranscriptionService.arrive. rewrite bind_get, put_all.
    destruct H as [-> | H]; [reflexivity|].
    rewrite H. now destruct (TranscriptionService.tick_stop k). }
  rewrite (bind_eq _ Ea), bind_get. reflexivity.
Qed.

Lemma stopped_loop_leaves_the_queue_witness :
  let w := Example.world_of (Ok "hi") Example.api_down Example.api_down [] in
  let k := {| TranscriptionService.tick_world := w;
              TranscriptionService.tick_arrivals := [[2%N]];
              TranscriptionService.tick_stop := true |} in
  let x := TranscriptionService._process_audio_buffer [k; k]
             (Example.service_with [1] [[1%N]]) in
  TranscriptionService.tick_stop k = true
  /\ outcome_of x = Ret Stopped
  /\ TranscriptionService.audio_buffer (state_of x) = [[1%N]; [2%N]].
Proof.
  cbv zeta. split; [reflexivity|].
  rewrite (stopped_loop_leaves_the_queue
             {| TranscriptionService.tick_world :=
                  Example.world_of (Ok "hi") Example.api_down
                    Example.api_down [];
                TranscriptionService.tick_arrivals := [[2%N]];
                TranscriptionService.tick_stop := true |}
             _ (Example.service_with [1] [[1%N]]) (or_introl eq_refl)).
  split; reflexivity.
Defined.

(** * One event per frame *)

Lemma filter_none {A} (f : A -> bool) (l : list A) :
  (forall x, In x l -> f x = false) -> filter f l = [].
Proof.
  induction l as [|a l IH]; cbn; intros H; [reflexivity|].
  rewrite (H a (or_introl eq_refl)). apply IH. auto.
Qed.

Lemma broadcast_all_delivered (w : world) (message : json)
    (s : ConnectionManager.state) :
  (forall c, In c (ConnectionManager.active_connections s) ->
             send_ok w c message = true) ->
  ConnectionManager.broadcast w message s
  = (Ret tt, s, delivered_to (ConnectionManager.active_connections s) message).
Proof.
  intros Hok. unfold ConnectionManager.broadcast. rewrite bind_get.
  rewrite (bind_eq _ (ManagerFacts.broadcast_sends_eq w message
                        (ConnectionManager.active_connections s) [] s)).
  cbv beta. cbn [app]. rewrite filter_none.
  - cbn. rewrite app_nil_r. f_equal. unfold delivered_to.
    apply map_ext_in. intros c Hc. now rewrite (Hok c Hc).
  - intros c Hc. now rewrite (Hok c Hc).
Qed.

Lemma received_without_sends (c : channel) (t : trace) :
  sends t = [] -> received c t = [].
Proof.
  induction t as [|e t IH]; cbn; [reflexivity|].
  destruct e; cbn; auto. discriminate.
Qed.

Lemma received_delivered (message : json) (c : channel)
    (conns : list channel) :
  NoDup conns -> In c conns ->
  received c (delivered_to conns message) = [message].
Proof.
  intros Hnd Hin. unfold delivered_to.
  apply (received_of_deliveries message (fun _ => true) c conns Hnd Hin eq_refl).
Qed.

Lemma closes_delivered (message : json) (conns : list channel) :
  closes (delivered_to conns message) = [].
Proof. induction conns as [|c l IH]; cbn; auto. Qed.

(** A turn on a frame in which every delivery succeeds: calls that send
    nothing, then one event to each connection. *)
Lemma iteration_healthy_frame (websocket : channel)
    (k : ConnectionManager.step) (s : ConnectionManager.state) :
  is_healthy_frame k ->
  exists m s' t0,
    ConnectionManager.iteration websocket k s
    = (Ret ConnectionManager.Continue, s',
       t0 ++ delivered_to (ConnectionManager.active_connections s) m)
    /\ sends t0 = [] /\ closes t0 = []
    /\ ConnectionManager.active_connections s'
       = ConnectionManager.active_connections s
    /\ ConnectionManager.shutdown_event s'
       = ConnectionManager.shutdown_event s
    /\ is_endpoint_event m.
Proof.
  intros (_ & (data & Hr) & Hok).
  unfold ConnectionManager.iteration, try_catch. cbn zeta.
  rewrite Hr. cbn [of_result]. rewrite bind_ret_l.
  destruct (frombuffer data) as [audio|]; cbn [of_option].
  - rewrite bind_ret_l.
    assert (Hp : exists results s1 t1,
               ConnectionManager.process_audio
                 (ConnectionManager.step_world k) audio s
               = (Ret results, s1, t1)
               /\ sends t1 = [] /\ closes t1 = []
               /\ ConnectionManager.active_connections s1
                  = ConnectionManager.active_connections s
               /\ ConnectionManager.shutdown_event s1
                  = ConnectionManager.shutdown_event s).
    { destruct (transcribe (ConnectionManager.step_world k) audio)
        as [text|e] eqn:Ht.
      - destruct (ManagerFacts.process_audio_heard _ audio s text Ht)
          as (d & a & E).
        rewrite E. eexists _, _, _. split; [reflexivity|]. repeat split.
      - rewrite (ManagerFacts.process_audio_failed _ audio s e Ht).
        eexists _, _, _. split; [reflexivity|]. repeat split. }
    destruct Hp as (results & s1 & t1 & E1 & Hs1 & Hc1 & Ha1 & Hd1).
    rewrite (bind_eq _ E1). cbv beta.
    rewrite ManagerFacts.broadcast_then_continue.
    rewrite broadcast_all_delivered by (intros; apply Hok).
    cbn [outcome_of state_of trace_of fst snd]. rewrite Ha1.
    exists (ConnectionManager.envelope "update" results), s1, t1.
    repeat split; auto. now left.
  - unfold bind at 1, raise at 1. cbn [exn_kind_of exn_msg].
    rewrite ManagerFacts.broadcast_then_continue.
    rewrite broadcast_all_delivered by (intros; apply Hok).
    cbn [outcome_of state_of trace_of fst snd].
    eexists _, s, []. split; [reflexivity|]. repeat split. now right.
Qed.

(** While every delivery succeeds, the endpoint's loop sends one event
    per received frame to every connection: after any number of frames,
    decodable or not, transcribed or not, each connection (they are
    duplicate-free) has received exactly as many events as frames
    arrived, each an [update] or an [error] envelope; no connection has
    been dropped or closed, and the loop is still running. *)
Theorem one_event_per_frame :
  forall (websocket : channel) (steps : list ConnectionManager.step)
         (s : ConnectionManager.state),
    ConnectionManager.shutdown_event s = false ->
    NoDup (ConnectionManager.active_connections s) ->
    Forall is_healthy_frame steps ->
    let x := ConnectionManager.receive_loop websocket steps s in
    outcome_of x = Ret Running
    /\ ConnectionManager.active_connections (state_of x)
       = ConnectionManager.active_connections s
    /\ closes (trace_of x) = []
    /\ forall c, In c (ConnectionManager.active_connections s) ->
                 List.length (received c (trace_of x)) = List.length steps
                 /\ Forall is_endpoint_event (received c (trace_of x)).
Proof.
  intros websocket steps s Hs Hnd Hall. revert s Hs Hnd.
  induction Hall as [|k rest Hk _ IH]; intros s Hs Hnd; cbv zeta.
  - cbn. repeat split; auto.
  - destruct (iteration_healthy_frame websocket k s Hk)
      as (m & s1 & t0 & Ei & Hs0 & Hc0 & Ha & Hd & Hm).
    rewrite (ManagerFacts.receive_loop_continues websocket k rest s s1 _
               (proj1 Hk) Hs Ei).
    assert (Hs1 : ConnectionManager.shutdown_event s1 = false) by congruence.
    assert (Hnd1 : NoDup (ConnectionManager.active_connections s1))
      by now rewrite Ha.
    specialize (IH s1 Hs1 Hnd1). cbv zeta in IH.
    destruct IH as (Ho & Hconn & Hcl & Hrec).
    cbn [outcome_of state_of trace_of fst snd].
    split; [exact Ho|]. split; [congruence|]. split.
    + rewrite !closes_app, Hc0, closes_delivered, Hcl. reflexivity.
    + intros c Hc. rewrite !received_app.
      rewrite (received_without_sends c t0 Hs0).
      rewrite (received_delivered m c _ Hnd Hc).
      rewrite <- Ha in Hc. destruct (Hrec c Hc) as [Hlen Hty].
      cbn [app List.length]. split; [now rewrite Hlen|].
      constructor; assumption.
Qed.

Lemma one_event_per_frame_witness :
  let w := Example.world_of (Ok "hi") Example.api_down Example.api_down [] in
  let good := {| ConnectionManager.step_world := w;
                 ConnectionManager.step_shutdown := false;
                 ConnectionManager.step_receive :=
                   Ok [x00; x00; x80; x3f]%byte |} in
  let bad := {| ConnectionManager.step_world := w;
                ConnectionManager.step_shutdown := false;
                ConnectionManager.step_receive := Ok [x00]%byte |} in
  let s := Example.manager_with [1; 2] in
  (NoDup [1; 2] /\ Forall is_healthy_frame [good; bad; good])
  /\ List.length
       (received 2 (trace_of (ConnectionManager.receive_loop 1
                                [good; bad; good] s))) = 3.
Proof.
  cbv zeta.
  assert (Hnd : NoDup [1; 2]).
  { repeat (apply NoDup_cons; [cbn; intuition discriminate|]).
    apply NoDup_nil. }
  assert (Hh : forall data,
             is_healthy_frame
               {| ConnectionManager.step_world :=
                    Example.world_of (Ok "hi") Example.api_down
                      Example.api_down [];
                  ConnectionManager.step_shutdown := false;
                  ConnectionManager.step_receive := Ok data |}).
  { intros data. split; [reflexivity|]. split; [now exists data|].
    reflexivity. }
  assert (Hall : Forall is_healthy_frame
                   [ {| ConnectionManager.step_world :=
                          Example.world_of (Ok "hi") Example.api_down
                            Example.api_down [];
                        ConnectionManager.step_shutdown := false;
                        ConnectionManager.step_receive :=
                          Ok [x00; x00; x80; x3f]%byte |};
                     {| ConnectionManager.step_world :=
                          Example.world_of (Ok "hi") Example.api_down
                            Example.api_down [];
                        ConnectionManager.step_shutdown := false;
                        ConnectionManager.step_receive := Ok [x00]%byte |};
                     {| ConnectionManager.step_world :=
                          Example.world_of (Ok "hi") Example.api_down
                            Example.api_down [];
                        ConnectionManager.step_shutdown := false;
                        ConnectionManager.step_receive :=
                          Ok [x00; x00; x80; x3f]%byte |} ])
    by (repeat (apply Forall_cons; [apply Hh|]); apply Forall_nil).
  split; [split; [exact Hnd | exact Hall]|].
  pose proof (one_event_per_frame 1 _ (Example.manager_with [1; 2])
                eq_refl Hnd Hall) as H.
  cbv zeta in H. destruct H as (_ & _ & _ & Hrec).
  exact (proj1 (Hrec 2 (or_intror (or_introl eq_refl)))).
Defined.

(** * The background loop while the Transcriber answers *)

Lemma cycle_quiet (w : world) (s : TranscriptionService.state) :
  (forall audio, exists text, transcribe w audio = Ok text) ->
  derives_nothing w ->
  exists s' t,
    TranscriptionService.cycle w s = (Ret tt, s', t)
    /\ TranscriptionService.is_processing s'
       = TranscriptionService.is_processing s
    /\ TranscriptionService.audio_buffer s' = Queue.new
    /\ List.length (transcriber_calls t) <= 1.
Proof.
  intros Hw Hnone.
  destruct (Queue.empty (TranscriptionService.audio_buffer s)) eqn:H.
  - rewrite ServiceFacts.cycle_idle by assumption.
    exists s, []. repeat split; auto.
    now destruct (TranscriptionService.audio_buffer s).
  - rewrite ServiceFacts.cycle_busy by assumption. cbn zeta.
    destruct (Hw (List.concat (TranscriptionService.audio_buffer s)))
      as [text Ht].
    destruct (ServiceFacts.process_audio_chunk_heard w _
                (TranscriptionService.set_audio_buffer s Queue.new) text Ht)
      as (r & s1 & t1 & -> & _ & _ & _ & Hc & Hq & Hp & _ & Hiff).
    rewrite (proj2 Hiff (Hnone _)).
    cbn [outcome_of state_of trace_of fst snd].
    eexists _, _. split; [reflexivity|]. cbn in *. rewrite Hc.
    repeat split; auto.
Qed.

(** The background loop keeps running as long as no stop is requested,
    the Transcriber answers and the derivations yield nothing: it takes
    every turn and is still running afterwards, whichever deliveries
    fail. It makes at most one Transcriber call per turn, and after the
    last turn the queue is empty. *)
Theorem background_loop_keeps_running :
  forall (ticks : list TranscriptionService.tick)
         (s : TranscriptionService.state),
    TranscriptionService.is_processing s = true ->
    Forall is_quiet_tick ticks ->
    let x := TranscriptionService._process_audio_buffer ticks s in
    outcome_of x = Ret Running
    /\ TranscriptionService.is_processing (state_of x) = true
    /\ List.length (transcriber_calls (trace_of x)) <= List.length ticks
    /\ (ticks <> [] ->
        TranscriptionService.audio_buffer (state_of x) = Queue.new).
Proof.
  intros ticks s Hp Hall. revert s Hp.
  induction Hall as [|k rest (Hstop & Hw & Hnone) Hrest IH]; intros s Hp;
    cbv zeta.
  - cbn. repeat split; auto. intros H. now contradiction H.
  - cbn [TranscriptionService._process_audio_buffer].
    set (s0 := TranscriptionService.set_is_processing
                 (TranscriptionService.set_audio_buffer s
                    (TranscriptionService.audio_buffer s
                     ++ TranscriptionService.tick_arrivals k))
                 (TranscriptionService.is_processing s)).
    assert (Ea : TranscriptionService.arrive k s = (Ret tt, s0, [])).
    { unfold TranscriptionService.arrive. rewrite bind_get.
      rewrite Hstop, put_all. reflexivity. }
    rewrite (bind_eq _ Ea), bind_get.
    assert (Hp0 : TranscriptionService.is_processing s0 = true) by exact Hp.
    rewrite Hp0.
    destruct (cycle_quiet (TranscriptionService.tick_world k) s0 Hw Hnone)
      as (s1 & t1 & Ec & Hp1 & Hq1 & Hc1).
    rewrite (bind_eq _ Ec). cbv beta.
    assert (Hp1' : TranscriptionService.is_processing s1 = true)
      by congruence.
    specialize (IH s1 Hp1'). cbv zeta in IH.
    destruct IH as (Ho & Hpx & Hlen & Hqx).
    cbn [outcome_of state_of trace_of fst snd app].
    split; [exact Ho|]. split; [exact Hpx|]. split.
    + rewrite transcriber_calls_app, length_app. cbn [List.length]. lia.
    + intros _. destruct rest as [|k' rest'].
      * cbn. exact Hq1.
      * apply Hqx. discriminate.
Qed.

(** The spec's scenario: two turns back to back, no client registered,
    the completion API down. *)
Lemma background_loop_keeps_running_witness :
  let w := Example.world_of (Ok "hi") Example.api_down Example.api_down [] in
  let k := {| TranscriptionService.tick_world := w;
              TranscriptionService.tick_arrivals := [[1%N]];
              TranscriptionService.tick_stop := false |} in
  let x := TranscriptionService._process_audio_buffer [k; k]
             (Example.service_with [] []) in
  Forall is_quiet_tick [k; k]
  /\ outcome_of x = Ret Running
  /\ TranscriptionService.current_transcript (state_of x) = "hihi".
Proof.
  cbv zeta.
  assert (Hk : is_quiet_tick
                 {| TranscriptionService.tick_world :=
                      Example.world_of (Ok "hi") Example.api_down
                        Example.api_down [];
                    TranscriptionService.tick_arrivals := [[1%N]];
                    TranscriptionService.tick_stop := false |}).
  { split; [reflexivity|]. split; [intros audio; now exists "hi"|].
    intros transcript. split; reflexivity. }
  assert (Hall : Forall is_quiet_tick
                   [ {| TranscriptionService.tick_world :=
                          Example.world_of (Ok "hi") Example.api_down
                            Example.api_down [];
                        TranscriptionService.tick_arrivals := [[1%N]];
                        TranscriptionService.tick_stop := false |};
                     {| TranscriptionService.tick_world :=
                          Example.world_of (Ok "hi") Example.api_down
                            Example.api_down [];
                        TranscriptionService.tick_arrivals := [[1%N]];
                        TranscriptionService.tick_stop := false |} ])
    by (repeat (apply Forall_cons; [exact Hk|]); apply Forall_nil).
  split; [exact Hall|].
  split; [|reflexivity].
  exact (proj1 (background_loop_keeps_running _
                  (Example.service_with [] []) eq_refl Hall)).
Defined.


